(** * magellan: the BMC collector ([internal/collect.go])

    A shallow embedding of [NewClient], the [Query...] functions and
    [CollectInfo], and the properties of the collector checked against it.

    The libraries the collector talks to (bmclib, gofish, the file system,
    the SMD endpoint) are an environment [Env] of oracles; what the
    collector does to the outside world is kept in a [World]: the
    connections it holds open and the list of external calls it made. *)

From stdpp Require Import base option list strings gmap pretty.
From Stdlib Require Import ZArith Lia.

Local Open Scope Z_scope.
Local Open Scope string_scope.
Local Open Scope list_scope.

(** ** Go values *)

(** A Go [error] is its message. *)
Definition error : Type := string.

(** A Go [(T, error)] result where the value is nil whenever the error is
    not. *)
Inductive result (A : Type) : Type :=
| Ok (a : A)
| Err (e : error).
Arguments Ok {A} a.
Arguments Err {A} e.

(** JSON documents.  [[]byte] values holding JSON are modelled by the
    document they encode (indentation is not modelled); an object is a
    finite map from keys to documents. *)
#[local] Set Warnings "-register-all".
Inductive jval : Type :=
| JNull
| JBool (b : bool)
| JNum (n : Z)
| JString (s : string)
| JArr (l : list jval)
| JObj (m : gmap string jval).

(** A value handed back by a library ([*common.Device], [[]*redfish.Chassis],
    ...): either the encoder can write it, as the document [j], or it
    cannot. *)
Inductive goval : Type :=
| GoJSON (j : jval)
| GoUnencodable (why : error).

(** [json.RawMessage]: a byte slice, [None] when nil. *)
Definition RawMessage : Type := option jval.

(** The dynamic values stored in [data : map[string]any] by [CollectInfo]. *)
Inductive any : Type :=
| AString (s : string)
| ABool (b : bool)
| ARaw (m : RawMessage).

(** How [encoding/json] writes such a value; a nil [RawMessage] is written
    as [null]. *)
Definition any_json (v : any) : jval :=
  match v with
  | AString s => JString s
  | ABool b => JBool b
  | ARaw None => JNull
  | ARaw (Some j) => j
  end.

(** [json.MarshalIndent(data, "", "    ")] for [data : map[string]any]
    holding strings, booleans and raw messages taken from parsed documents:
    the encoder has no failing case on these. *)
Definition json_MarshalIndent_data (data : gmap string any) : jval :=
  JObj (any_json <$> data).

(** [json.MarshalIndent(map[string]any{key: v}, "", "    ")] for a library
    value [v]. *)
Definition json_MarshalIndent_field (key : string) (v : goval) : result jval :=
  match v with
  | GoJSON j => Ok (JObj {[ key := j ]})
  | GoUnencodable why => Err why
  end.

(** [json.Unmarshal(b, &rm)] for [rm : map[string]json.RawMessage]; the
    error is discarded by every caller.  Nil input and documents that are
    not objects are errors and leave [rm] alone; an object is merged into
    the existing map, its entries replacing older ones; [null] resets the
    map to nil. *)
Definition json_Unmarshal (b : option jval) (rm : gmap string jval)
  : gmap string jval :=
  match b with
  | Some (JObj m) => m ∪ rm
  | Some JNull => ∅
  | _ => rm
  end.

(** ** Data of [collect.go] *)

Definition IPMI_PORT : Z := 623.
Definition SSH_PORT : Z := 22.
Definition HTTPS_PORT : Z := 443.

Record BMCProbeResult : Type := mkProbe {
  Host : string;
  Port : Z;
  Protocol : string;
  State : bool;
}.

Record QueryParams : Type := mkQuery {
  q_Host : string;
  q_Port : Z;
  q_User : string;
  q_Pass : string;
  q_Drivers : list string;
  q_Threads : Z;
  q_Preferred : string;
  q_Timeout : Z;
  q_WithSecureTLS : bool;
  q_CertPoolFile : string;
  q_Verbose : bool;
  q_IpmitoolPath : string;
  q_OutputPath : string;
}.

(** [q.Host = h; q.Port = p] on the shared [*QueryParams]. *)
Definition set_host_port (q : QueryParams) (h : string) (p : Z) : QueryParams :=
  mkQuery h p (q_User q) (q_Pass q) (q_Drivers q) (q_Threads q)
    (q_Preferred q) (q_Timeout q) (q_WithSecureTLS q) (q_CertPoolFile q)
    (q_Verbose q) (q_IpmitoolPath q) (q_OutputPath q).

(** *** net/http, crypto/tls, crypto/x509 *)

Record tls_Config : Type := { InsecureSkipVerify : bool }.
Record http_Transport : Type := { TLSClientConfig : tls_Config }.
Record http_Client : Type := { Transport : http_Transport }.

Definition Certificate : Type := string.
(** [*x509.CertPool]; [None] is the nil pool. *)
Definition CertPool : Type := option (list Certificate).

(** *** bmclib *)

Inductive bmclib_Option : Type :=
| WithHTTPClient (c : http_Client)
| WithRedfishHTTPClient (c : http_Client)
| WithRedfishPort (port : string)
| WithRedfishUseBasicAuth (b : bool)
| WithIpmitoolPort (port : string)
| WithIpmitoolPath (path : string)
| WithSecureTLS (rootCAs : CertPool).

Record Driver : Type := mkDriver {
  drv_Name : string;
  drv_Protocol : string;
}.

Record bmclib_Client : Type := mkClient {
  c_url : string;
  c_user : string;
  c_pass : string;
  c_opts : list bmclib_Option;
  c_Drivers : list Driver;
  c_preferred : option string;
}.

(** *** gofish *)

Record gofish_ClientConfig : Type := mkGofishConfig {
  Endpoint : string;
  Username : string;
  Password : string;
  Insecure : bool;
  TLSHandshakeTimeout : Z;
}.

Record gofish_APIClient : Type := mkAPIClient {
  api_config : gofish_ClientConfig;
  api_ExpandAll : bool;
  api_Links : bool;
}.

(** ** The environment *)

Record Env : Type := mkEnv {
  (** [os.ReadFile] *)
  os_ReadFile : string → result string;
  (** the certificates [AppendCertsFromPEM] finds in the data (none when
      nothing parses) *)
  x509_parsePEM : string → list Certificate;
  (** the drivers a fresh [bmclib.Client] registers *)
  bmclib_registry : list Driver;
  (** [client.Open(ctx)]: nil on success *)
  bmclib_Open : bmclib_Client → option error;
  (** [client.Inventory(ctx)] *)
  bmclib_Inventory : bmclib_Client → result goval;
  (** [gofish.Connect(config)]: the client pointer (possibly nil) and the
      error (possibly nil) *)
  gofish_Connect : gofish_ClientConfig → option gofish_APIClient * option error;
  (** [c.Service.Chassis()] *)
  gofish_Chassis : gofish_APIClient → result goval;
  (** [redfish.ListReferencedEthernetInterfaces(c, link)] *)
  redfish_ListReferencedEthernetInterfaces :
    gofish_APIClient → string → result goval;
  (** [c.Service.Systems()] *)
  gofish_Systems : gofish_APIClient → result goval;
  (** [path.Clean] *)
  path_Clean : string → string;
  (** [util.MakeOutputDirectory] *)
  util_MakeOutputDirectory : string → string * option error;
  (** [os.WriteFile(name, b, os.ModePerm)] *)
  os_WriteFile : string → jval → option error;
  (** [smd.AddRedfishEndpoint(b, headers)] *)
  smd_AddRedfishEndpoint : jval → gmap string string → option error;
}.

(** ** The world *)

(** A connection held open on a BMC. *)
Inductive Conn : Type :=
| BmcSession (url : string)
| GofishSession (endpoint : string).

(** The calls that leave the process. *)
Inductive Call : Type :=
| CFilterForCompatible (url : string)
| COpen (url : string) (preferred : option string)
| CClose (url : string)
| CInventory (url : string)
| CConnect (endpoint : string)
| CChassis (endpoint : string)
| CEthernetInterfaces (endpoint : string) (link : string)
| CSystems (endpoint : string)
| CPrintf (doc : jval)
| CLog (format : string) (args : list string)
| CWriteFile (name : string) (b : jval)
| CAddRedfishEndpoint (b : jval) (headers : gmap string string).

Record World : Type := mkWorld {
  conns : list Conn;
  calls : list Call;
}.

Definition world0 : World := mkWorld [] [].

(** ** Computations *)

(** A Go call either returns or panics; a panic in any goroutine ends the
    process. *)
Inductive Res (A : Type) : Type :=
| Returns (a : A)
| Panics (msg : string).
Arguments Returns {A} a.
Arguments Panics {A} msg.

(** Code that reads and writes a state [S]. *)
Definition ST (S A : Type) : Type := S → Res A * S.

#[export] Instance ST_ret {S} : MRet (ST S) := λ A a w, (Returns a, w).
#[export] Instance ST_bind {S} : MBind (ST S) := λ A B f m w,
  match m w with
  | (Returns a, w') => f a w'
  | (Panics msg, w') => (Panics msg, w')
  end.

(** The queries act on the world only. *)
Abbreviation M := (ST World).

Definition panic {S A : Type} (msg : string) : ST S A := λ w, (Panics msg, w).

(** Record an external call. *)
Definition call (c : Call) : M () :=
  λ w, (Returns (), mkWorld (conns w) (calls w ++ [c])).

Definition acquire (c : Conn) : M () :=
  λ w, (Returns (), mkWorld (c :: conns w) (calls w)).

#[export] Instance Conn_eq_dec : EqDecision Conn.
Proof. solve_decision. Defined.

(** Drop one occurrence of [c] from the open connections. *)
Fixpoint remove1 (c : Conn) (l : list Conn) : list Conn :=
  match l with
  | [] => []
  | x :: l' => if decide (x = c) then l' else x :: remove1 c l'
  end.

Definition release (c : Conn) : M () :=
  λ w, (Returns (), mkWorld (remove1 c (conns w)) (calls w)).

(** [defer f] placed before [body]: [f] runs when [body] is left, by return
    or by panic. *)
Definition defer {A : Type} (f : M ()) (body : M A) : M A :=
  λ w, match body w with
       | (r, w') => match f w' with
                    | (Returns _, w'') => (r, w'')
                    | (Panics msg, w'') => (Panics msg, w'')
                    end
       end.

Definition fmt_Printf (b : jval) : M () := call (CPrintf b).

(** [l.Log.Errorf(format, args...)]. *)
Definition Errorf (format : string) (args : list string) : M () :=
  call (CLog format args).

(** ** [NewClient] *)

(** [registrar.Registry.Using]: the registered drivers of a protocol. *)
Definition Registry_Using (reg : list Driver) (proto : string) : list Driver :=
  filter (λ d, drv_Protocol d = proto) reg.

(** [bmclib.NewClient(url, user, pass, opts...)]: no connection is made. *)
Definition bmclib_NewClient (env : Env)
    (url user pass : string) (opts : list bmclib_Option) : bmclib_Client :=
  mkClient url user pass opts (bmclib_registry env) None.

(** [client.PreferProvider(name)]. *)
Definition PreferProvider (c : bmclib_Client) (name : string) : bmclib_Client :=
  mkClient (c_url c) (c_user c) (c_pass c) (c_opts c) (c_Drivers c) (Some name).

Definition set_Drivers (c : bmclib_Client) (ds : list Driver) : bmclib_Client :=
  mkClient (c_url c) (c_user c) (c_pass c) (c_opts c) ds (c_preferred c).

(** The [http.Client] built at the top of [NewClient]. *)
Definition httpClient : http_Client :=
  {| Transport := {| TLSClientConfig := {| InsecureSkipVerify := true |} |} |}.

Definition NewClient (env : Env) (q : QueryParams) : result bmclib_Client :=
  let clientOpts :=
    [ WithHTTPClient httpClient;
      WithRedfishHTTPClient httpClient;
      WithRedfishPort (pretty (q_Port q));
      WithRedfishUseBasicAuth true;
      WithIpmitoolPort (pretty IPMI_PORT);
      WithIpmitoolPath (q_IpmitoolPath q) ] in
  (* only work if valid cert is provided *)
  let secured : result (list bmclib_Option) :=
    if q_WithSecureTLS q then
      let pool : result CertPool :=
        if bool_decide (q_CertPoolFile q ≠ "") then
          match os_ReadFile env (q_CertPoolFile q) with
          | Err err => Err ("could not read cert pool file: " +:+ err)
          | Ok data => Ok (Some (x509_parsePEM env data))
          end
        else Ok None in
      (* a nil pool uses the system certs *)
      match pool with
      | Err e => Err e
      | Ok pool => Ok (clientOpts ++ [WithSecureTLS pool])
      end
    else Ok clientOpts in
  match secured with
  | Err e => Err e
  | Ok clientOpts =>
    let url :=
      if bool_decide (q_User q ≠ "") && bool_decide (q_Pass q ≠ "")
      then "https://" +:+ q_User q +:+ ":" +:+ q_Pass q +:+ "@" +:+ q_Host q
      else q_Host q in
    let client := bmclib_NewClient env url (q_User q) (q_Pass q) clientOpts in
    let ds := foldl (λ ds driver, ds ++ Registry_Using (c_Drivers client) driver)
                    [] (q_Drivers q) in
    Ok (set_Drivers client ds)
  end.

(** ** The queries *)

Definition colon (host : string) (port : Z) : string :=
  host +:+ ":" +:+ pretty port.

(** [QueryInventory], over the bmclib client. *)
Definition QueryInventory (env : Env) (client : bmclib_Client) (q : QueryParams)
  : M (result jval) :=
  (* open BMC session and update driver registry *)
  call (CFilterForCompatible (c_url client));;
  let client := PreferProvider client (q_Preferred q) in
  call (COpen (c_url client) (c_preferred client));;
  match bmclib_Open env client with
  | Some err => mret (Err ("could not open client: " +:+ err))
  | None =>
    acquire (BmcSession (c_url client));;
    defer (call (CClose (c_url client));; release (BmcSession (c_url client)))
      (call (CInventory (c_url client));;
       match bmclib_Inventory env client with
       | Err err => mret (Err ("could not get inventory: " +:+ err))
       | Ok inventory =>
         (* retrieve inventory data *)
         match json_MarshalIndent_field "Inventory" inventory with
         | Err err => mret (Err ("could not marshal JSON: " +:+ err))
         | Ok b =>
           (if q_Verbose q then fmt_Printf b else mret ());;
           mret (Ok b)
         end
       end)
  end.

Definition makeGofishConfig (q : QueryParams) : gofish_ClientConfig :=
  let url := "https://" in
  let url :=
    if bool_decide (q_User q ≠ "") && bool_decide (q_Pass q ≠ "")
    then url +:+ q_User q +:+ ":" +:+ q_Pass q +:+ "@"
    else url in
  let url := url +:+ colon (q_Host q) (q_Port q) in
  {| Endpoint := url;
     Username := q_User q;
     Password := q_Pass q;
     Insecure := negb (q_WithSecureTLS q);
     TLSHandshakeTimeout := q_Timeout q |}.

(** [connectGofish]: the features are stored through the returned pointer
    before the error is looked at, so a nil client is dereferenced. *)
Definition connectGofish (env : Env) (q : QueryParams)
  : M (gofish_APIClient * option error) :=
  let config := makeGofishConfig q in
  call (CConnect (Endpoint config));;
  let '(c, err) := gofish_Connect env config in
  (if bool_decide (is_Some c ∧ err = None)
   then acquire (GofishSession (Endpoint config)) else mret ());;
  match c with
  | None => panic "invalid memory address or nil pointer dereference"
  | Some c => mret (mkAPIClient (api_config c) true true, err)
  end.

(** The shared shape of [QueryChassis], [QuerySystems] and
    [QueryEthernetInterfaces] is written out in each, as in the source. *)
Definition QueryChassis (env : Env) (q : QueryParams) : M (result jval) :=
  '(c, err) ← connectGofish env q;
  match err with
  | Some err =>
    mret (Err ("could not connect to bmc (" +:+ colon (q_Host q) (q_Port q)
               +:+ "): " +:+ err))
  | None =>
    call (CChassis (Endpoint (api_config c)));;
    match gofish_Chassis env c with
    | Err err =>
      mret (Err ("could not query chassis (" +:+ colon (q_Host q) (q_Port q)
                 +:+ "): " +:+ err))
    | Ok chassis =>
      match json_MarshalIndent_field "Chassis" chassis with
      | Err err => mret (Err ("could not marshal JSON: " +:+ err))
      | Ok b =>
        (if q_Verbose q then fmt_Printf b else mret ());;
        mret (Ok b)
      end
    end
  end.

Definition QueryEthernetInterfaces (env : Env) (client : bmclib_Client)
    (q : QueryParams) : M (result jval) :=
  '(c, err) ← connectGofish env q;
  match err with
  | Some err => mret (Err ("could not connect to bmc: " +:+ err))
  | None =>
    call (CEthernetInterfaces (Endpoint (api_config c)) "/redfish/v1/Systems/");;
    match redfish_ListReferencedEthernetInterfaces env c "/redfish/v1/Systems/" with
    | Err err => mret (Err ("could not get ethernet interfaces: " +:+ err))
    | Ok interfaces =>
      match json_MarshalIndent_field "Interfaces" interfaces with
      | Err err => mret (Err ("could not marshal JSON: " +:+ err))
      | Ok b =>
        (if q_Verbose q then fmt_Printf b else mret ());;
        mret (Ok b)
      end
    end
  end.

Definition QuerySystems (env : Env) (q : QueryParams) : M (result jval) :=
  '(c, err) ← connectGofish env q;
  match err with
  | Some err =>
    mret (Err ("could not connect to bmc (" +:+ colon (q_Host q) (q_Port q)
               +:+ "): " +:+ err))
  | None =>
    call (CSystems (Endpoint (api_config c)));;
    match gofish_Systems env c with
    | Err err =>
      mret (Err ("could not query storage systems ("
                 +:+ colon (q_Host q) (q_Port q) +:+ "): " +:+ err))
    | Ok systems =>
      match json_MarshalIndent_field "Systems" systems with
      | Err err => mret (Err ("could not marshal JSON: " +:+ err))
      | Ok b =>
        (if q_Verbose q then fmt_Printf b else mret ());;
        mret (Ok b)
      end
    end
  end.

(** ** [CollectInfo]: the state shared by its goroutines *)

(** [xnames.Node] of hms-xname and its [String] method, which prints
    [x<cabinet>c<chassis>s<slot>b<bmc>n<node>]. *)
Record xnames_Node : Type := mkNode {
  Cabinet : Z;
  Chassis : Z;
  ComputeModule : Z;
  NodeBMC : Z;
  Node : Z;
}.

Definition Node_String (x : xnames_Node) : string :=
  "x" +:+ pretty (Cabinet x) +:+ "c" +:+ pretty (Chassis x) +:+
  "s" +:+ pretty (ComputeModule x) +:+ "b" +:+ pretty (NodeBMC x) +:+
  "n" +:+ pretty (Node x).

(** [s[:n]] *)
Definition slice_to (s : string) (n : nat) : string := String.substring 0 n s.

(** The variables of [CollectInfo] its goroutines close over, the two
    channels, the wait group, and the world. *)
Record Shared : Type := mkShared {
  sh_q : QueryParams;                      (* *q *)
  sh_node : xnames_Node;                   (* node *)
  sh_outputPath : string;                  (* outputPath *)
  sh_found : list string;                  (* found *)
  sh_chan : list BMCProbeResult;           (* chanProbeState: its buffer *)
  sh_chan_closed : bool;
  sh_wg : Z;                               (* wg: its counter *)
  sh_done_closed : bool;                   (* done: never sent on *)
  sh_world : World;
}.

Abbreviation Proc := (ST Shared).

Definition set_q (s : Shared) (q : QueryParams) : Shared :=
  mkShared q (sh_node s) (sh_outputPath s) (sh_found s) (sh_chan s)
    (sh_chan_closed s) (sh_wg s) (sh_done_closed s) (sh_world s).
Definition set_node (s : Shared) (n : xnames_Node) : Shared :=
  mkShared (sh_q s) n (sh_outputPath s) (sh_found s) (sh_chan s)
    (sh_chan_closed s) (sh_wg s) (sh_done_closed s) (sh_world s).
Definition set_found (s : Shared) (f : list string) : Shared :=
  mkShared (sh_q s) (sh_node s) (sh_outputPath s) f (sh_chan s)
    (sh_chan_closed s) (sh_wg s) (sh_done_closed s) (sh_world s).
Definition set_chan (s : Shared) (c : list BMCProbeResult) : Shared :=
  mkShared (sh_q s) (sh_node s) (sh_outputPath s) (sh_found s) c
    (sh_chan_closed s) (sh_wg s) (sh_done_closed s) (sh_world s).
Definition set_chan_closed (s : Shared) : Shared :=
  mkShared (sh_q s) (sh_node s) (sh_outputPath s) (sh_found s) (sh_chan s)
    true (sh_wg s) (sh_done_closed s) (sh_world s).
Definition set_wg (s : Shared) (n : Z) : Shared :=
  mkShared (sh_q s) (sh_node s) (sh_outputPath s) (sh_found s) (sh_chan s)
    (sh_chan_closed s) n (sh_done_closed s) (sh_world s).
Definition set_done_closed (s : Shared) : Shared :=
  mkShared (sh_q s) (sh_node s) (sh_outputPath s) (sh_found s) (sh_chan s)
    (sh_chan_closed s) (sh_wg s) true (sh_world s).
Definition set_world (s : Shared) (w : World) : Shared :=
  mkShared (sh_q s) (sh_node s) (sh_outputPath s) (sh_found s) (sh_chan s)
    (sh_chan_closed s) (sh_wg s) (sh_done_closed s) w.

(** Run world code inside the process. *)
Definition lift {A : Type} (m : M A) : Proc A :=
  λ s, let '(r, w) := m (sh_world s) in (r, set_world s w).

Definition get {S : Type} : ST S S := λ s, (Returns s, s).
Definition modify {S : Type} (f : S → S) : ST S () := λ s, (Returns (), f s).

(** [wg.Add(delta)]; [wg.Done()] is [wg.Add(-1)].  The counter may not go
    below zero. *)
Definition wg_Add (delta : Z) : Proc () :=
  λ s, let n := sh_wg s + delta in
       if bool_decide (n < 0)
       then (Panics "sync: negative WaitGroup counter", set_wg s n)
       else (Returns (), set_wg s n).
Definition wg_Done : Proc () := wg_Add (-1).

(** ** The worker goroutine *)

(** Where a worker stands in the loop of lines 147-270, with its local
    variables.  One step runs the statements up to the next point where the
    goroutine reads or writes what it shares with the others. *)
Inductive Worker : Type :=
| WRecv                                   (* ps, ok := <-chanProbeState *)
| WSetHost (ps : BMCProbeResult)          (* q.Host = ...; q.Port = ... *)
| WNewClient (ps : BMCProbeResult)        (* NewClient(l, q) *)
| WData (ps : BMCProbeResult) (client : bmclib_Client)
| WInventory (ps : BMCProbeResult) (client : bmclib_Client)
    (data : gmap string any)
| WChassis (ps : BMCProbeResult) (client : bmclib_Client)
    (data : gmap string any) (rm : gmap string jval)
| WInterfaces (ps : BMCProbeResult) (client : bmclib_Client)
    (data : gmap string any) (rm : gmap string jval)
| WSystems (ps : BMCProbeResult) (client : bmclib_Client)
    (data : gmap string any) (rm : gmap string jval)
| WIncr (ps : BMCProbeResult) (data : gmap string any)   (* node.NodeBMC += 1 *)
| WWrite (ps : BMCProbeResult) (data : gmap string any)  (* os.WriteFile *)
| WForward (ps : BMCProbeResult) (b : jval)    (* smd.AddRedfishEndpoint *)
| WFound (ps : BMCProbeResult)                 (* found = append(found, ...) *)
| WExited.

Inductive Phase : Type :=
| PRecv | PSetHost | PNewClient | PData
| PInventory | PChassis | PInterfaces | PSystems
| PIncr | PWrite | PForward | PFound | PExited.

#[export] Instance Phase_eq_dec : EqDecision Phase.
Proof. solve_decision. Defined.

Definition phase (w : Worker) : Phase :=
  match w with
  | WRecv => PRecv | WSetHost _ => PSetHost | WNewClient _ => PNewClient
  | WData _ _ => PData | WInventory _ _ _ => PInventory
  | WChassis _ _ _ _ => PChassis | WInterfaces _ _ _ _ => PInterfaces
  | WSystems _ _ _ _ => PSystems | WIncr _ _ => PIncr | WWrite _ _ => PWrite
  | WForward _ _ => PForward | WFound _ => PFound | WExited => PExited
  end.

(** The bytes a query hands back: nil on error. *)
Definition bytes_of (r : result jval) : option jval :=
  match r with Ok b => Some b | Err _ => None end.

(** [node.String()[:len(node.String())-2]] *)
Definition node_ID (node : xnames_Node) : string :=
  slice_to (Node_String node) (String.length (Node_String node) - 2)%nat.

(** Lines 162-170. *)
Definition init_data (s : Shared) (ps : BMCProbeResult) : gmap string any :=
  <["RediscoverOnUpdate" := ABool false]>
  (<["Password" := AString (q_Pass (sh_q s))]>
  (<["User" := AString (q_User (sh_q s))]>
  (<["FQDN" := AString (Host ps)]>
  (<["Name" := AString ""]>
  (<["Type" := AString ""]>
  (<["ID" := AString (node_ID (sh_node s))]> ∅)))))).

(** [rm[key]]: the zero value, a nil message, when the key is missing. *)
Definition rm_get (rm : gmap string jval) (key : string) : any :=
  ARaw (rm !! key).

Definition headers : gmap string string :=
  {[ "Content-Type" := "application/json" ]}.

(** One step of a worker.  A receive on the empty open channel blocks: the
    worker stays where it is.  [None]: the goroutine has returned. *)
Definition worker_step (env : Env) (w : Worker) : option (Proc Worker) :=
  match w with
  | WRecv => Some (
      s ← get;
      match sh_chan s with
      | ps :: rest => modify (λ s, set_chan s rest);; mret (WSetHost ps)
      | [] => if sh_chan_closed s then wg_Done;; mret WExited
              else mret WRecv
      end)
  | WSetHost ps => Some (
      modify (λ s, set_q s (set_host_port (sh_q s) (Host ps) (Port ps)));;
      mret (WNewClient ps))
  | WNewClient ps => Some (
      s ← get;
      match NewClient env (sh_q s) with
      | Err err =>
        lift (Errorf "could not make client: %v" [err]);;
        mret WRecv                                          (* continue *)
      | Ok client => mret (WData ps client)
      end)
  | WData ps client => Some (
      s ← get;
      mret (WInventory ps client (init_data s ps)))
  | WInventory ps client data => Some (
      s ← get;
      let q := sh_q s in
      inventory ← lift (QueryInventory env client q);
      match inventory with
      | Err err =>
        lift (Errorf "could not query inventory (%v:%v): %v"
                [q_Host q; pretty (q_Port q); err])
      | Ok _ => mret ()
      end;;
      let rm := json_Unmarshal (bytes_of inventory) ∅ in
      mret (WChassis ps client (<["Inventory" := rm_get rm "Inventory"]> data) rm))
  | WChassis ps client data rm => Some (
      s ← get;
      chassis ← lift (QueryChassis env (sh_q s));
      match chassis with
      | Err err =>
        lift (Errorf "could not query chassis: %v" [err]);;
        mret WRecv                                          (* continue *)
      | Ok _ =>
        let rm := json_Unmarshal (bytes_of chassis) rm in
        mret (WInterfaces ps client (<["Chassis" := rm_get rm "Chassis"]> data) rm)
      end)
  | WInterfaces ps client data rm => Some (
      s ← get;
      interfaces ← lift (QueryEthernetInterfaces env client (sh_q s));
      match interfaces with
      | Err err =>
        lift (Errorf "could not query ethernet interfaces: %v" [err]);;
        mret WRecv                                          (* continue *)
      | Ok _ =>
        let rm := json_Unmarshal (bytes_of interfaces) rm in
        mret (WSystems ps client (<["Interface" := rm_get rm "Interface"]> data) rm)
      end)
  | WSystems ps client data rm => Some (
      s ← get;
      systems ← lift (QuerySystems env (sh_q s));
      match systems with
      | Err err => lift (Errorf "could not query systems: %v" [err])
      | Ok _ => mret ()
      end;;
      let rm := json_Unmarshal (bytes_of systems) rm in
      mret (WIncr ps (<["Systems" := rm_get rm "Systems"]> data)))
  | WIncr ps data => Some (
      modify (λ s, let n := sh_node s in
                   set_node s (mkNode (Cabinet n) (Chassis n) (ComputeModule n)
                                      (NodeBMC n + 1) (Node n)));;
      mret (WWrite ps data))
  | WWrite ps data => Some (
      s ← get;
      let b := json_MarshalIndent_data data in
      (* write JSON data to file *)
      let name := path_Clean env
                    (sh_outputPath s +:+ "/" +:+ q_Host (sh_q s) +:+ ".json") in
      lift (call (CWriteFile name b));;
      match os_WriteFile env name b with
      | Some err => lift (Errorf "could not write data to file: %v" [err])
      | None => mret ()
      end;;
      mret (WForward ps b))
  | WForward ps b => Some (
      (* add all endpoints to smd *)
      lift (call (CAddRedfishEndpoint b headers));;
      match smd_AddRedfishEndpoint env b headers with
      | Some err => lift (Errorf "could not add redfish endpoint: %v" [err])
      | None => mret ()
      end;;
      mret (WFound ps))
  | WFound ps => Some (
      (* got host information, so add to list of already probed hosts *)
      modify (λ s, set_found s (sh_found s ++ [Host ps]));;
      mret WRecv)
  | WExited => None
  end.

(** A worker running alone from [w]: the configurations it goes through
    until it is back at the receive (or has returned, or panicked). *)
Fixpoint worker_run (env : Env) (fuel : nat) (w : Worker) (s : Shared)
  : list (Worker * Shared) * Res Worker * Shared :=
  match fuel with
  | O => ([], Returns w, s)
  | S fuel =>
    match worker_step env w with
    | None => ([], Returns w, s)
    | Some p =>
      match p s with
      | (Panics msg, s') => ([(w, s)], Panics msg, s')
      | (Returns w', s') =>
        match w' with
        | WRecv | WExited => ([(w, s)], Returns w', s')
        | _ => let '(tr, r, s'') := worker_run env fuel w' s' in
               ((w, s) :: tr, r, s'')
        end
      end
    end
  end.

(** The loop body for one received [ps]: eleven steps at most. *)
Definition collect_host (env : Env) (ps : BMCProbeResult) (s : Shared)
  : list (Worker * Shared) * Res Worker * Shared :=
  worker_run env 11 (WSetHost ps) s.

(** ** The main goroutine and the [done] goroutine *)

(** [slices.Index]: the first index of [v], or -1. *)
Fixpoint slices_Index (l : list string) (v : string) : Z :=
  match l with
  | [] => -1
  | x :: l' =>
    if decide (x = v) then 0
    else let i := slices_Index l' v in
         if bool_decide (i < 0) then -1 else i + 1
  end.

Inductive Main : Type :=
| MStart (probeStates : option (list BMCProbeResult))   (* lines 115-146 *)
| MRange (rest : list BMCProbeResult)        (* for _, ps := range ... *)
| MSend (ps : BMCProbeResult) (rest : list BMCProbeResult)
                                             (* chanProbeState <- ps *)
| MGoDone                                    (* go func() { select ... }() *)
| MClose                                     (* close(chanProbeState) *)
| MWait                                      (* wg.Wait() *)
| MCloseDone                                 (* close(done) *)
| MReturned (err : option error).

(** The goroutine of lines 285-293. *)
Inductive DoneG : Type :=
| DNone                                      (* not started yet *)
| DSelect
| DExited.

(** The node the identifiers are cut from. *)
Definition node0 : xnames_Node :=
  {| Cabinet := 1000; Chassis := 1; ComputeModule := 7; NodeBMC := -1;
     Node := 0 |}.

(** The shared state on entry of [CollectInfo]. *)
Definition shared0 (q : QueryParams) : Shared :=
  mkShared q node0 "" [] [] false 0 false world0.

Definition set_outputPath (s : Shared) (p : string) : Shared :=
  mkShared (sh_q s) (sh_node s) p (sh_found s) (sh_chan s)
    (sh_chan_closed s) (sh_wg s) (sh_done_closed s) (sh_world s).

(** One step of the main goroutine, with the number of workers it starts
    and whether it starts the [done] goroutine.  A send on the full channel
    and a [Wait] on a positive counter block: the goroutine stays where it
    is. *)
Definition main_step (env : Env) (m : Main) : option (Proc (Main * nat * bool)) :=
  match m with
  | MStart probeStates => Some (
      (* check for available probe states *)
      match probeStates with
      | None | Some [] => mret (MReturned (Some "no probe states found"), O, false)
      | Some l =>
        s ← get;
        let q := sh_q s in
        (* make the output directory to store files *)
        let '(outputPath, err) :=
          util_MakeOutputDirectory env (path_Clean env (q_OutputPath q)) in
        modify (λ s, set_outputPath s outputPath);;
        match err with
        | Some err => lift (Errorf "could not make output directory: %v" [err])
        | None => mret ()
        end;;
        (if bool_decide (q_Threads q + 1 < 0)
         then panic "makechan: size out of range" else mret ());;
        (* collect bmc information asynchronously *)
        wg_Add (q_Threads q);;
        mret (MRange l, Z.to_nat (q_Threads q), false)
      end)
  | MRange [] => Some (mret (MGoDone, O, false))
  | MRange (ps :: rest) => Some (
      s ← get;
      (* skip if found info from host *)
      let foundHost := slices_Index (sh_found s) (Host ps) in
      if negb (State ps) || bool_decide (foundHost >= 0)
      then mret (MRange rest, O, false)                     (* continue *)
      else mret (MSend ps rest, O, false))
  | MSend ps rest => Some (
      s ← get;
      if bool_decide (Z.of_nat (length (sh_chan s)) < q_Threads (sh_q s) + 1)
      then modify (λ s, set_chan s (sh_chan s ++ [ps]));;
           mret (MRange rest, O, false)
      else mret (MSend ps rest, O, false))
  | MGoDone => Some (mret (MClose, O, true))
  | MClose => Some (modify set_chan_closed;; mret (MWait, O, false))
  | MWait => Some (
      s ← get;
      if bool_decide (sh_wg s = 0) then mret (MCloseDone, O, false)
      else mret (MWait, O, false))
  | MCloseDone => Some (modify set_done_closed;; mret (MReturned None, O, false))
  | MReturned _ => None
  end.

(** The [select]: the receive on [done] is ready only once [done] is
    closed, nothing being ever sent on it; otherwise the default branch
    sleeps and the goroutine ends. *)
Definition done_step (d : DoneG) : option (Proc DoneG) :=
  match d with
  | DNone => None
  | DSelect => Some (
      s ← get;
      if sh_done_closed s then wg_Done;; mret DExited
      else mret DExited)
  | DExited => None
  end.

(** ** The process *)

Record Process : Type := mkProcess {
  shared : Shared;
  main : Main;
  workers : list Worker;
  doneg : DoneG;
  panicked : option string;
}.

Inductive Tid : Type :=
| TMain
| TWorker (i : nat)
| TDone.

(** The goroutine [t] takes one step; the goroutines interleave at the
    grain of these steps.  Nothing moves after a panic. *)
Definition step (env : Env) (t : Tid) (st : Process) : option Process :=
  match panicked st with
  | Some _ => None
  | None =>
    match t with
    | TMain =>
      p ← main_step env (main st);
      Some (match (p : Proc _) (shared st) with
            | (Returns (m', n, d), s') =>
              mkProcess s' m' (workers st ++ replicate n WRecv)
                (if d : bool then DSelect else doneg st) None
            | (Panics msg, s') =>
              mkProcess s' (main st) (workers st) (doneg st) (Some msg)
            end)
    | TWorker i =>
      w ← workers st !! i;
      p ← worker_step env w;
      Some (match (p : Proc _) (shared st) with
            | (Returns w', s') =>
              mkProcess s' (main st) (<[i := w']> (workers st)) (doneg st) None
            | (Panics msg, s') =>
              mkProcess s' (main st) (workers st) (doneg st) (Some msg)
            end)
    | TDone =>
      p ← done_step (doneg st);
      Some (match (p : Proc _) (shared st) with
            | (Returns d', s') =>
              mkProcess s' (main st) (workers st) d' None
            | (Panics msg, s') =>
              mkProcess s' (main st) (workers st) (doneg st) (Some msg)
            end)
    end
  end.

(** [CollectInfo(probeStates, l, q)] is entered. *)
Definition process0 (probeStates : option (list BMCProbeResult))
    (q : QueryParams) : Process :=
  mkProcess (shared0 q) (MStart probeStates) [] DNone None.

(** Follow a schedule. *)
Fixpoint run (env : Env) (sched : list Tid) (st : Process) : option Process :=
  match sched with
  | [] => Some st
  | t :: sched => st' ← step env t st; run env sched st'
  end.

(** The states a run of [CollectInfo] can be in. *)
Definition reachable (env : Env) (probeStates : option (list BMCProbeResult))
    (q : QueryParams) (st : Process) : Prop :=
  ∃ sched, run env sched (process0 probeStates q) = Some st.

(** A step of a worker as a total function: a returned goroutine stays
    returned. *)
Definition wstep (env : Env) (w : Worker) (s : Shared) : Res Worker * Shared :=
  match worker_step env w with
  | Some p => p s
  | None => (Returns w, s)
  end.

(** ** What the properties speak of *)

(** The six options every client gets. *)
Definition base_opts (q : QueryParams) : list bmclib_Option :=
  [ WithHTTPClient httpClient;
    WithRedfishHTTPClient httpClient;
    WithRedfishPort (pretty (q_Port q));
    WithRedfishUseBasicAuth true;
    WithIpmitoolPort (pretty IPMI_PORT);
    WithIpmitoolPath (q_IpmitoolPath q) ].

(** The categories, in the order the loop takes them. *)
Inductive Category : Type :=
| Inventory
| ChassisCat
| EthernetInterfaces
| Systems.

#[export] Instance Category_eq_dec : EqDecision Category.
Proof. solve_decision. Defined.

Definition cat_phase (c : Category) : Phase :=
  match c with
  | Inventory => PInventory
  | ChassisCat => PChassis
  | EthernetInterfaces => PInterfaces
  | Systems => PSystems
  end.

Definition cat_index (c : Category) : nat :=
  match c with
  | Inventory => 0
  | ChassisCat => 1
  | EthernetInterfaces => 2
  | Systems => 3
  end.

(** The key of the category in the record that is written. *)
Definition record_key (c : Category) : string :=
  match c with
  | Inventory => "Inventory"
  | ChassisCat => "Chassis"
  | EthernetInterfaces => "Interface"
  | Systems => "Systems"
  end.

(** The query function of the category. *)
Definition query (env : Env) (c : Category) (client : bmclib_Client)
    (q : QueryParams) : M (result jval) :=
  match c with
  | Inventory => QueryInventory env client q
  | ChassisCat => QueryChassis env q
  | EthernetInterfaces => QueryEthernetInterfaces env client q
  | Systems => QuerySystems env q
  end.

Definition client_of (w : Worker) : option bmclib_Client :=
  match w with
  | WData _ client | WInventory _ client _ | WChassis _ client _ _
  | WInterfaces _ client _ _ | WSystems _ client _ _ => Some client
  | _ => None
  end.

(** What the worker at [w] gets from the query of [c], when that is the
    query it is about to make. *)
Definition answer (env : Env) (c : Category) (w : Worker) (s : Shared)
  : option (Res (result jval)) :=
  if decide (phase w = cat_phase c) then
    client ← client_of w;
    Some (query env c client (sh_q s) (sh_world s)).1
  else None.

Definition Trace : Type := list (Worker * Shared).

(** The phases a run went through. *)
Definition phases (tr : Trace) : list Phase := (λ x, phase x.1) <$> tr.

(** In the run [tr] of a worker, the query of [c] was made. *)
Definition ran (tr : Trace) (c : Category) : Prop := cat_phase c ∈ phases tr.

(** ... and returned an error. *)
Definition failed (env : Env) (tr : Trace) (c : Category) : Prop :=
  ∃ w s err, (w, s) ∈ tr ∧ answer env c w s = Some (Returns (Err err)).

(** ... and returned the bytes [b]. *)
Definition succeeded (env : Env) (tr : Trace) (c : Category) (b : jval) : Prop :=
  ∃ w s, (w, s) ∈ tr ∧ answer env c w s = Some (Returns (Ok b)).

(** The payload of a query: the document under the one key of the object
    the query function wraps it in. *)
Definition payload (b : jval) : option jval :=
  match b with
  | JObj m => match map_to_list m with
              | [(_, p)] => Some p
              | _ => None
              end
  | _ => None
  end.

(** The calls made between two states of the world. *)
Definition new_calls (s s' : Shared) : list Call :=
  drop (length (calls (sh_world s))) (calls (sh_world s')).

Definition persisted (s s' : Shared) (b : jval) : Prop :=
  ∃ name, CWriteFile name b ∈ new_calls s s'.

Definition forwarded (s s' : Shared) (b : jval) : Prop :=
  CAddRedfishEndpoint b headers ∈ new_calls s s'.

(** What a query gives in a world without history. *)
Definition outcome {A : Type} (m : M A) : Res A := (m world0).1.

(** *** Sample environments and inputs *)

(** A BMC that answers every query, but for the given answers of
    [client.Open], of the four queries and of [os.ReadFile]. *)
Definition sample_env (open : option error) (inv chassis eth sys : result goval)
    (file : result string) : Env :=
  {| os_ReadFile := λ _, file;
     x509_parsePEM := λ data,
       if decide (data = "-----BEGIN CERTIFICATE-----") then ["ca"] else [];
     bmclib_registry := [mkDriver "gofish" "redfish"; mkDriver "ipmitool" "ipmi"];
     bmclib_Open := λ _, open;
     bmclib_Inventory := λ _, inv;
     gofish_Connect := λ cfg, (Some (mkAPIClient cfg false false), None);
     gofish_Chassis := λ _, chassis;
     redfish_ListReferencedEthernetInterfaces := λ _ _, eth;
     gofish_Systems := λ _, sys;
     path_Clean := λ p, p;
     util_MakeOutputDirectory := λ p, (p, None);
     os_WriteFile := λ _ _, None;
     smd_AddRedfishEndpoint := λ _ _, None |}.

Definition inv_doc : result goval := Ok (GoJSON (JString "device")).
Definition chassis_doc : result goval := Ok (GoJSON (JString "chassis")).
Definition eth_doc : result goval := Ok (GoJSON (JString "eth0")).
Definition sys_doc : result goval := Ok (GoJSON (JString "system")).

Definition env_ok : Env :=
  sample_env None inv_doc chassis_doc eth_doc sys_doc (Err "no such file").

Definition env_open_fails : Env :=
  sample_env (Some "timeout") inv_doc chassis_doc eth_doc sys_doc
    (Err "no such file").

Definition env_chassis_fails : Env :=
  sample_env None inv_doc (Err "404") eth_doc sys_doc (Err "no such file").

Definition env_systems_fails : Env :=
  sample_env None inv_doc chassis_doc eth_doc (Err "404") (Err "no such file").

Definition env_bad_bundle : Env :=
  sample_env None inv_doc chassis_doc eth_doc sys_doc (Ok "not a certificate").

Definition env_bundle : Env :=
  sample_env None inv_doc chassis_doc eth_doc sys_doc
    (Ok "-----BEGIN CERTIFICATE-----").

Definition sample_q (threads : Z) (secure : bool) (bundle : string) : QueryParams :=
  {| q_Host := ""; q_Port := 0; q_User := "root"; q_Pass := "pw";
     q_Drivers := ["redfish"]; q_Threads := threads; q_Preferred := "redfish";
     q_Timeout := 1; q_WithSecureTLS := secure; q_CertPoolFile := bundle;
     q_Verbose := false; q_IpmitoolPath := "ipmitool"; q_OutputPath := "out" |}.

Definition q1 : QueryParams := sample_q 1 false "".
Definition q2 : QueryParams := sample_q 2 false "".

Definition H1_443 : BMCProbeResult := mkProbe "H1" 443 "tcp" true.
Definition H1_22 : BMCProbeResult := mkProbe "H1" 22 "tcp" true.
Definition H2_443 : BMCProbeResult := mkProbe "H2" 443 "tcp" true.
Definition H2_down : BMCProbeResult := mkProbe "H2" 443 "tcp" false.

(** The bundle could not be read, or nothing in it parsed as a
    certificate. *)
Definition bundle_failure (env : Env) (q : QueryParams) : Prop :=
  (∃ err, os_ReadFile env (q_CertPoolFile q) = Err err) ∨
  (∃ data, os_ReadFile env (q_CertPoolFile q) = Ok data ∧
           x509_parsePEM env data = []).

Definition q_secure_system : QueryParams := sample_q 1 true "".
Definition q_secure_bundle : QueryParams := sample_q 1 true "ca.pem".

(** The world after one more call. *)
Definition logged (w : World) (c : Call) : World :=
  mkWorld (conns w) (calls w ++ [c]).

(** The calls made to bmclib, and those made to gofish. *)
Definition bmclib_call (c : Call) : bool :=
  match c with
  | CFilterForCompatible _ | COpen _ _ | CClose _ | CInventory _ | CPrintf _ => true
  | _ => false
  end.

Definition gofish_call (c : Call) : bool :=
  match c with
  | CConnect _ | CChassis _ | CEthernetInterfaces _ _ | CSystems _ | CPrintf _ => true
  | _ => false
  end.

(** [node] after [node.NodeBMC += 1]. *)
Definition bump (n : xnames_Node) : xnames_Node :=
  mkNode (Cabinet n) (Chassis n) (ComputeModule n) (NodeBMC n + 1) (Node n).

(** The file the record of the host in [q.Host] is written to. *)
Definition file_name (env : Env) (s : Shared) : string :=
  path_Clean env (sh_outputPath s +:+ "/" +:+ q_Host (sh_q s) +:+ ".json").

(** What every query function satisfies: it only adds calls, all to its
    library, and the bytes it returns are an object with the one key. *)
Definition query_ok (key : string) (lib : Call → bool) (Q : M (result jval))
  : Prop :=
  ∀ w, ∃ cs,
    calls (Q w).2 = calls w ++ cs ∧
    Forall lib cs ∧
    ∀ b, (Q w).1 = Returns (Ok b) → ∃ p, b = JObj {[ key := p ]}.

(** The shape the three queries over gofish share, for the proofs: connect,
    fetch, wrap under [key], print when verbose. *)
Definition gofish_query (env : Env) (q : QueryParams)
    (connect_msg : error → error) (fetch_call : string → Call)
    (fetch : gofish_APIClient → result goval) (fetch_msg : error → error)
    (key : string) : M (result jval) :=
  '(c, err) ← connectGofish env q;
  match err with
  | Some err => mret (Err (connect_msg err))
  | None =>
    call (fetch_call (Endpoint (api_config c)));;
    match fetch c with
    | Err err => mret (Err (fetch_msg err))
    | Ok v =>
      match json_MarshalIndent_field key v with
      | Err err => mret (Err ("could not marshal JSON: " +:+ err))
      | Ok b =>
        (if q_Verbose q then fmt_Printf b else mret ());;
        mret (Ok b)
      end
    end
  end.

(** *** One turn of the loop, case by case *)

(** [*q] once the worker has stored the host and port it received. *)
Definition host_q (s : Shared) (ps : BMCProbeResult) : QueryParams :=
  set_host_port (sh_q s) (Host ps) (Port ps).

Definition entered (s : Shared) (ps : BMCProbeResult) : Shared :=
  set_q s (host_q s ps).

(** The world after each query and its log line, and the local [rm] and
    [data] as the loop fills them. *)
Definition after_inventory (q : QueryParams) (ri : result jval) (wi : World)
  : World :=
  match ri with
  | Err err =>
    logged wi (CLog "could not query inventory (%v:%v): %v"
                 [q_Host q; pretty (q_Port q); err])
  | Ok _ => wi
  end.

Definition after_systems (rs : result jval) (ws : World) : World :=
  match rs with
  | Err err => logged ws (CLog "could not query systems: %v" [err])
  | Ok _ => ws
  end.

Definition after_write (env : Env) (name : string) (b : jval) (w : World)
  : World :=
  match os_WriteFile env name b with
  | Some err =>
    logged (logged w (CWriteFile name b))
      (CLog "could not write data to file: %v" [err])
  | None => logged w (CWriteFile name b)
  end.

Definition after_forward (env : Env) (b : jval) (w : World) : World :=
  match smd_AddRedfishEndpoint env b headers with
  | Some err =>
    logged (logged w (CAddRedfishEndpoint b headers))
      (CLog "could not add redfish endpoint: %v" [err])
  | None => logged w (CAddRedfishEndpoint b headers)
  end.

Definition rm1 (ri : result jval) : gmap string jval :=
  json_Unmarshal (bytes_of ri) ∅.
Definition rm2 (ri : result jval) (bc : jval) : gmap string jval :=
  json_Unmarshal (Some bc) (rm1 ri).
Definition rm3 (ri : result jval) (bc be : jval) : gmap string jval :=
  json_Unmarshal (Some be) (rm2 ri bc).
Definition rm4 (ri : result jval) (bc be : jval) (rs : result jval)
  : gmap string jval :=
  json_Unmarshal (bytes_of rs) (rm3 ri bc be).

Definition data1 (d : gmap string any) (ri : result jval) : gmap string any :=
  <["Inventory" := rm_get (rm1 ri) "Inventory"]> d.
Definition data2 (d : gmap string any) (ri : result jval) (bc : jval)
  : gmap string any :=
  <["Chassis" := rm_get (rm2 ri bc) "Chassis"]> (data1 d ri).
Definition data3 (d : gmap string any) (ri : result jval) (bc be : jval)
  : gmap string any :=
  <["Interface" := rm_get (rm3 ri bc be) "Interface"]> (data2 d ri bc).
Definition data4 (d : gmap string any) (ri : result jval) (bc be : jval)
    (rs : result jval) : gmap string any :=
  <["Systems" := rm_get (rm4 ri bc be rs) "Systems"]> (data3 d ri bc be).

(** The configurations up to the first query. *)
Definition to_inventory (s : Shared) (ps : BMCProbeResult)
    (client : bmclib_Client) : Trace :=
  [ (WSetHost ps, s);
    (WNewClient ps, entered s ps);
    (WData ps client, entered s ps);
    (WInventory ps client (init_data (entered s ps) ps), entered s ps) ].

(** The ways one turn of the loop can go, with the configurations gone
    through, the way it ends and the shared state it leaves. *)
Inductive host_run (env : Env) (ps : BMCProbeResult) (s : Shared)
  : Trace → Res Worker → Shared → Prop :=
| run_no_client err :
    NewClient env (host_q s ps) = Err err →
    host_run env ps s
      [ (WSetHost ps, s); (WNewClient ps, entered s ps) ]
      (Returns WRecv)
      (set_world (entered s ps)
         (logged (sh_world s) (CLog "could not make client: %v" [err])))
| run_chassis_panic client ri wi msg wc :
    NewClient env (host_q s ps) = Ok client →
    QueryInventory env client (host_q s ps) (sh_world s) = (Returns ri, wi) →
    QueryChassis env (host_q s ps) (after_inventory (host_q s ps) ri wi)
      = (Panics msg, wc) →
    let d := init_data (entered s ps) ps in
    host_run env ps s
      (to_inventory s ps client ++
       [ (WChassis ps client (data1 d ri) (rm1 ri),
          set_world (entered s ps) (after_inventory (host_q s ps) ri wi)) ])
      (Panics msg)
      (set_world (entered s ps) wc)
| run_chassis_failed client ri wi err wc :
    NewClient env (host_q s ps) = Ok client →
    QueryInventory env client (host_q s ps) (sh_world s) = (Returns ri, wi) →
    QueryChassis env (host_q s ps) (after_inventory (host_q s ps) ri wi)
      = (Returns (Err err), wc) →
    let d := init_data (entered s ps) ps in
    host_run env ps s
      (to_inventory s ps client ++
       [ (WChassis ps client (data1 d ri) (rm1 ri),
          set_world (entered s ps) (after_inventory (host_q s ps) ri wi)) ])
      (Returns WRecv)
      (set_world (entered s ps)
         (logged wc (CLog "could not query chassis: %v" [err])))
| run_interfaces_panic client ri wi bc wc msg we :
    NewClient env (host_q s ps) = Ok client →
    QueryInventory env client (host_q s ps) (sh_world s) = (Returns ri, wi) →
    QueryChassis env (host_q s ps) (after_inventory (host_q s ps) ri wi)
      = (Returns (Ok bc), wc) →
    QueryEthernetInterfaces env client (host_q s ps) wc = (Panics msg, we) →
    let d := init_data (entered s ps) ps in
    host_run env ps s
      (to_inventory s ps client ++
       [ (WChassis ps client (data1 d ri) (rm1 ri),
          set_world (entered s ps) (after_inventory (host_q s ps) ri wi));
         (WInterfaces ps client (data2 d ri bc) (rm2 ri bc),
          set_world (entered s ps) wc) ])
      (Panics msg)
      (set_world (entered s ps) we)
| run_interfaces_failed client ri wi bc wc err we :
    NewClient env (host_q s ps) = Ok client →
    QueryInventory env client (host_q s ps) (sh_world s) = (Returns ri, wi) →
    QueryChassis env (host_q s ps) (after_inventory (host_q s ps) ri wi)
      = (Returns (Ok bc), wc) →
    QueryEthernetInterfaces env client (host_q s ps) wc
      = (Returns (Err err), we) →
    let d := init_data (entered s ps) ps in
    host_run env ps s
      (to_inventory s ps client ++
       [ (WChassis ps client (data1 d ri) (rm1 ri),
          set_world (entered s ps) (after_inventory (host_q s ps) ri wi));
         (WInterfaces ps client (data2 d ri bc) (rm2 ri bc),
          set_world (entered s ps) wc) ])
      (Returns WRecv)
      (set_world (entered s ps)
         (logged we (CLog "could not query ethernet interfaces: %v" [err])))
| run_systems_panic client ri wi bc wc be we msg ws :
    NewClient env (host_q s ps) = Ok client →
    QueryInventory env client (host_q s ps) (sh_world s) = (Returns ri, wi) →
    QueryChassis env (host_q s ps) (after_inventory (host_q s ps) ri wi)
      = (Returns (Ok bc), wc) →
    QueryEthernetInterfaces env client (host_q s ps) wc
      = (Returns (Ok be), we) →
    QuerySystems env (host_q s ps) we = (Panics msg, ws) →
    let d := init_data (entered s ps) ps in
    host_run env ps s
      (to_inventory s ps client ++
       [ (WChassis ps client (data1 d ri) (rm1 ri),
          set_world (entered s ps) (after_inventory (host_q s ps) ri wi));
         (WInterfaces ps client (data2 d ri bc) (rm2 ri bc),
          set_world (entered s ps) wc);
         (WSystems ps client (data3 d ri bc be) (rm3 ri bc be),
          set_world (entered s ps) we) ])
      (Panics msg)
      (set_world (entered s ps) ws)
| run_recorded client ri wi bc wc be we rs ws :
    NewClient env (host_q s ps) = Ok client →
    QueryInventory env client (host_q s ps) (sh_world s) = (Returns ri, wi) →
    QueryChassis env (host_q s ps) (after_inventory (host_q s ps) ri wi)
      = (Returns (Ok bc), wc) →
    QueryEthernetInterfaces env client (host_q s ps) wc
      = (Returns (Ok be), we) →
    QuerySystems env (host_q s ps) we = (Returns rs, ws) →
    let d := init_data (entered s ps) ps in
    let data := data4 d ri bc be rs in
    let b := json_MarshalIndent_data data in
    let s5 := set_world (entered s ps) (after_systems rs ws) in
    let s6 := set_node s5 (bump (sh_node s)) in
    let w7 := after_write env (file_name env s6) b (after_systems rs ws) in
    let w8 := after_forward env b w7 in
    host_run env ps s
      (to_inventory s ps client ++
       [ (WChassis ps client (data1 d ri) (rm1 ri),
          set_world (entered s ps) (after_inventory (host_q s ps) ri wi));
         (WInterfaces ps client (data2 d ri bc) (rm2 ri bc),
          set_world (entered s ps) wc);
         (WSystems ps client (data3 d ri bc be) (rm3 ri bc be),
          set_world (entered s ps) we);
         (WIncr ps data, s5);
         (WWrite ps data, s6);
         (WForward ps b, set_world s6 w7);
         (WFound ps, set_world s6 w8) ])
      (Returns WRecv)
      (set_found (set_world s6 w8) (sh_found s ++ [Host ps])).

(** C6 as claimed: once the session cannot be opened, no query of the
    categories that follow is made for the host. *)
Definition open_failure_aborts_host (env : Env) (ps : BMCProbeResult)
    (s : Shared) : Prop :=
  ∀ client err,
    NewClient env (host_q s ps) = Ok client →
    bmclib_Open env (PreferProvider client (q_Preferred (host_q s ps)))
      = Some err →
    ∀ c, c ≠ Inventory → ¬ ran (collect_host env ps s).1.1 c.

(** The format of the line the loop logs when the query of [c] fails. *)
Definition failure_format (c : Category) : string :=
  match c with
  | Inventory => "could not query inventory (%v:%v): %v"
  | ChassisCat => "could not query chassis: %v"
  | EthernetInterfaces => "could not query ethernet interfaces: %v"
  | Systems => "could not query systems: %v"
  end.

(** C1 as claimed: whichever query fails, the queries after it are made
    and the record of the host is written and forwarded. *)
Definition category_failure_is_contained (env : Env) (ps : BMCProbeResult)
    (s : Shared) : Prop :=
  let run := collect_host env ps s in
  ∀ c, failed env run.1.1 c →
    (∀ c', (cat_index c < cat_index c')%nat → ran run.1.1 c') ∧
    ∃ b, persisted s run.2 b ∧ forwarded s run.2 b.

(** A BMC whose inventory cannot be read, all else answering. *)
Definition env_inventory_fails : Env :=
  sample_env None (Err "unsupported") chassis_doc eth_doc sys_doc
    (Err "no such file").

(** C2 as claimed, for the record [m] written for a host: the field of a
    failed category is absent, and the field of a category that succeeded
    holds the payload of its query. *)
Definition record_reflects_queries (env : Env) (ps : BMCProbeResult)
    (s : Shared) : Prop :=
  let run := collect_host env ps s in
  ∀ name m, CWriteFile name (JObj m) ∈ new_calls s run.2 →
    ∀ c,
      (failed env run.1.1 c → m !! record_key c = None) ∧
      (∀ b p, succeeded env run.1.1 c b → payload b = Some p →
              m !! record_key c = Some p).

(** ** The process: what the properties speak of *)

(** The probe result a worker holds. *)
Definition worker_task (w : Worker) : option BMCProbeResult :=
  match w with
  | WSetHost ps | WNewClient ps | WData ps _ | WInventory ps _ _
  | WChassis ps _ _ _ | WInterfaces ps _ _ _ | WSystems ps _ _ _
  | WIncr ps _ | WWrite ps _ | WForward ps _ | WFound ps => Some ps
  | WRecv | WExited => None
  end.

(** What the step of [t] from [st] to [st'] sent on [chanProbeState]. *)
Definition sent_by (t : Tid) (st st' : Process) : list BMCProbeResult :=
  match t, main st, main st' with
  | TMain, MSend ps _, MRange _ => [ps]
  | _, _, _ => []
  end.

(** The tasks dispatched along a schedule, in order. *)
Fixpoint dispatched (env : Env) (sched : list Tid) (st : Process)
  : list BMCProbeResult :=
  match sched with
  | [] => []
  | t :: sched =>
    match step env t st with
    | Some st' => sent_by t st st' ++ dispatched env sched st'
    | None => []
    end
  end.

(** The probe results the dispatcher has still to look at or to send. *)
Definition pending (m : Main) : list BMCProbeResult :=
  match m with
  | MStart (Some l) => l
  | MRange rest => rest
  | MSend ps rest => ps :: rest
  | _ => []
  end.

(** The workers that have not returned. *)
Definition is_running (w : Worker) : bool :=
  match w with WExited => false | _ => true end.

Definition running (ws : list Worker) : nat :=
  length (filter (λ w, is_running w) ws).

(** The steps of the main goroutine and of the [done] goroutine as total
    functions: a returned goroutine stays returned. *)
Definition mstep (env : Env) (m : Main) (s : Shared)
  : Res (Main * nat * bool) * Shared :=
  match main_step env m with
  | Some p => p s
  | None => (Returns (m, O, false), s)
  end.

Definition dstep (d : DoneG) (s : Shared) : Res DoneG * Shared :=
  match done_step d with
  | Some p => p s
  | None => (Returns d, s)
  end.

(** The state [MStart] leaves when it does not return early. *)
Definition started (env : Env) (s : Shared) : Shared :=
  let '(outputPath, err) :=
    util_MakeOutputDirectory env (path_Clean env (q_OutputPath (sh_q s))) in
  let s1 := set_outputPath s outputPath in
  match err with
  | Some err =>
    set_world s1
      (logged (sh_world s) (CLog "could not make output directory: %v" [err]))
  | None => s1
  end.

(** The dispatcher only stands at a send with a probe result it found
    reachable. *)
Definition send_ok (st : Process) : Prop :=
  ∀ ps rest, main st = MSend ps rest → State ps = true.

(** Every task on its way, in the channel or in the hands of a worker,
    is for a probe result that was found reachable. *)
Definition eligible_worker (w : Worker) : Prop :=
  ∀ ps, worker_task w = Some ps → State ps = true.

Definition flight_ok (st : Process) : Prop :=
  send_ok st ∧
  Forall (λ ps, State ps = true) (sh_chan (shared st)) ∧
  Forall eligible_worker (workers st).

(** C5 as claimed: a host is dispatched once, however often it is in the
    probe set. *)
Definition one_task_per_host (env : Env)
    (probeStates : option (list BMCProbeResult)) (q : QueryParams) : Prop :=
  ∀ sched st,
    run env sched (process0 probeStates q) = Some st →
    NoDup (Host <$> dispatched env sched (process0 probeStates q)).

(** What links the state of the process to the tasks [ds] dispatched so
    far: the tasks in the channel and in the hands of the workers were
    dispatched, the hosts in [found] are hosts of dispatched tasks, and a
    reachable probe result of the set [l] is still before the dispatcher
    unless a task was dispatched for its host. *)
Definition dispatch_inv (l : list BMCProbeResult)
    (ds : list BMCProbeResult) (st : Process) : Prop :=
  (∀ ps, ps ∈ sh_chan (shared st) → ps ∈ ds) ∧
  (∀ w ps, w ∈ workers st → worker_task w = Some ps → ps ∈ ds) ∧
  (∀ h, h ∈ sh_found (shared st) → h ∈ Host <$> ds) ∧
  (∀ ps, ps ∈ l → State ps = true →
     ps ∈ pending (main st) ∨ Host ps ∈ Host <$> ds).

(** *** The join *)

(** The main goroutine is past its start, workers spawned. *)
Definition spawned (m : Main) : bool :=
  match m with
  | MStart _ | MReturned (Some _) => false
  | _ => true
  end.

(** The main goroutine is past [wg.Wait()]. *)
Definition joined (m : Main) : bool :=
  match m with
  | MCloseDone | MReturned None => true
  | _ => false
  end.

(** The main goroutine is past [close(chanProbeState)]. *)
Definition closing (m : Main) : bool :=
  match m with
  | MWait | MCloseDone | MReturned None => true
  | _ => false
  end.

(** What holds of the join in every state of a run of [CollectInfo] with
    the parameters [q]. *)
Definition join_inv (q : QueryParams) (st : Process) : Prop :=
  (if spawned (main st)
   then length (workers st) = Z.to_nat (q_Threads q) ∧ (0 ≤ q_Threads q)%Z
   else workers st = [] ∧
        (∀ l, main st = MStart l → panicked st = None →
              shared st = shared0 q ∧ doneg st = DNone)) ∧
  (sh_done_closed (shared st) = false → spawned (main st) = true →
   sh_wg (shared st) = Z.of_nat (running (workers st))) ∧
  (sh_done_closed (shared st) = true → main st = MReturned None) ∧
  (joined (main st) = true → running (workers st) = O) ∧
  (WExited ∈ workers st →
   sh_chan_closed (shared st) = true ∧ sh_chan (shared st) = []) ∧
  (sh_chan_closed (shared st) = true → closing (main st) = true) ∧
  (sh_done_closed (shared st) = true → panicked st = None →
   sh_wg (shared st) = 0) ∧
  (closing (main st) = true → sh_chan_closed (shared st) = true).

(** A run of [CollectInfo] for one reachable host with one worker in which
    the [done] goroutine is not scheduled before [CollectInfo] returns. *)
Definition sched_done_last : list Tid :=
  replicate 6 TMain ++ replicate 13 (TWorker 0) ++ replicate 2 TMain.

(** *** [CollectInfo] at the edges of its input *)

(** The state [CollectInfo] is left in when it has no probe state. *)
Definition no_probe_states (q : QueryParams) : Process :=
  mkProcess (shared0 q) (MReturned (Some "no probe states found")) [] DNone None.

(** The one line that is logged before the workers start. *)
Definition output_directory_log (c : Call) : Prop :=
  ∃ err, c = CLog "could not make output directory: %v" [err].

(** No worker and nothing done for any host. *)
Definition idle (q : QueryParams) (st : Process) : Prop :=
  workers st = [] ∧
  sh_found (shared st) = [] ∧
  conns (sh_world (shared st)) = [] ∧
  Forall output_directory_log (calls (sh_world (shared st))) ∧
  (∀ l, main st = MStart l → shared st = shared0 q ∧ doneg st = DNone).

Definition q0 : QueryParams := sample_q 0 false "".

(** The keys of a record, in the order the loop sets them. *)
Definition record_keys : list string :=
  [ "ID"; "Type"; "Name"; "FQDN"; "User"; "Password"; "RediscoverOnUpdate";
    "Inventory"; "Chassis"; "Interface"; "Systems" ].


(** *** The identifiers of the records of a run *)

(** The records written by the calls [cs], in order. *)
Definition written_by (cs : list Call) : list jval :=
  omap (λ c, match c with CWriteFile _ b => Some b | _ => None end) cs.

(** The records written so far. *)
Definition written (st : Process) : list jval :=
  written_by (calls (sh_world (shared st))).

(** The [ID] of a record. *)
Definition record_ID (b : jval) : option string :=
  match b with
  | JObj m => match m !! "ID" with Some (JString s) => Some s | _ => None end
  | _ => None
  end.

(** [node] when its BMC number is [j]. *)
Definition nth_node (j : Z) : xnames_Node :=
  {| Cabinet := 1000; Chassis := 1; ComputeModule := 7; NodeBMC := j;
     Node := 0 |}.

(** The identifiers of the first [k] records when they are cut from [node]
    one after the other. *)
Definition idseq (k : nat) : list (option string) :=
  (λ j : nat, Some (node_ID (nth_node (Z.of_nat j - 1)))) <$> seq 0 k.

(** How the worker stands to the counter [n] of [node] when [k] records
    are written: the identifier in its [data] was cut from [node] before
    the increment of this turn. *)
Definition id_ok (n k : Z) (w : Worker) : Prop :=
  match w with
  | WWrite _ data =>
    n = k ∧ data !! "ID" = Some (AString (node_ID (nth_node (n - 1))))
  | WInventory _ _ data | WChassis _ _ data _ | WInterfaces _ _ data _
  | WSystems _ _ data _ | WIncr _ data =>
    n = k - 1 ∧ data !! "ID" = Some (AString (node_ID (nth_node n)))
  | _ => n = k - 1
  end.

(** The same for the shared state [s] as the worker at [w] finds it. *)
Definition worker_ids_ok (s : Shared) (w : Worker) : Prop :=
  let n := NodeBMC (sh_node s) in
  let ws := written_by (calls (sh_world s)) in
  sh_node s = nth_node n ∧
  record_ID <$> ws = idseq (length ws) ∧
  id_ok n (Z.of_nat (length ws)) w.

(** What holds in every state of a run with one worker. *)
Definition id_inv (q : QueryParams) (st : Process) : Prop :=
  (workers st = [] ∧ worker_ids_ok (shared st) WRecv ∧
   (∀ l, main st = MStart l → shared st = shared0 q ∧ doneg st = DNone)) ∨
  (∃ w, workers st = [w] ∧ worker_ids_ok (shared st) w ∧
        ∀ l, main st ≠ MStart l).

(** A run of [CollectInfo] with one worker that records two hosts. *)
Definition sched_two_hosts : list Tid :=
  replicate 8 TMain ++ replicate 25 (TWorker 0) ++ replicate 2 TMain.

(** A BMC whose Redfish service cannot be reached: [gofish.Connect] gives
    back a nil client and an error. *)
Definition env_gofish_down : Env :=
  {| os_ReadFile := os_ReadFile env_ok;
     x509_parsePEM := x509_parsePEM env_ok;
     bmclib_registry := bmclib_registry env_ok;
     bmclib_Open := bmclib_Open env_ok;
     bmclib_Inventory := bmclib_Inventory env_ok;
     gofish_Connect := λ _, (None, Some "connection refused");
     gofish_Chassis := gofish_Chassis env_ok;
     redfish_ListReferencedEthernetInterfaces :=
       redfish_ListReferencedEthernetInterfaces env_ok;
     gofish_Systems := gofish_Systems env_ok;
     path_Clean := path_Clean env_ok;
     util_MakeOutputDirectory := util_MakeOutputDirectory env_ok;
     os_WriteFile := os_WriteFile env_ok;
     smd_AddRedfishEndpoint := smd_AddRedfishEndpoint env_ok |}.

(** The panic of a nil pointer dereference. *)
Definition nil_dereference : string :=
  "invalid memory address or nil pointer dereference".

(** ** The queries [CollectInfo] does not make *)

(** What bmclib and gofish are asked by them, beside what [Env] holds. *)
Record Env_more : Type := mkEnvMore {
  (** [client.GetMetadata()] *)
  bmclib_GetMetadata : bmclib_Client → goval;
  (** [client.GetPowerState(ctx)] *)
  bmclib_GetPowerState : bmclib_Client → result string;
  (** [client.ReadUsers(ctx)] *)
  bmclib_ReadUsers : bmclib_Client → result goval;
  (** [client.GetBiosConfiguration(ctx)] *)
  bmclib_GetBiosConfiguration : bmclib_Client → result goval;
  (** [c.Service.StorageSystems()] *)
  gofish_StorageSystems : gofish_APIClient → result goval;
  (** [c.Service.StorageServices()] *)
  gofish_StorageServices : gofish_APIClient → result goval;
  (** [c.Service.Registries()] *)
  gofish_Registries : gofish_APIClient → result goval;
}.

(** Their calls: those of [Call], and the requests only they make.
    [CPrint format b] is [fmt.Printf(format, string(b))], [b] possibly
    nil. *)
Inductive Call_more : Type :=
| CBase (c : Call)
| CGetMetadata (url : string)
| CGetPowerState (url : string)
| CReadUsers (url : string)
| CGetBiosConfiguration (url : string)
| CStorageSystems (endpoint : string)
| CStorageServices (endpoint : string)
| CRegistries (endpoint : string)
| CPrint (format : string) (b : option jval).

Record World_more : Type := mkWorldMore {
  m_conns : list Conn;
  m_calls : list Call_more;
}.

Abbreviation MM := (ST World_more).

Definition call_more (c : Call_more) : MM () :=
  λ w, (Returns (), mkWorldMore (m_conns w) (m_calls w ++ [c])).

(** Code of [M] run here: its calls are appended as they are. *)
Definition from_M {A : Type} (m : M A) : MM A :=
  λ w, let '(r, w') := m (mkWorld (m_conns w) []) in
       (r, mkWorldMore (conns w') (m_calls w ++ (CBase <$> calls w'))).

(** [defer], for [MM]. *)
Definition defer_more {A : Type} (f : MM ()) (body : MM A) : MM A :=
  λ w, match body w with
       | (r, w') => match f w' with
                    | (Returns _, w'') => (r, w'')
                    | (Panics msg, w'') => (Panics msg, w'')
                    end
       end.

Definition Printf (format : string) (b : option jval) : MM () :=
  call_more (CPrint format b).

(** [json.MarshalIndent(v, "", "    ")] for a library value. *)
Definition json_MarshalIndent (v : goval) : result jval :=
  match v with
  | GoJSON j => Ok j
  | GoUnencodable why => Err why
  end.

Definition makeJson (object : goval) : result jval :=
  match json_MarshalIndent object with
  | Err err => Err ("could not marshal JSON: " +:+ err)
  | Ok b => Ok b
  end.

(** [makeRequest(client, fn, timeout)]; [fn] is a method value of
    [client]. *)
Definition makeRequest (env : Env) (client : bmclib_Client)
    (fn : MM (result goval)) (timeout : Z) : MM (result jval) :=
  from_M (call (CFilterForCompatible (c_url client)));;
  from_M (call (COpen (c_url client) (c_preferred client)));;
  match bmclib_Open env client with
  | Some err => mret (Err ("could not open client: " +:+ err))
  | None =>
    from_M (acquire (BmcSession (c_url client)));;
    defer_more
      (from_M (call (CClose (c_url client));; release (BmcSession (c_url client))))
      (response ← fn;
       match response with
       | Err err => mret (Err ("could not get response: " +:+ err))
       | Ok response => mret (makeJson response)
       end)
  end.

(** The method value [client.GetBiosConfiguration]. *)
Definition client_GetBiosConfiguration (more : Env_more)
    (client : bmclib_Client) : MM (result goval) :=
  call_more (CGetBiosConfiguration (c_url client));;
  mret (bmclib_GetBiosConfiguration more client).

Definition QueryBios (env : Env) (more : Env_more) (client : bmclib_Client)
    (q : QueryParams) : MM (result jval) :=
  r ← makeRequest env client (client_GetBiosConfiguration more client)
         (q_Timeout q);
  (if q_Verbose q then Printf "%v\n" (bytes_of r) else mret ());;
  mret r.

Definition QueryMetadata (env : Env) (more : Env_more) (client : bmclib_Client)
    (q : QueryParams) : MM (result jval) :=
  (* open BMC session and update driver registry *)
  from_M (call (CFilterForCompatible (c_url client)));;
  from_M (call (COpen (c_url client) (c_preferred client)));;
  match bmclib_Open env client with
  | Some err => mret (Err ("could not connect to bmc: " +:+ err))
  | None =>
    from_M (acquire (BmcSession (c_url client)));;
    defer_more
      (from_M (call (CClose (c_url client));; release (BmcSession (c_url client))))
      (call_more (CGetMetadata (c_url client));;
       let metadata := bmclib_GetMetadata more client in
       (* [err] is still the nil [Open] returned *)
       let err : option error := None in
       match err with
       | Some err => mret (Err ("could not get metadata: " +:+ err))
       | None =>
         (* retrieve inventory data *)
         match json_MarshalIndent metadata with
         | Err err => mret (Err ("could not marshal JSON: " +:+ err))
         | Ok b =>
           (if q_Verbose q then Printf "Metadata: %v\n" (Some b) else mret ());;
           mret (Ok b)
         end
       end)
  end.

Definition QueryPowerState (env : Env) (more : Env_more)
    (client : bmclib_Client) (q : QueryParams) : MM (result jval) :=
  from_M (call (CFilterForCompatible (c_url client)));;
  let client := PreferProvider client (q_Preferred q) in
  from_M (call (COpen (c_url client) (c_preferred client)));;
  match bmclib_Open env client with
  | Some err => mret (Err ("could not open client: " +:+ err))
  | None =>
    from_M (acquire (BmcSession (c_url client)));;
    defer_more
      (from_M (call (CClose (c_url client));; release (BmcSession (c_url client))))
      (call_more (CGetPowerState (c_url client));;
       match bmclib_GetPowerState more client with
       | Err err => mret (Err ("could not get inventory: " +:+ err))
       | Ok powerState =>
         (* retrieve inventory data *)
         match json_MarshalIndent_field "PowerState" (GoJSON (JString powerState)) with
         | Err err => mret (Err ("could not marshal JSON: " +:+ err))
         | Ok b =>
           (if q_Verbose q then Printf "%v\n" (Some b) else mret ());;
           mret (Ok b)
         end
       end)
  end.

Definition QueryUsers (env : Env) (more : Env_more) (client : bmclib_Client)
    (q : QueryParams) : MM (result jval) :=
  (* open BMC session and update driver registry *)
  from_M (call (CFilterForCompatible (c_url client)));;
  from_M (call (COpen (c_url client) (c_preferred client)));;
  match bmclib_Open env client with
  | Some err => mret (Err ("could not connect to bmc: " +:+ err))
  | None =>
    from_M (acquire (BmcSession (c_url client)));;
    defer_more
      (from_M (call (CClose (c_url client));; release (BmcSession (c_url client))))
      (call_more (CReadUsers (c_url client));;
       match bmclib_ReadUsers more client with
       | Err err => mret (Err ("could not get users: " +:+ err))
       | Ok users =>
         (* retrieve inventory data *)
         match json_MarshalIndent_field "Users" users with
         | Err err => mret (Err ("could not marshal JSON: " +:+ err))
         | Ok b =>
           (if q_Verbose q then Printf "%v\n" (Some b) else mret ());;
           mret (Ok b)
         end
       end)
  end.

(** [json.MarshalIndent] of
    [{"Storage": {"Systems": systems, "Services": services}}]; the encoder
    writes the keys of a map in sorted order, [Services] first. *)
Definition json_MarshalIndent_Storage (systems services : goval) : result jval :=
  match services, systems with
  | GoUnencodable why, _ => Err why
  | GoJSON _, GoUnencodable why => Err why
  | GoJSON sv, GoJSON sy =>
    Ok (JObj {[ "Storage" := JObj (<["Systems" := sy]> {[ "Services" := sv ]}) ]})
  end.

Definition QueryStorage (env : Env) (more : Env_more) (q : QueryParams)
  : MM (result jval) :=
  '(c, err) ← from_M (connectGofish env q);
  match err with
  | Some err =>
    mret (Err ("could not connect to bmc (" +:+ colon (q_Host q) (q_Port q)
               +:+ "): " +:+ err))
  | None =>
    call_more (CStorageSystems (Endpoint (api_config c)));;
    match gofish_StorageSystems more c with
    | Err err =>
      mret (Err ("could not query storage systems ("
                 +:+ colon (q_Host q) (q_Port q) +:+ "): " +:+ err))
    | Ok systems =>
      call_more (CStorageServices (Endpoint (api_config c)));;
      match gofish_StorageServices more c with
      | Err err =>
        mret (Err ("could not query storage services ("
                   +:+ colon (q_Host q) (q_Port q) +:+ "): " +:+ err))
      | Ok services =>
        match json_MarshalIndent_Storage systems services with
        | Err err => mret (Err ("could not marshal JSON: " +:+ err))
        | Ok b =>
          (if q_Verbose q then Printf "%v\n" (Some b) else mret ());;
          mret (Ok b)
        end
      end
    end
  end.

Definition QueryRegisteries (env : Env) (more : Env_more) (q : QueryParams)
  : MM (result jval) :=
  '(c, err) ← from_M (connectGofish env q);
  match err with
  | Some err =>
    mret (Err ("could not connect to bmc (" +:+ colon (q_Host q) (q_Port q)
               +:+ "): " +:+ err))
  | None =>
    call_more (CRegistries (Endpoint (api_config c)));;
    match gofish_Registries more c with
    | Err err =>
      mret (Err ("could not query storage systems ("
                 +:+ colon (q_Host q) (q_Port q) +:+ "): " +:+ err))
    | Ok registries =>
      match json_MarshalIndent_field "Registries" registries with
      | Err err => mret (Err ("could not marshal JSON: " +:+ err))
      | Ok b =>
        (if q_Verbose q then Printf "%v\n" (Some b) else mret ());;
        mret (Ok b)
      end
    end
  end.

Definition world_more0 : World_more := mkWorldMore [] [].

(** A BMC for these queries, with the given answers. *)
Definition sample_more (power : result string) (users bios : result goval)
    (systems services : result goval) : Env_more :=
  {| bmclib_GetMetadata := λ _, GoJSON (JString "metadata");
     bmclib_GetPowerState := λ _, power;
     bmclib_ReadUsers := λ _, users;
     bmclib_GetBiosConfiguration := λ _, bios;
     gofish_StorageSystems := λ _, systems;
     gofish_StorageServices := λ _, services;
     gofish_Registries := λ _, Ok (GoJSON (JString "registries")) |}.

Definition more_ok : Env_more :=
  sample_more (Ok "on") (Ok (GoJSON (JString "users")))
    (Ok (GoJSON (JString "bios"))) (Ok (GoJSON (JString "volumes")))
    (Ok (GoJSON (JString "services"))).

Definition more_bios_fails : Env_more :=
  sample_more (Ok "on") (Ok (GoJSON (JString "users"))) (Err "unsupported")
    (Ok (GoJSON (JString "volumes"))) (Ok (GoJSON (JString "services"))).

Definition q_verbose : QueryParams :=
  {| q_Host := "H1"; q_Port := 443; q_User := "root"; q_Pass := "pw";
     q_Drivers := ["redfish"]; q_Threads := 1; q_Preferred := "redfish";
     q_Timeout := 1; q_WithSecureTLS := false; q_CertPoolFile := "";
     q_Verbose := true; q_IpmitoolPath := "ipmitool"; q_OutputPath := "out" |}.

Definition client1 : bmclib_Client :=
  mkClient "https://root:pw@H1" "root" "pw" (base_opts q_verbose)
    [mkDriver "gofish" "redfish"] None.

(** * Properties *)

(** ** The client factory *)

Section NewClient_facts.
Variable env : Env.
Variable q : QueryParams.

Lemma NewClient_opts c :
  NewClient env q = Ok c →
  c_opts c = base_opts q ∨ ∃ pool, c_opts c = base_opts q ++ [WithSecureTLS pool].
Proof.
  unfold NewClient. fold (base_opts q).
  destruct (q_WithSecureTLS q).
  - case_bool_decide.
    + destruct (os_ReadFile env _); [|discriminate].
      intros [= <-]. right. eauto.
    + intros [= <-]. right. eauto.
  - intros [= <-]. by left.
Qed.

Lemma NewClient_insecure c :
  q_WithSecureTLS q = false → NewClient env q = Ok c → c_opts c = base_opts q.
Proof. unfold NewClient. fold (base_opts q). intros ->. by intros [= <-]. Qed.

Lemma NewClient_system_pool :
  q_WithSecureTLS q = true → q_CertPoolFile q = "" →
  ∃ c, NewClient env q = Ok c ∧ c_opts c = base_opts q ++ [WithSecureTLS None].
Proof.
  unfold NewClient. fold (base_opts q). intros -> ->.
  rewrite bool_decide_false by auto. eauto.
Qed.

Lemma NewClient_bundle_read data :
  q_WithSecureTLS q = true → q_CertPoolFile q ≠ "" →
  os_ReadFile env (q_CertPoolFile q) = Ok data →
  ∃ c, NewClient env q = Ok c ∧
       c_opts c = base_opts q ++ [WithSecureTLS (Some (x509_parsePEM env data))].
Proof.
  unfold NewClient. fold (base_opts q). intros -> Hf ->.
  rewrite bool_decide_true by auto. eauto.
Qed.

Lemma NewClient_bundle_unreadable err :
  q_WithSecureTLS q = true → q_CertPoolFile q ≠ "" →
  os_ReadFile env (q_CertPoolFile q) = Err err →
  NewClient env q = Err ("could not read cert pool file: " +:+ err).
Proof.
  unfold NewClient. intros -> Hf ->. by rewrite bool_decide_true by auto.
Qed.
End NewClient_facts.

(** A failed [NewClient] costs the worker the host in hand and nothing
    else: it logs and goes back to the receive. *)
Lemma wstep_NewClient_failed env ps s err :
  NewClient env (sh_q s) = Err err →
  wstep env (WNewClient ps) s =
    (Returns WRecv,
     set_world s (mkWorld (conns (sh_world s))
                    (calls (sh_world s) ++ [CLog "could not make client: %v" [err]]))).
Proof. intros H. unfold wstep; simpl. unfold mbind, ST_bind, get; simpl. by rewrite H. Qed.

(** C10.  Whatever the parameters, a client [NewClient] returns carries as
    its first two options the generic and the Redfish HTTP client, both the
    one client whose TLS configuration has [InsecureSkipVerify] set; this
    is so when secure TLS is requested too, in which case the
    [WithSecureTLS] option is there and comes last, after them. *)
Theorem NewClient_http_client_skips_verification (env : Env) (q : QueryParams)
    (c : bmclib_Client) :
  NewClient env q = Ok c →
  InsecureSkipVerify (TLSClientConfig (Transport httpClient)) = true ∧
  (∃ rest, c_opts c =
     WithHTTPClient httpClient :: WithRedfishHTTPClient httpClient :: rest) ∧
  (q_WithSecureTLS q = true →
   ∃ pool rest, c_opts c =
     WithHTTPClient httpClient :: WithRedfishHTTPClient httpClient ::
       rest ++ [WithSecureTLS pool]).
Proof.
  intros H. split; [done|]. split.
  - destruct (NewClient_opts env q c H) as [-> | [pool ->]]; eauto.
  - intros Hs. destruct (NewClient_opts env q c H) as [Hc | [pool ->]].
    + exfalso. revert H Hc. unfold NewClient. fold (base_opts q). rewrite Hs.
      case_bool_decide.
      * destruct (os_ReadFile env _); [|discriminate].
        intros [= <-]. unfold base_opts. simpl. discriminate.
      * intros [= <-]. unfold base_opts. simpl. discriminate.
    + eexists pool, _. reflexivity.
Qed.

Lemma NewClient_http_client_skips_verification_witness :
  ∃ c, NewClient env_ok q_secure_system = Ok c ∧
       ∃ pool rest, c_opts c =
         WithHTTPClient httpClient :: WithRedfishHTTPClient httpClient ::
           rest ++ [WithSecureTLS pool].
Proof.
  eexists. split; [reflexivity|].
  apply (NewClient_http_client_skips_verification env_ok q_secure_system);
    reflexivity.
Defined.

(** C7, as claimed, fails: with secure TLS requested and a bundle path
    given, a bundle that is read but holds nothing that parses as a
    certificate is a bundle failure, yet [NewClient] returns a client (with
    an empty pool) and no error. *)
Lemma unparsable_bundle_is_no_error :
  q_WithSecureTLS q_secure_bundle = true ∧
  q_CertPoolFile q_secure_bundle ≠ "" ∧
  bundle_failure env_bad_bundle q_secure_bundle ∧
  (∃ c, NewClient env_bad_bundle q_secure_bundle = Ok c ∧
        WithSecureTLS (Some []) ∈ c_opts c) ∧
  ¬ ∃ err, NewClient env_bad_bundle q_secure_bundle = Err err.
Proof.
  split; [done|]. split; [done|]. split.
  - right. exists "not a certificate". done.
  - split.
    + eexists. split; [reflexivity|]. simpl. set_solver.
    + intros [err H]. discriminate H.
Qed.

(** C7, amended.  With secure TLS requested: given a bundle path, the file
    that is read has its certificates put in the pool handed to
    [WithSecureTLS], whatever parses, be it nothing; a bundle that cannot be
    read is an error of [NewClient], after which the worker logs it and goes
    back to the receive with the shared state otherwise untouched; given no
    bundle path, the nil pool, that is the system store, is handed over. *)
Theorem secure_tls_trust_pool (env : Env) (q : QueryParams) :
  q_WithSecureTLS q = true →
  (q_CertPoolFile q ≠ "" →
   (∀ data, os_ReadFile env (q_CertPoolFile q) = Ok data →
      ∃ c, NewClient env q = Ok c ∧
           WithSecureTLS (Some (x509_parsePEM env data)) ∈ c_opts c) ∧
   (∀ err, os_ReadFile env (q_CertPoolFile q) = Err err →
      NewClient env q = Err ("could not read cert pool file: " +:+ err) ∧
      ∀ ps s, sh_q s = q →
        wstep env (WNewClient ps) s =
          (Returns WRecv,
           set_world s
             (mkWorld (conns (sh_world s))
                (calls (sh_world s) ++
                 [CLog "could not make client: %v"
                    ["could not read cert pool file: " +:+ err]]))))) ∧
  (q_CertPoolFile q = "" →
   ∃ c, NewClient env q = Ok c ∧ WithSecureTLS None ∈ c_opts c).
Proof.
  intros Hs. split.
  - intros Hf. split.
    + intros data Hd.
      destruct (NewClient_bundle_read env q data Hs Hf Hd) as (c & Hc & Ho).
      exists c. split; [done|]. rewrite Ho. set_solver.
    + intros err He.
      pose proof (NewClient_bundle_unreadable env q err Hs Hf He) as Hn.
      split; [done|]. intros ps s <-. by apply wstep_NewClient_failed.
  - intros Hf.
    destruct (NewClient_system_pool env q Hs Hf) as (c & Hc & Ho).
    exists c. split; [done|]. rewrite Ho. set_solver.
Qed.

Lemma secure_tls_trust_pool_witness :
  (∃ c, NewClient env_bundle q_secure_bundle = Ok c ∧
        WithSecureTLS (Some ["ca"]) ∈ c_opts c) ∧
  (∃ c, NewClient env_ok q_secure_system = Ok c ∧
        WithSecureTLS None ∈ c_opts c) ∧
  NewClient env_ok q_secure_bundle =
    Err "could not read cert pool file: no such file".
Proof.
  split; [|split].
  - destruct (secure_tls_trust_pool env_bundle q_secure_bundle eq_refl)
      as [H _].
    destruct (H ltac:(done)) as [Hread _]. exact (Hread _ eq_refl).
  - destruct (secure_tls_trust_pool env_ok q_secure_system eq_refl)
      as [_ H].
    exact (H eq_refl).
  - destruct (secure_tls_trust_pool env_ok q_secure_bundle eq_refl)
      as [H _].
    destruct (H ltac:(done)) as [_ Herr]. exact (proj1 (Herr _ eq_refl)).
Defined.

(** ** The queries and the world *)

Ltac unfold_M :=
  unfold fmt_Printf, Errorf, defer, call, acquire, release, panic, lift, get,
    modify, mbind, mret, ST_bind, ST_ret in *.

Lemma remove1_head c l : remove1 c (c :: l) = l.
Proof. simpl. by rewrite decide_True. Qed.

(** [QueryInventory] gives back what it took: the deferred [Close] runs on
    every path that follows a successful [Open]. *)
Lemma QueryInventory_conns env client q w :
  conns (QueryInventory env client q w).2 = conns w.
Proof.
  unfold QueryInventory. unfold_M. simpl.
  destruct (bmclib_Open env _); simpl; [done|].
  destruct (bmclib_Inventory env _) as [inventory|]; simpl.
  - destruct (json_MarshalIndent_field _ _); simpl;
      [destruct (q_Verbose q); simpl|]; by rewrite decide_True.
  - by rewrite decide_True.
Qed.

Lemma connectGofish_connected env q w c :
  gofish_Connect env (makeGofishConfig q) = (Some c, None) →
  connectGofish env q w =
    (Returns (mkAPIClient (api_config c) true true, None),
     mkWorld (GofishSession (Endpoint (makeGofishConfig q)) :: conns w)
             (calls w ++ [CConnect (Endpoint (makeGofishConfig q))])).
Proof.
  intros H. unfold connectGofish. unfold_M. by rewrite H.
Qed.

(** C8.  The three queries made over gofish return with the connection
    they opened still held: whenever [gofish.Connect] succeeds, the
    connection is among the open ones when [QueryChassis],
    [QueryEthernetInterfaces] or [QuerySystems] returns, whatever the query
    itself gave; nothing in them logs out.  ([QueryInventory], over bmclib,
    closes what it opened: [QueryInventory_conns].) *)
Theorem gofish_queries_keep_the_connection (env : Env) (q : QueryParams)
    (client : bmclib_Client) (w : World) (c : gofish_APIClient) :
  gofish_Connect env (makeGofishConfig q) = (Some c, None) →
  let held := GofishSession (Endpoint (makeGofishConfig q)) :: conns w in
  conns (QueryChassis env q w).2 = held ∧
  conns (QueryEthernetInterfaces env client q w).2 = held ∧
  conns (QuerySystems env q w).2 = held.
Proof.
  intros H held. repeat split.
  - unfold QueryChassis. unfold mbind at 1, ST_bind at 1.
    rewrite (connectGofish_connected env q w c H). unfold_M. simpl.
    destruct (gofish_Chassis env _); simpl; [|done].
    destruct (json_MarshalIndent_field _ _); simpl; [|done].
    by destruct (q_Verbose q).
  - unfold QueryEthernetInterfaces. unfold mbind at 1, ST_bind at 1.
    rewrite (connectGofish_connected env q w c H). unfold_M. simpl.
    destruct (redfish_ListReferencedEthernetInterfaces env _ _); simpl; [|done].
    destruct (json_MarshalIndent_field _ _); simpl; [|done].
    by destruct (q_Verbose q).
  - unfold QuerySystems. unfold mbind at 1, ST_bind at 1.
    rewrite (connectGofish_connected env q w c H). unfold_M. simpl.
    destruct (gofish_Systems env _); simpl; [|done].
    destruct (json_MarshalIndent_field _ _); simpl; [|done].
    by destruct (q_Verbose q).
Qed.

Lemma gofish_queries_keep_the_connection_witness :
  let q := set_host_port q1 "H1" 443 in
  (QueryChassis env_ok q world0).1 =
    Returns (Ok (JObj {[ "Chassis" := JString "chassis" ]})) ∧
  conns (QueryChassis env_ok q world0).2 =
    [GofishSession "https://root:pw@H1:443"] ∧
  conns (QuerySystems env_chassis_fails q world0).2 =
    [GofishSession "https://root:pw@H1:443"] ∧
  conns (QueryChassis env_chassis_fails q world0).2 =
    [GofishSession "https://root:pw@H1:443"].
Proof.
  intros q. split; [reflexivity|].
  pose proof (gofish_queries_keep_the_connection env_ok q
                (mkClient "" "" "" [] [] None) world0 _ eq_refl) as Hok.
  pose proof (gofish_queries_keep_the_connection env_chassis_fails q
                (mkClient "" "" "" [] [] None) world0 _ eq_refl) as Hbad.
  simpl in Hok, Hbad.
  split; [exact (proj1 Hok)|].
  split; [exact (proj2 (proj2 Hbad))|exact (proj1 Hbad)].
Defined.

(** ** The steps of a worker, one by one *)

Lemma wstep_WSetHost env ps s :
  wstep env (WSetHost ps) s =
    (Returns (WNewClient ps),
     set_q s (set_host_port (sh_q s) (Host ps) (Port ps))).
Proof. reflexivity. Qed.

Lemma wstep_WNewClient env ps s :
  wstep env (WNewClient ps) s =
    match NewClient env (sh_q s) with
    | Err err =>
      (Returns WRecv,
       set_world s (logged (sh_world s) (CLog "could not make client: %v" [err])))
    | Ok client => (Returns (WData ps client), s)
    end.
Proof.
  unfold wstep; simpl. unfold_M; simpl. by destruct (NewClient env (sh_q s)).
Qed.

Lemma wstep_WData env ps client s :
  wstep env (WData ps client) s =
    (Returns (WInventory ps client (init_data s ps)), s).
Proof. reflexivity. Qed.

Lemma wstep_WInventory env ps client data s :
  wstep env (WInventory ps client data) s =
    match QueryInventory env client (sh_q s) (sh_world s) with
    | (Returns inventory, w') =>
      let rm := json_Unmarshal (bytes_of inventory) ∅ in
      (Returns (WChassis ps client
                  (<["Inventory" := rm_get rm "Inventory"]> data) rm),
       set_world s
         match inventory with
         | Err err =>
           logged w' (CLog "could not query inventory (%v:%v): %v"
                        [q_Host (sh_q s); pretty (q_Port (sh_q s)); err])
         | Ok _ => w'
         end)
    | (Panics msg, w') => (Panics msg, set_world s w')
    end.
Proof.
  unfold wstep; simpl. unfold_M; simpl.
  destruct (QueryInventory env client (sh_q s) (sh_world s)) as [[[b|err]|msg] w'];
    reflexivity.
Qed.

Lemma wstep_WChassis env ps client data rm s :
  wstep env (WChassis ps client data rm) s =
    match QueryChassis env (sh_q s) (sh_world s) with
    | (Returns (Ok b), w') =>
      let rm := json_Unmarshal (Some b) rm in
      (Returns (WInterfaces ps client
                  (<["Chassis" := rm_get rm "Chassis"]> data) rm),
       set_world s w')
    | (Returns (Err err), w') =>
      (Returns WRecv,
       set_world s (logged w' (CLog "could not query chassis: %v" [err])))
    | (Panics msg, w') => (Panics msg, set_world s w')
    end.
Proof.
  unfold wstep; simpl. unfold_M; simpl.
  destruct (QueryChassis env (sh_q s) (sh_world s)) as [[[b|err]|msg] w'];
    reflexivity.
Qed.

Lemma wstep_WInterfaces env ps client data rm s :
  wstep env (WInterfaces ps client data rm) s =
    match QueryEthernetInterfaces env client (sh_q s) (sh_world s) with
    | (Returns (Ok b), w') =>
      let rm := json_Unmarshal (Some b) rm in
      (Returns (WSystems ps client
                  (<["Interface" := rm_get rm "Interface"]> data) rm),
       set_world s w')
    | (Returns (Err err), w') =>
      (Returns WRecv,
       set_world s
         (logged w' (CLog "could not query ethernet interfaces: %v" [err])))
    | (Panics msg, w') => (Panics msg, set_world s w')
    end.
Proof.
  unfold wstep; simpl. unfold_M; simpl.
  destruct (QueryEthernetInterfaces env client (sh_q s) (sh_world s))
    as [[[b|err]|msg] w']; reflexivity.
Qed.

Lemma wstep_WSystems env ps client data rm s :
  wstep env (WSystems ps client data rm) s =
    match QuerySystems env (sh_q s) (sh_world s) with
    | (Returns systems, w') =>
      let rm := json_Unmarshal (bytes_of systems) rm in
      (Returns (WIncr ps (<["Systems" := rm_get rm "Systems"]> data)),
       set_world s
         match systems with
         | Err err => logged w' (CLog "could not query systems: %v" [err])
         | Ok _ => w'
         end)
    | (Panics msg, w') => (Panics msg, set_world s w')
    end.
Proof.
  unfold wstep; simpl. unfold_M; simpl.
  destruct (QuerySystems env (sh_q s) (sh_world s)) as [[[b|err]|msg] w'];
    reflexivity.
Qed.

Lemma wstep_WIncr env ps data s :
  wstep env (WIncr ps data) s =
    (Returns (WWrite ps data), set_node s (bump (sh_node s))).
Proof. reflexivity. Qed.

Lemma wstep_WWrite env ps data s :
  wstep env (WWrite ps data) s =
    let b := json_MarshalIndent_data data in
    let w := logged (sh_world s) (CWriteFile (file_name env s) b) in
    (Returns (WForward ps b),
     set_world s
       match os_WriteFile env (file_name env s) b with
       | Some err => logged w (CLog "could not write data to file: %v" [err])
       | None => w
       end).
Proof.
  unfold wstep; simpl. unfold_M; simpl. fold (file_name env s).
  by destruct (os_WriteFile env _ _).
Qed.

Lemma wstep_WForward env ps b s :
  wstep env (WForward ps b) s =
    let w := logged (sh_world s) (CAddRedfishEndpoint b headers) in
    (Returns (WFound ps),
     set_world s
       match smd_AddRedfishEndpoint env b headers with
       | Some err => logged w (CLog "could not add redfish endpoint: %v" [err])
       | None => w
       end).
Proof.
  unfold wstep; simpl. unfold_M; simpl.
  by destruct (smd_AddRedfishEndpoint env _ _).
Qed.

Lemma wstep_WFound env ps s :
  wstep env (WFound ps) s =
    (Returns WRecv, set_found s (sh_found s ++ [Host ps])).
Proof. reflexivity. Qed.

(** [worker_run] in terms of [wstep]. *)
Lemma worker_run_S env fuel w s :
  w ≠ WExited →
  worker_run env (S fuel) w s =
    match wstep env w s with
    | (Panics msg, s') => ([(w, s)], Panics msg, s')
    | (Returns w', s') =>
      match w' with
      | WRecv | WExited => ([(w, s)], Returns w', s')
      | _ => let '(tr, r, s'') := worker_run env fuel w' s' in
             ((w, s) :: tr, r, s'')
      end
    end.
Proof. intros Hw. unfold wstep. destruct w; done. Qed.

(** ** What the queries do *)

Lemma marshal_field_Ok key v b :
  json_MarshalIndent_field key v = Ok b → ∃ p, b = JObj {[ key := p ]}.
Proof. destruct v; [intros [= <-]; eauto|done]. Qed.

Lemma QueryInventory_returns env client q w :
  ∃ r, (QueryInventory env client q w).1 = Returns r.
Proof.
  unfold QueryInventory. unfold_M. simpl.
  destruct (bmclib_Open env _); simpl; [eauto|].
  destruct (bmclib_Inventory env _) as [inventory|]; simpl; [|eauto].
  destruct (json_MarshalIndent_field _ _); simpl; [|eauto].
  destruct (q_Verbose q); simpl; eauto.
Qed.

Lemma QueryInventory_ok env client q :
  query_ok "Inventory" bmclib_call (QueryInventory env client q).
Proof.
  intros w. unfold QueryInventory. unfold_M. simpl.
  destruct (bmclib_Open env _); simpl.
  { eexists [_; _]. rewrite <- app_assoc. split; [done|].
    split; [by repeat constructor|done]. }
  destruct (bmclib_Inventory env _) as [inventory|]; simpl.
  - destruct (json_MarshalIndent_field _ _) as [b|] eqn:Hb; simpl.
    + destruct (q_Verbose q); simpl.
      * eexists [_; _; _; _; _]. rewrite <- !app_assoc. split; [done|].
        split; [by repeat constructor|].
        intros ? [= <-]. by eapply marshal_field_Ok.
      * eexists [_; _; _; _]. rewrite <- !app_assoc. split; [done|].
        split; [by repeat constructor|].
        intros ? [= <-]. by eapply marshal_field_Ok.
    + eexists [_; _; _; _]. rewrite <- !app_assoc. split; [done|].
      split; [by repeat constructor|done].
  - eexists [_; _; _; _]. rewrite <- !app_assoc. split; [done|].
    split; [by repeat constructor|done].
Qed.

(** When [Open] fails, [QueryInventory] has asked the BMC for nothing. *)
Lemma QueryInventory_open_failed env client q w err :
  bmclib_Open env (PreferProvider client (q_Preferred q)) = Some err →
  QueryInventory env client q w =
    (Returns (Err ("could not open client: " +:+ err)),
     logged (logged w (CFilterForCompatible (c_url client)))
       (COpen (c_url client) (Some (q_Preferred q)))).
Proof. intros H. unfold QueryInventory. unfold_M. simpl. by rewrite H. Qed.

Lemma connectGofish_calls env q w :
  calls (connectGofish env q w).2 =
    calls w ++ [CConnect (Endpoint (makeGofishConfig q))].
Proof.
  unfold connectGofish. unfold_M. simpl.
  destruct (gofish_Connect env _) as [[c|] [err|]]; reflexivity.
Qed.

Lemma QueryChassis_shape env q :
  QueryChassis env q =
    gofish_query env q
      (λ err, "could not connect to bmc (" +:+ colon (q_Host q) (q_Port q)
              +:+ "): " +:+ err)
      CChassis (gofish_Chassis env)
      (λ err, "could not query chassis (" +:+ colon (q_Host q) (q_Port q)
              +:+ "): " +:+ err)
      "Chassis".
Proof. reflexivity. Qed.

Lemma QueryEthernetInterfaces_shape env client q :
  QueryEthernetInterfaces env client q =
    gofish_query env q
      (λ err, "could not connect to bmc: " +:+ err)
      (λ ep, CEthernetInterfaces ep "/redfish/v1/Systems/")
      (λ c, redfish_ListReferencedEthernetInterfaces env c "/redfish/v1/Systems/")
      (λ err, "could not get ethernet interfaces: " +:+ err)
      "Interfaces".
Proof. reflexivity. Qed.

Lemma QuerySystems_shape env q :
  QuerySystems env q =
    gofish_query env q
      (λ err, "could not connect to bmc (" +:+ colon (q_Host q) (q_Port q)
              +:+ "): " +:+ err)
      CSystems (gofish_Systems env)
      (λ err, "could not query storage systems ("
              +:+ colon (q_Host q) (q_Port q) +:+ "): " +:+ err)
      "Systems".
Proof. reflexivity. Qed.

Lemma gofish_query_ok env q connect_msg fetch_call fetch fetch_msg key :
  (∀ ep, gofish_call (fetch_call ep)) →
  query_ok key gofish_call
    (gofish_query env q connect_msg fetch_call fetch fetch_msg key).
Proof.
  intros Hcall w. unfold gofish_query. unfold mbind, ST_bind.
  pose proof (connectGofish_calls env q w) as Hc.
  destruct (connectGofish env q w) as [[[c [err|]]|msg] w1]; simpl in Hc;
    unfold_M; simpl; rewrite Hc.
  - eexists [_]. split; [done|]. split; [by repeat constructor|done].
  - destruct (fetch c); simpl.
    + destruct (json_MarshalIndent_field _ _) as [b|] eqn:Hb; simpl.
      * destruct (q_Verbose q); simpl.
        -- eexists [_; _; _]. rewrite <- !app_assoc. split; [done|].
           split; [repeat constructor; apply Hcall|].
           intros ? [= <-]. by eapply marshal_field_Ok.
        -- eexists [_; _]. rewrite <- !app_assoc. split; [done|].
           split; [repeat constructor; apply Hcall|].
           intros ? [= <-]. by eapply marshal_field_Ok.
      * eexists [_; _]. rewrite <- !app_assoc. split; [done|].
        split; [repeat constructor; apply Hcall|done].
    + eexists [_; _]. rewrite <- !app_assoc. split; [done|].
      split; [repeat constructor; apply Hcall|done].
  - eexists [_]. split; [done|]. split; [by repeat constructor|done].
Qed.

Lemma QueryChassis_ok env q : query_ok "Chassis" gofish_call (QueryChassis env q).
Proof. rewrite QueryChassis_shape. by apply gofish_query_ok. Qed.

Lemma QueryEthernetInterfaces_ok env client q :
  query_ok "Interfaces" gofish_call (QueryEthernetInterfaces env client q).
Proof. rewrite QueryEthernetInterfaces_shape. by apply gofish_query_ok. Qed.

Lemma QuerySystems_ok env q : query_ok "Systems" gofish_call (QuerySystems env q).
Proof. rewrite QuerySystems_shape. by apply gofish_query_ok. Qed.

(** ** One turn of the loop *)

Ltac simpl_sh :=
  cbn [sh_q sh_node sh_outputPath sh_found sh_chan sh_chan_closed sh_wg
       sh_done_closed sh_world set_q set_node set_found set_chan
       set_chan_closed set_wg set_done_closed set_world set_outputPath
       fst snd].

Ltac run_step :=
  rewrite worker_run_S by discriminate;
  first [ rewrite wstep_WSetHost | rewrite wstep_WNewClient | rewrite wstep_WData
        | rewrite wstep_WInventory | rewrite wstep_WChassis
        | rewrite wstep_WInterfaces | rewrite wstep_WSystems
        | rewrite wstep_WIncr | rewrite wstep_WWrite | rewrite wstep_WForward
        | rewrite wstep_WFound ];
  cbn beta iota zeta; simpl_sh.

(** The turn from the last query on. *)
Lemma run_from_WSystems env ps client d ri bc be s :
  ∀ rs ws,
  QuerySystems env (sh_q s) (sh_world s) = (Returns rs, ws) →
  let data := data4 d ri bc be rs in
  let b := json_MarshalIndent_data data in
  let s5 := set_world s (after_systems rs ws) in
  let s6 := set_node s5 (bump (sh_node s)) in
  let w7 := after_write env (file_name env s6) b (after_systems rs ws) in
  let w8 := after_forward env b w7 in
  worker_run env 5 (WSystems ps client (data3 d ri bc be) (rm3 ri bc be)) s =
    ([ (WSystems ps client (data3 d ri bc be) (rm3 ri bc be), s);
       (WIncr ps data, s5);
       (WWrite ps data, s6);
       (WForward ps b, set_world s6 w7);
       (WFound ps, set_world s6 w8) ],
     Returns WRecv,
     set_found (set_world s6 w8) (sh_found s ++ [Host ps])).
Proof.
  intros rs ws HQ. cbn zeta.
  run_step. rewrite HQ. cbn beta iota zeta. simpl_sh.
  run_step. run_step. run_step. run_step.
  unfold after_write, after_forward, after_systems, data4, rm4, file_name.
  simpl_sh.
  destruct rs, (os_WriteFile env _ _), (smd_AddRedfishEndpoint env _ _);
    reflexivity.
Qed.

(** [collect_host] goes one of the seven ways. *)
Lemma collect_host_run env ps s tr r s' :
  collect_host env ps s = (tr, r, s') → host_run env ps s tr r s'.
Proof.
  unfold collect_host.
  run_step. run_step.
  fold (host_q s ps). fold (entered s ps).
  destruct (NewClient env (host_q s ps)) as [client|err] eqn:HN;
    cbn beta iota zeta; simpl_sh.
  2: { intros [= <- <- <-]. by apply run_no_client. }
  run_step. run_step. unfold entered at 1 2. simpl_sh.
  destruct (QueryInventory_returns env client (host_q s ps) (sh_world s))
    as [ri Hri].
  destruct (QueryInventory env client (host_q s ps) (sh_world s))
    as [ri' wi] eqn:HQi. simpl in Hri. subst ri'.
  cbn beta iota zeta. simpl_sh.
  fold (after_inventory (host_q s ps) ri wi).
  run_step. unfold entered at 1 2. simpl_sh.
  destruct (QueryChassis env (host_q s ps) _) as [[[bc|err]|msg] wc] eqn:HQc;
    cbn beta iota zeta; simpl_sh.
  2: { intros [= <- <- <-].
       by apply (run_chassis_failed env ps s client ri wi err wc). }
  2: { intros [= <- <- <-].
       by apply (run_chassis_panic env ps s client ri wi msg wc). }
  run_step. unfold entered at 1 2. simpl_sh.
  destruct (QueryEthernetInterfaces env client (host_q s ps) wc)
    as [[[be|err]|msg] we] eqn:HQe; cbn beta iota zeta; simpl_sh.
  2: { intros [= <- <- <-].
       by apply (run_interfaces_failed env ps s client ri wi bc wc err we). }
  2: { intros [= <- <- <-].
       by apply (run_interfaces_panic env ps s client ri wi bc wc msg we). }
  destruct (QuerySystems env (host_q s ps) we) as [[rs|msg] ws] eqn:HQs.
  - pose proof (run_from_WSystems env ps client (init_data (entered s ps) ps)
                  ri bc be (set_world (entered s ps) we) rs ws HQs) as Hrun.
    cbn zeta in Hrun.
    match type of Hrun with
    | ?lhs = _ =>
      match goal with
      | |- context [worker_run env 5 ?a ?b] =>
        change (worker_run env 5 a b) with lhs
      end
    end.
    rewrite Hrun. cbn beta iota zeta. intros [= <- <- <-].
    by apply (run_recorded env ps s client ri wi bc wc be we rs ws).
  - run_step. unfold entered at 1 2. simpl_sh. rewrite HQs.
    cbn beta iota zeta. intros [= <- <- <-].
    by apply (run_systems_panic env ps s client ri wi bc wc be we msg ws).
Qed.

(** What a query that satisfies [query_ok] leaves in the world. *)
Lemma query_ok_run key lib Q w r w' :
  query_ok key lib Q → Q w = (r, w') →
  ∃ cs, calls w' = calls w ++ cs ∧ Forall lib cs ∧
        ∀ b, r = Returns (Ok b) → ∃ p, b = JObj {[ key := p ]}.
Proof.
  intros HQ Hrun. destruct (HQ w) as (cs & Hcs & Hall & Hb).
  rewrite Hrun in Hcs, Hb. simpl in Hcs, Hb. by exists cs.
Qed.

(** Turn each query that was run into the list of calls it added. *)
Ltac query_calls :=
  repeat match goal with
  | H : QueryInventory ?env ?client ?q ?w = (_, ?w') |- _ =>
    let cs := fresh "csi" in let Hw := fresh "Hw" in
    let Hall := fresh "Hcalls" in let Hb := fresh "Hb" in
    destruct (query_ok_run _ _ _ _ _ _ (QueryInventory_ok env client q) H)
      as (cs & Hw & Hall & Hb);
    clear H; rewrite Forall_forall in Hall
  | H : QueryChassis ?env ?q ?w = (_, ?w') |- _ =>
    let cs := fresh "csc" in let Hw := fresh "Hw" in
    let Hall := fresh "Hcalls" in let Hb := fresh "Hb" in
    destruct (query_ok_run _ _ _ _ _ _ (QueryChassis_ok env q) H)
      as (cs & Hw & Hall & Hb);
    clear H; rewrite Forall_forall in Hall
  | H : QueryEthernetInterfaces ?env ?client ?q ?w = (_, ?w') |- _ =>
    let cs := fresh "cse" in let Hw := fresh "Hw" in
    let Hall := fresh "Hcalls" in let Hb := fresh "Hb" in
    destruct (query_ok_run _ _ _ _ _ _ (QueryEthernetInterfaces_ok env client q) H)
      as (cs & Hw & Hall & Hb);
    clear H; rewrite Forall_forall in Hall
  | H : QuerySystems ?env ?q ?w = (_, ?w') |- _ =>
    let cs := fresh "css" in let Hw := fresh "Hw" in
    let Hall := fresh "Hcalls" in let Hb := fresh "Hb" in
    destruct (query_ok_run _ _ _ _ _ _ (QuerySystems_ok env q) H)
      as (cs & Hw & Hall & Hb);
    clear H; rewrite Forall_forall in Hall
  end.

(** Bring the calls of a run to the form of a list appended to those
    already made. *)
Ltac norm_calls :=
  repeat match goal with x := _ |- _ => subst x end;
  unfold new_calls, after_forward, after_write, after_systems,
    after_inventory, host_q in *;
  simpl_sh; cbn [q_Host q_Port set_host_port];
  repeat match goal with
  | |- context [match ?r with Ok _ => _ | Err _ => _ end] => destruct r
  | |- context [match ?o with Some _ => _ | None => _ end] => destruct o
  end;
  cbn [calls logged conns] in *;
  repeat match goal with
  | H : calls ?w = _ |- _ =>
    is_var w;
    let cn := fresh "cn" in let cl := fresh "cl" in
    destruct w as [cn cl]; cbn [calls conns] in *; subst
  end;
  repeat match goal with
  | |- context [match ?r with Ok _ => _ | Err _ => _ end] => destruct r
  end;
  cbn [calls logged conns];
  rewrite <- ?app_assoc; rewrite drop_app_length.

Ltac solve_ran :=
  unfold ran, phases, to_inventory;
  cbn [app fmap list_fmap phase fst cat_phase];
  repeat constructor.

Ltac not_by_library :=
  match goal with
  | Hc : ∀ x, x ∈ ?cs → _, H : _ ∈ ?cs |- _ =>
    apply Hc in H; exfalso; exact H
  end.

(** C6, as claimed, fails: on a BMC where [Open] fails and gofish answers,
    the queries after Inventory are made all the same. *)
Lemma open_failure_does_not_abort_host :
  ¬ open_failure_aborts_host env_open_fails H1_443 (shared0 q1).
Proof.
  intros Hclaim.
  eapply (Hclaim _ "timeout" eq_refl eq_refl ChassisCat); [done|].
  unfold ran. apply (bool_decide_unpack _). vm_compute. exact I.
Qed.

(** C6, amended.  When the session cannot be opened, which is found out
    inside [QueryInventory], the inventory is not asked for and the error is
    logged as an inventory error; the host is not given up: the Chassis
    query is made next (and the later ones according to their own
    results). *)
Theorem open_failure_abandons_inventory_only (env : Env) (ps : BMCProbeResult)
    (s : Shared) (client : bmclib_Client) (err : error)
    (tr : Trace) (r : Res Worker) (s' : Shared) :
  NewClient env (host_q s ps) = Ok client →
  bmclib_Open env (PreferProvider client (q_Preferred (host_q s ps)))
    = Some err →
  collect_host env ps s = (tr, r, s') →
  (∀ url, CInventory url ∉ new_calls s s') ∧
  CLog "could not query inventory (%v:%v): %v"
    [Host ps; pretty (Port ps); "could not open client: " +:+ err]
    ∈ new_calls s s' ∧
  ran tr ChassisCat.
Proof.
  intros HN HO Hrun. apply collect_host_run in Hrun.
  destruct Hrun.
  all: match goal with H : NewClient _ _ = _ |- _ => rewrite H in HN end.
  all: simplify_eq.
  all: match goal with
       | H : QueryInventory _ _ _ _ = _ |- _ =>
         rewrite (QueryInventory_open_failed _ _ _ _ _ HO) in H
       end.
  all: simplify_eq.
  all: query_calls.
  all: (split; [|split]); [ | | solve_ran ].
  all: norm_calls.
  all: try (intros url Hin; set_unfold in Hin; destruct_or!;
            first [discriminate | not_by_library]).
  all: set_unfold; auto 10.
Qed.

Lemma open_failure_abandons_inventory_only_witness :
  ran (collect_host env_open_fails H1_443 (shared0 q1)).1.1 ChassisCat.
Proof.
  destruct (collect_host env_open_fails H1_443 (shared0 q1))
    as [[tr r] s'] eqn:Hrun.
  eapply (open_failure_abandons_inventory_only
            env_open_fails H1_443 (shared0 q1) _ "timeout" tr r s').
  - vm_compute. reflexivity.
  - vm_compute. reflexivity.
  - exact Hrun.
Defined.

(** ** Failures of the queries *)

Lemma answer_phase env c w s r :
  answer env c w s = Some r → phase w = cat_phase c.
Proof. unfold answer. by case_decide. Qed.

Lemma answer_WInventory env ps client data s :
  answer env Inventory (WInventory ps client data) s =
    Some (QueryInventory env client (sh_q s) (sh_world s)).1.
Proof. reflexivity. Qed.

Lemma answer_WChassis env ps client data rm s :
  answer env ChassisCat (WChassis ps client data rm) s =
    Some (QueryChassis env (sh_q s) (sh_world s)).1.
Proof. reflexivity. Qed.

Lemma answer_WInterfaces env ps client data rm s :
  answer env EthernetInterfaces (WInterfaces ps client data rm) s =
    Some (QueryEthernetInterfaces env client (sh_q s) (sh_world s)).1.
Proof. reflexivity. Qed.

Lemma answer_WSystems env ps client data rm s :
  answer env Systems (WSystems ps client data rm) s =
    Some (QuerySystems env (sh_q s) (sh_world s)).1.
Proof. reflexivity. Qed.

(** From [answer env c w s = Some r] for a configuration of an explicit
    run: find the configuration and what the query gave. *)
Ltac answer_inv Hin Hans :=
  let Hph := fresh "Hph" in
  pose proof (answer_phase _ _ _ _ _ Hans) as Hph;
  unfold to_inventory in Hin; set_unfold in Hin; destruct_or!;
  simplify_eq; cbn [phase cat_phase] in Hph; try discriminate Hph;
  clear Hph;
  first [ rewrite answer_WInventory in Hans | rewrite answer_WChassis in Hans
        | rewrite answer_WInterfaces in Hans | rewrite answer_WSystems in Hans ];
  unfold entered in Hans; cbn [sh_q sh_world set_q set_world] in Hans;
  repeat match goal with
  | H : ?Q = (_, _) |- _ =>
    match type of Hans with context [Q] => rewrite H in Hans end
  end;
  cbn [fst] in Hans; simplify_eq.

Ltac failed_inv :=
  let w := fresh "w" in let s0 := fresh "s0" in let e := fresh "e" in
  let Hin := fresh "Hin" in let Hans := fresh "Hans" in
  intros (w & s0 & e & Hin & Hans); answer_inv Hin Hans.

Ltac not_in_calls :=
  let Hin := fresh "Hin" in
  intros Hin; set_unfold in Hin; destruct_or!;
  first [discriminate | not_by_library].

Ltac not_ran :=
  let Hin := fresh "Hin" in
  unfold ran, phases, to_inventory;
  cbn [app fmap list_fmap phase fst cat_phase];
  intros Hin; set_unfold in Hin; destruct_or!; discriminate.

(** C1, as claimed, fails: on a BMC whose Chassis query fails the loop
    takes the next host at once; the EthernetInterfaces query is not
    made. *)
Lemma chassis_failure_ends_the_host :
  ¬ category_failure_is_contained env_chassis_fails H1_443 (shared0 q1).
Proof.
  intros Hclaim. unfold category_failure_is_contained in Hclaim.
  cbn zeta in Hclaim.
  destruct (Hclaim ChassisCat) as [Hran _].
  { eexists _, _, _. split.
    - eapply (list_elem_of_lookup_2 _ 4%nat). vm_compute. reflexivity.
    - vm_compute. reflexivity. }
  specialize (Hran EthernetInterfaces ltac:(cbn; lia)).
  revert Hran. unfold ran. apply (bool_decide_unpack _). vm_compute. exact I.
Qed.

(** C1, amended.  A failed Inventory query does not end the turn: the
    Chassis query is made next.  A failed Systems query does not either:
    the record is written and forwarded.  A failed Chassis or
    EthernetInterfaces query ends the turn for the host: the worker goes
    back to the receive, no later query is made and nothing is written or
    forwarded.  In every case the failure is logged. *)
Theorem failure_of_a_category (env : Env) (ps : BMCProbeResult) (s : Shared) :
  let run := collect_host env ps s in
  (failed env run.1.1 Inventory → ran run.1.1 ChassisCat) ∧
  (failed env run.1.1 Systems →
   ∃ b, persisted s run.2 b ∧ forwarded s run.2 b) ∧
  (∀ c, c = ChassisCat ∨ c = EthernetInterfaces → failed env run.1.1 c →
     run.1.2 = Returns WRecv ∧
     (∀ c', (cat_index c < cat_index c')%nat → ¬ ran run.1.1 c') ∧
     (∀ b, ¬ persisted s run.2 b) ∧ (∀ b, ¬ forwarded s run.2 b)) ∧
  (∀ c, failed env run.1.1 c →
     ∃ args, CLog (failure_format c) args ∈ new_calls s run.2).
Proof.
  intros run.
  destruct (collect_host env ps s) as [[tr r] s'] eqn:Hrun.
  apply collect_host_run in Hrun. subst run. cbn [fst snd].
  split; [|split; [|split]].
  - destruct Hrun; failed_inv; solve_ran.
  - destruct Hrun; failed_inv.
    exists b. unfold persisted, forwarded.
    split; [exists (file_name env s6)|].
    all: query_calls; norm_calls; set_unfold; auto 20.
  - intros c Hc.
    destruct Hrun; destruct Hc as [-> | ->]; failed_inv.
    all: split; [reflexivity|].
    all: split; [intros [] Hlt; cbn in Hlt; try lia; not_ran|].
    all: unfold persisted, forwarded.
    all: split; [intros b [name Hin]; revert Hin|intros b].
    all: query_calls; norm_calls; not_in_calls.
  - intros c. destruct Hrun; destruct c; failed_inv.
    all: cbn [failure_format]; eexists.
    all: query_calls; norm_calls.
    all: rewrite ?elem_of_app, ?elem_of_cons; eauto 20.
Qed.

Lemma failure_of_a_category_witness :
  ∃ b, persisted (shared0 q1)
         (collect_host env_systems_fails H1_443 (shared0 q1)).2 b ∧
       forwarded (shared0 q1)
         (collect_host env_systems_fails H1_443 (shared0 q1)).2 b.
Proof.
  apply (failure_of_a_category env_systems_fails H1_443 (shared0 q1)).
  eexists _, _, _. split.
  - eapply (list_elem_of_lookup_2 _ 6%nat). vm_compute. reflexivity.
  - vm_compute. reflexivity.
Defined.

(** ** The record that is written *)

Lemma payload_singleton key p : payload (JObj {[ key := p ]}) = Some p.
Proof. unfold payload. by rewrite map_to_list_singleton. Qed.

(** C2, as claimed, fails: when the Inventory query fails and the others
    succeed, the record is written with the [Inventory] key present and
    null. *)
Lemma null_filled_and_misnamed :
  ¬ record_reflects_queries env_inventory_fails H1_443 (shared0 q1).
Proof.
  intros Hclaim. unfold record_reflects_queries in Hclaim.
  cbn zeta in Hclaim.
  eassert (Hin : CWriteFile _ (JObj _) ∈
                 new_calls (shared0 q1)
                   (collect_host env_inventory_fails H1_443 (shared0 q1)).2).
  { eapply (list_elem_of_lookup_2 _ 11%nat). vm_compute. reflexivity. }
  specialize (Hclaim _ _ Hin).
  destruct (Hclaim Inventory) as [Habsent _].
  clear Hclaim Hin.
  assert (Hnone : ∀ x : jval, Some x = None → False) by done.
  eapply Hnone. rewrite <- Habsent; [vm_compute; reflexivity|].
  eexists _, _, _. split.
  - eapply (list_elem_of_lookup_2 _ 3%nat). vm_compute. reflexivity.
  - vm_compute. reflexivity.
Qed.

(** The fields of [data] once the four queries are through. *)
Lemma data4_Inventory d ri bc be rs :
  data4 d ri bc be rs !! "Inventory" = Some (rm_get (rm1 ri) "Inventory").
Proof.
  unfold data4, data3, data2, data1.
  rewrite !lookup_insert_ne by done. apply lookup_insert_eq.
Qed.

Lemma data4_Chassis d ri bc be rs :
  data4 d ri bc be rs !! "Chassis" = Some (rm_get (rm2 ri bc) "Chassis").
Proof.
  unfold data4, data3, data2.
  rewrite !lookup_insert_ne by done. apply lookup_insert_eq.
Qed.

Lemma data4_Interface d ri bc be rs :
  data4 d ri bc be rs !! "Interface" = Some (rm_get (rm3 ri bc be) "Interface").
Proof.
  unfold data4, data3.
  rewrite !lookup_insert_ne by done. apply lookup_insert_eq.
Qed.

Lemma data4_Systems d ri bc be rs :
  data4 d ri bc be rs !! "Systems" = Some (rm_get (rm4 ri bc be rs) "Systems").
Proof. unfold data4. apply lookup_insert_eq. Qed.

Lemma marshal_lookup (data : gmap string any) (key : string) (v : any) :
  data !! key = Some v →
  (any_json <$> data) !! key = Some (any_json v).
Proof. intros H. by rewrite lookup_fmap, H. Qed.

(** A record that was written is the encoding of the [data] a worker held
    when it reached the write. *)
Lemma written_is_marshalled env ps s tr r s' name b :
  host_run env ps s tr r s' →
  CWriteFile name b ∈ new_calls s s' →
  ∃ data s6, (WWrite ps data, s6) ∈ tr ∧ b = json_MarshalIndent_data data.
Proof.
  intros Hrun. destruct Hrun.
  all: query_calls; norm_calls.
  all: intros Hin; set_unfold in Hin; destruct_or!.
  all: try discriminate.
  all: try not_by_library.
  all: simplify_eq.
  all: eexists _, _; split; [|reflexivity].
  all: by eapply (list_elem_of_lookup_2 _ 8%nat).
Qed.

Ltac data4_lookup :=
  first [ apply data4_Inventory | apply data4_Chassis
        | apply data4_Interface | apply data4_Systems ].

Ltac succeeded_inv :=
  let w := fresh "w" in let s0 := fresh "s0" in
  let Hin := fresh "Hin" in let Hans := fresh "Hans" in
  intros (w & s0 & Hin & Hans); answer_inv Hin Hans.

Lemma query_ok_shape key lib Q w b w' :
  query_ok key lib Q → Q w = (Returns (Ok b), w') →
  ∃ p, b = JObj {[ key := p ]}.
Proof.
  intros HQ Hrun. destruct (query_ok_run _ _ _ _ _ _ HQ Hrun) as (? & _ & _ & Hb).
  by apply Hb.
Qed.

(** The shape of the bytes of the queries that were run. *)
Ltac query_shapes :=
  repeat match goal with
  | H : QueryInventory ?env ?client ?q ?w = (Returns (Ok ?b), _) |- _ =>
    is_var b;
    let p := fresh "pinv" in let Hp := fresh "Hp" in
    destruct (query_ok_shape _ _ _ _ _ _ (QueryInventory_ok env client q) H)
      as [p Hp]; subst b
  | H : QueryChassis ?env ?q ?w = (Returns (Ok ?b), _) |- _ =>
    is_var b;
    let p := fresh "pch" in let Hp := fresh "Hp" in
    destruct (query_ok_shape _ _ _ _ _ _ (QueryChassis_ok env q) H)
      as [p Hp]; subst b
  | H : QueryEthernetInterfaces ?env ?client ?q ?w = (Returns (Ok ?b), _) |- _ =>
    is_var b;
    let p := fresh "peth" in let Hp := fresh "Hp" in
    destruct (query_ok_shape _ _ _ _ _ _
                (QueryEthernetInterfaces_ok env client q) H)
      as [p Hp]; subst b
  | H : QuerySystems ?env ?q ?w = (Returns (Ok ?b), _) |- _ =>
    is_var b;
    let p := fresh "psys" in let Hp := fresh "Hp" in
    destruct (query_ok_shape _ _ _ _ _ _ (QuerySystems_ok env q) H)
      as [p Hp]; subst b
  end.

(** C2, amended.  A record that is written is an object holding all four
    keys [Inventory], [Chassis], [Interface] and [Systems], whatever the
    queries gave; the field of a category whose query failed is null, not
    absent; [Inventory], [Chassis] and [Systems] hold the payload of their
    query when it succeeded; and a record is written only when the Chassis
    and the EthernetInterfaces queries succeeded. *)
Theorem written_record_fields (env : Env) (ps : BMCProbeResult) (s : Shared)
    (name : string) (b : jval) :
  let run := collect_host env ps s in
  CWriteFile name b ∈ new_calls s run.2 →
  ∃ m, b = JObj m ∧
    (∀ c, is_Some (m !! record_key c)) ∧
    (∀ c, failed env run.1.1 c → m !! record_key c = Some JNull) ∧
    (∀ c bq p, c ≠ EthernetInterfaces →
       succeeded env run.1.1 c bq → payload bq = Some p →
       m !! record_key c = Some p) ∧
    (∃ bc be, succeeded env run.1.1 ChassisCat bc ∧
              succeeded env run.1.1 EthernetInterfaces be).
Proof.
  intros run.
  destruct (collect_host env ps s) as [[tr r] s'] eqn:Hrun.
  apply collect_host_run in Hrun. subst run. cbn [fst snd].
  intros Hin.
  destruct (written_is_marshalled _ _ _ _ _ _ _ _ Hrun Hin)
    as (data' & s6' & Hw & ->). clear Hin.
  destruct Hrun.
  all: try (exfalso; unfold to_inventory in Hw; set_unfold in Hw;
            destruct_or!; discriminate).
  assert (data' = data) as ->.
  { unfold to_inventory in Hw; set_unfold in Hw; destruct_or!;
      simplify_eq; done. }
  clear Hw. subst data b.
  eexists. split; [reflexivity|].
  split; [|split; [|split]].
  - intros []; cbn [record_key]; erewrite marshal_lookup by data4_lookup;
      eauto.
  - intros []; failed_inv; cbn [record_key];
      erewrite marshal_lookup by data4_lookup.
    + unfold rm_get, rm1. cbn [bytes_of json_Unmarshal].
      by rewrite lookup_empty.
    + destruct ri; query_shapes.
      all: unfold rm_get, rm4, rm3, rm2, rm1; cbn [bytes_of json_Unmarshal].
      all: rewrite !lookup_union_r by (by apply lookup_singleton_ne).
      all: by rewrite lookup_empty.
  - intros c bq p Hc. destruct c; [| |done|].
    all: succeeded_inv; query_shapes; rewrite payload_singleton.
    all: intros [= <-]; cbn [record_key].
    all: erewrite marshal_lookup by data4_lookup.
    all: unfold rm_get, rm4, rm3, rm2, rm1; cbn [bytes_of json_Unmarshal].
    all: by erewrite lookup_union_Some_l by apply lookup_singleton_eq.
  - exists bc, be. split; eexists _, _.
    + split; [by eapply (list_elem_of_lookup_2 _ 4%nat)|].
      rewrite answer_WChassis. unfold entered.
      cbn [sh_q sh_world set_q set_world].
      match goal with H : QueryChassis _ _ _ = _ |- _ => by rewrite H end.
    + split; [by eapply (list_elem_of_lookup_2 _ 5%nat)|].
      rewrite answer_WInterfaces. unfold entered.
      cbn [sh_q sh_world set_q set_world].
      match goal with
      | H : QueryEthernetInterfaces _ _ _ _ = _ |- _ => by rewrite H
      end.
Qed.

Lemma written_record_fields_witness :
  ∃ name b m,
    CWriteFile name b ∈
      new_calls (shared0 q1) (collect_host env_ok H1_443 (shared0 q1)).2 ∧
    b = JObj m ∧ is_Some (m !! "Inventory").
Proof.
  eassert (Hin : CWriteFile _ _ ∈
                 new_calls (shared0 q1)
                   (collect_host env_ok H1_443 (shared0 q1)).2).
  { eapply (list_elem_of_lookup_2 _ 10%nat). vm_compute. reflexivity. }
  destruct (written_record_fields env_ok H1_443 (shared0 q1) _ _ Hin)
    as (m & Hb & Hkeys & _).
  eexists _, _, m. split; [exact Hin|]. split; [exact Hb|].
  exact (Hkeys Inventory).
Defined.

(** The [Interface] field: [QueryEthernetInterfaces] wraps its payload
    under the key [Interfaces], the loop reads the key [Interface]; the
    field is null although the query succeeded. *)
Lemma Interface_field_is_null :
  ∃ name m,
    CWriteFile name (JObj m) ∈
      new_calls (shared0 q1) (collect_host env_ok H1_443 (shared0 q1)).2 ∧
    succeeded env_ok (collect_host env_ok H1_443 (shared0 q1)).1.1
      EthernetInterfaces (JObj {[ "Interfaces" := JString "eth0" ]}) ∧
    m !! "Interface" = Some JNull.
Proof.
  eexists _, _. split; [|split].
  - eapply (list_elem_of_lookup_2 _ 10%nat). vm_compute. reflexivity.
  - eexists _, _. split.
    + eapply (list_elem_of_lookup_2 _ 5%nat). vm_compute. reflexivity.
    + vm_compute. reflexivity.
  - vm_compute. reflexivity.
Qed.


(** ** The steps of the process *)

Lemma wstep_WRecv env s :
  wstep env WRecv s =
    match sh_chan s with
    | ps :: rest => (Returns (WSetHost ps), set_chan s rest)
    | [] =>
      if sh_chan_closed s then
        if bool_decide (sh_wg s + -1 < 0)
        then (Panics "sync: negative WaitGroup counter",
              set_wg s (sh_wg s + -1))
        else (Returns WExited, set_wg s (sh_wg s + -1))
      else (Returns WRecv, s)
    end.
Proof.
  unfold wstep. cbn [worker_step]. unfold_M. unfold wg_Done, wg_Add.
  destruct (sh_chan s); [|done].
  destruct (sh_chan_closed s); [|done].
  by case_bool_decide.
Qed.

Lemma mstep_MStart_none env l s :
  l = None ∨ l = Some [] →
  mstep env (MStart l) s =
    (Returns (MReturned (Some "no probe states found"), O, false), s).
Proof. by intros [-> | ->]. Qed.

Lemma mstep_MStart env ps l s :
  mstep env (MStart (Some (ps :: l))) s =
    let s1 := started env s in
    let n := q_Threads (sh_q s) in
    if bool_decide (n + 1 < 0) then (Panics "makechan: size out of range", s1)
    else if bool_decide (sh_wg s + n < 0)
    then (Panics "sync: negative WaitGroup counter", set_wg s1 (sh_wg s + n))
    else (Returns (MRange (ps :: l), Z.to_nat n, false),
          set_wg s1 (sh_wg s + n)).
Proof.
  unfold mstep, started. cbn [main_step]. unfold_M. unfold wg_Add.
  destruct (util_MakeOutputDirectory env _) as [outputPath [err|]];
    cbn beta iota zeta; simpl_sh.
  all: case_bool_decide; [done|]; cbn beta iota zeta; simpl_sh.
  all: by case_bool_decide.
Qed.

Lemma mstep_MRange_nil env s :
  mstep env (MRange []) s = (Returns (MGoDone, O, false), s).
Proof. reflexivity. Qed.

Lemma mstep_MRange env ps rest s :
  mstep env (MRange (ps :: rest)) s =
    if negb (State ps) || bool_decide (slices_Index (sh_found s) (Host ps) >= 0)
    then (Returns (MRange rest, O, false), s)
    else (Returns (MSend ps rest, O, false), s).
Proof.
  unfold mstep. cbn [main_step]. unfold_M.
  by destruct (negb (State ps) || _).
Qed.

Lemma mstep_MSend env ps rest s :
  mstep env (MSend ps rest) s =
    if bool_decide (Z.of_nat (length (sh_chan s)) < q_Threads (sh_q s) + 1)
    then (Returns (MRange rest, O, false), set_chan s (sh_chan s ++ [ps]))
    else (Returns (MSend ps rest, O, false), s).
Proof.
  unfold mstep. cbn [main_step]. unfold_M. by case_bool_decide.
Qed.

Lemma mstep_MGoDone env s :
  mstep env MGoDone s = (Returns (MClose, O, true), s).
Proof. reflexivity. Qed.

Lemma mstep_MClose env s :
  mstep env MClose s = (Returns (MWait, O, false), set_chan_closed s).
Proof. reflexivity. Qed.

Lemma mstep_MWait env s :
  mstep env MWait s =
    if bool_decide (sh_wg s = 0) then (Returns (MCloseDone, O, false), s)
    else (Returns (MWait, O, false), s).
Proof. unfold mstep. cbn [main_step]. unfold_M. by case_bool_decide. Qed.

Lemma mstep_MCloseDone env s :
  mstep env MCloseDone s =
    (Returns (MReturned None, O, false), set_done_closed s).
Proof. reflexivity. Qed.

Lemma dstep_DSelect s :
  dstep DSelect s =
    if sh_done_closed s then
      if bool_decide (sh_wg s + -1 < 0)
      then (Panics "sync: negative WaitGroup counter", set_wg s (sh_wg s + -1))
      else (Returns DExited, set_wg s (sh_wg s + -1))
    else (Returns DExited, s).
Proof.
  unfold dstep. cbn [done_step]. unfold_M. unfold wg_Done, wg_Add.
  destruct (sh_done_closed s); [|done]. by case_bool_decide.
Qed.

(** A step of the process is a step of one goroutine that can move. *)
Lemma step_main env st st' :
  step env TMain st = Some st' →
  panicked st = None ∧ (∀ err, main st ≠ MReturned err) ∧
  match mstep env (main st) (shared st) with
  | (Returns (m', n, d), s') =>
    st' = mkProcess s' m' (workers st ++ replicate n WRecv)
            (if d : bool then DSelect else doneg st) None
  | (Panics msg, s') =>
    st' = mkProcess s' (main st) (workers st) (doneg st) (Some msg)
  end.
Proof.
  unfold step, mstep. destruct (panicked st); [done|].
  destruct (main_step env (main st)) as [p|] eqn:Hp; [|done].
  cbn [mbind option_bind]. intros [= <-]. split; [done|]. split.
  { intros err Hm. rewrite Hm in Hp. done. }
  by destruct (p (shared st)) as [[[[m' n] d]|msg] s'].
Qed.

Lemma step_worker env i st st' :
  step env (TWorker i) st = Some st' →
  panicked st = None ∧
  ∃ w, workers st !! i = Some w ∧ w ≠ WExited ∧
    match wstep env w (shared st) with
    | (Returns w', s') =>
      st' = mkProcess s' (main st) (<[i := w']> (workers st)) (doneg st) None
    | (Panics msg, s') =>
      st' = mkProcess s' (main st) (workers st) (doneg st) (Some msg)
    end.
Proof.
  unfold step, wstep. destruct (panicked st); [done|].
  destruct (workers st !! i) as [w|]; [|done]. cbn [mbind option_bind].
  destruct (worker_step env w) as [p|] eqn:Hp; [|done].
  cbn [mbind option_bind]. intros [= <-]. split; [done|].
  exists w. split; [done|]. split; [by intros ->|]. rewrite Hp.
  by destruct (p (shared st)) as [[w'|msg] s'].
Qed.

Lemma step_done env st st' :
  step env TDone st = Some st' →
  panicked st = None ∧ doneg st = DSelect ∧
  match dstep DSelect (shared st) with
  | (Returns d', s') => st' = mkProcess s' (main st) (workers st) d' None
  | (Panics msg, s') =>
    st' = mkProcess s' (main st) (workers st) (doneg st) (Some msg)
  end.
Proof.
  unfold step, dstep. destruct (panicked st); [done|].
  destruct (doneg st); try done.
  cbn [done_step mbind option_bind]. intros [= <-]. split; [done|].
  split; [done|].
  by match goal with |- context [?p (shared st)] =>
       destruct (p (shared st)) as [[d'|msg] s'] end.
Qed.

(** ** Dispatch *)

(** What a step of a worker that holds a task leaves alone. *)
Ltac frame_solve :=
  cbn [worker_task]; simpl_sh;
  repeat match goal with |- _ ∧ _ => split end;
  first [ reflexivity | by left | by right | done ].

Lemma wstep_frame env w s r s' :
  wstep env w s = (r, s') → w ≠ WRecv → w ≠ WExited →
  sh_chan s' = sh_chan s ∧ sh_chan_closed s' = sh_chan_closed s ∧
  sh_wg s' = sh_wg s ∧ sh_done_closed s' = sh_done_closed s ∧
  (sh_found s' = sh_found s ∨
   ∃ ps, w = WFound ps ∧ sh_found s' = sh_found s ++ [Host ps]) ∧
  match r with
  | Returns w' =>
    (worker_task w' = worker_task w ∨ w' = WRecv) ∧ w' ≠ WExited
  | Panics _ => True
  end.
Proof.
  intros Hstep Hrecv Hexit. destruct w; try done.
  - rewrite wstep_WSetHost in Hstep. simplify_eq. by frame_solve.
  - rewrite wstep_WNewClient in Hstep.
    destruct (NewClient env _); simplify_eq; by frame_solve.
  - rewrite wstep_WData in Hstep. simplify_eq. by frame_solve.
  - rewrite wstep_WInventory in Hstep.
    destruct (QueryInventory env _ _ _) as [[ri|msg] w'].
    all: cbn zeta in Hstep; simplify_eq; by frame_solve.
  - rewrite wstep_WChassis in Hstep.
    destruct (QueryChassis env _ _) as [[[b|err]|msg] w'].
    all: cbn zeta in Hstep; simplify_eq; by frame_solve.
  - rewrite wstep_WInterfaces in Hstep.
    destruct (QueryEthernetInterfaces env _ _ _) as [[[b|err]|msg] w'].
    all: cbn zeta in Hstep; simplify_eq; by frame_solve.
  - rewrite wstep_WSystems in Hstep.
    destruct (QuerySystems env _ _) as [[rs|msg] w'].
    all: cbn zeta in Hstep; simplify_eq; by frame_solve.
  - rewrite wstep_WIncr in Hstep. simplify_eq. by frame_solve.
  - rewrite wstep_WWrite in Hstep. cbn zeta in Hstep. simplify_eq.
    by frame_solve.
  - rewrite wstep_WForward in Hstep. cbn zeta in Hstep. simplify_eq.
    by frame_solve.
  - rewrite wstep_WFound in Hstep. simplify_eq. cbn [worker_task]. simpl_sh.
    repeat split; first [done | by right; eexists | by right].
Qed.

Lemma step_send_ok env t st st' :
  step env t st = Some st' → send_ok st → send_ok st'.
Proof.
  intros Hstep Hok. destruct t.
  - apply step_main in Hstep as (_ & Hne & Hstep).
    destruct (main st) as [[[|p l]|]|[|p rest']|p rest'| | | | |err] eqn:Hm.
    + rewrite mstep_MStart_none in Hstep by auto. by subst.
    + rewrite mstep_MStart in Hstep. cbn zeta in Hstep.
      repeat case_bool_decide; subst; intros ps rest; cbn [main];
        rewrite ?Hm; done.
    + rewrite mstep_MStart_none in Hstep by auto. by subst.
    + rewrite mstep_MRange_nil in Hstep. by subst.
    + rewrite mstep_MRange in Hstep.
      destruct (negb (State p) || _) eqn:Hskip; subst; intros ps rest;
        cbn [main]; [done|].
      intros [= <- <-]. apply orb_false_elim in Hskip as [Hs _].
      by destruct (State p).
    + rewrite mstep_MSend in Hstep.
      case_bool_decide; subst; intros ps rest; cbn [main]; [done|].
      intros [= <- <-]. by eapply Hok.
    + rewrite mstep_MGoDone in Hstep. by subst.
    + rewrite mstep_MClose in Hstep. by subst.
    + rewrite mstep_MWait in Hstep. by case_bool_decide; subst.
    + rewrite mstep_MCloseDone in Hstep. by subst.
    + by destruct (Hne err).
  - apply step_worker in Hstep as (_ & w & _ & _ & Hstep).
    destruct (wstep env w (shared st)) as [[w'|msg] s']; subst;
      intros ps rest; cbn [main]; apply Hok.
  - apply step_done in Hstep as (_ & _ & Hstep).
    destruct (dstep DSelect (shared st)) as [[d'|msg] s']; subst;
      intros ps rest; cbn [main]; apply Hok.
Qed.

Lemma sent_by_send t st st' ps :
  ps ∈ sent_by t st st' → ∃ rest, main st = MSend ps rest.
Proof.
  unfold sent_by. destruct t; [|by rewrite elem_of_nil..].
  destruct (main st); try by rewrite elem_of_nil.
  destruct (main st'); try by rewrite elem_of_nil.
  rewrite list_elem_of_singleton. intros ->. eauto.
Qed.

Lemma dispatched_reachable_only env sched st :
  send_ok st → Forall (λ ps, State ps = true) (dispatched env sched st).
Proof.
  revert st. induction sched as [|t sched IH]; intros st Hok; [constructor|].
  cbn [dispatched]. destruct (step env t st) as [st'|] eqn:Hstep; [|constructor].
  apply Forall_app. split.
  - apply Forall_forall. intros ps [rest Hm]%sent_by_send. by eapply Hok.
  - apply IH. by eapply step_send_ok.
Qed.

(** A property kept by every step holds along every schedule. *)
Lemma run_invariant env (P : Process → Prop) sched st0 st :
  (∀ t st st', step env t st = Some st' → P st → P st') →
  P st0 → run env sched st0 = Some st → P st.
Proof.
  intros Hstep. revert st0. induction sched as [|t sched IH]; intros st0 H0.
  - by intros [= <-].
  - cbn [run]. destruct (step env t st0) as [st1|] eqn:H1; [|done].
    cbn [mbind option_bind]. apply IH. by eapply Hstep.
Qed.

Lemma step_flight_ok env t st st' :
  step env t st = Some st' → flight_ok st → flight_ok st'.
Proof.
  intros Hstep (Hsend & Hchan & Hws).
  split; [by eapply step_send_ok|]. destruct t.
  - apply step_main in Hstep as (_ & Hne & Hstep).
    destruct (main st) as [[[|p l]|]|[|p rest']|p rest'| | | | |err] eqn:Hm.
    + rewrite mstep_MStart_none in Hstep by auto. subst. cbn.
      by rewrite app_nil_r.
    + rewrite mstep_MStart in Hstep. cbn zeta in Hstep.
      repeat case_bool_decide; subst; cbn [shared workers]; simpl_sh.
      all: unfold started; destruct (util_MakeOutputDirectory env _) as [? []].
      all: simpl_sh; try done.
      all: split; [done|]; apply Forall_app; split; [done|].
      all: by apply Forall_replicate.
    + rewrite mstep_MStart_none in Hstep by auto. subst. cbn.
      by rewrite app_nil_r.
    + rewrite mstep_MRange_nil in Hstep. subst. cbn. by rewrite app_nil_r.
    + rewrite mstep_MRange in Hstep.
      destruct (negb (State p) || _); subst; cbn; by rewrite app_nil_r.
    + rewrite mstep_MSend in Hstep.
      case_bool_decide; subst; cbn [shared workers]; simpl_sh;
        rewrite app_nil_r; [|done].
      split; [|done]. apply Forall_app. split; [done|].
      repeat constructor. by eapply Hsend.
    + rewrite mstep_MGoDone in Hstep. subst. cbn. by rewrite app_nil_r.
    + rewrite mstep_MClose in Hstep. subst. cbn. by rewrite app_nil_r.
    + rewrite mstep_MWait in Hstep.
      case_bool_decide; subst; cbn; by rewrite app_nil_r.
    + rewrite mstep_MCloseDone in Hstep. subst. cbn. by rewrite app_nil_r.
    + by destruct (Hne err).
  - apply step_worker in Hstep as (_ & w & Hw & Hexit & Hstep).
    assert (eligible_worker w) as Hwok.
    { eapply Forall_forall; [exact Hws|]. by eapply list_elem_of_lookup_2. }
    destruct (decide (phase w = PRecv)) as [Hrecv|Hrecv].
    + destruct w; try done. rewrite wstep_WRecv in Hstep.
      destruct (sh_chan (shared st)) as [|ps rest] eqn:Hc.
      * destruct (sh_chan_closed (shared st)); [case_bool_decide|];
          subst; cbn [shared workers]; simpl_sh; rewrite Hc.
        all: split; [done|]; try done.
        apply Forall_insert; [done|]. by intros ps.
        apply Forall_insert; [done|]. by intros ps.
      * subst. cbn [shared workers]. simpl_sh.
        apply Forall_cons in Hchan as [Hps Hrest]. split; [done|].
        apply Forall_insert; [done|]. intros ps'. cbn [worker_task].
        by intros [= <-].
    + destruct (wstep env w (shared st)) as [r s'] eqn:Hr.
      destruct (wstep_frame env w _ _ _ Hr) as (Hch & _ & _ & _ & _ & Hr');
        [by intros ->|done|].
      destruct r as [w'|msg]; subst; cbn [shared workers]; rewrite Hch.
      * split; [done|]. apply Forall_insert; [done|].
        destruct Hr' as [[Htask | ->] _]; intros ps; [rewrite Htask|];
          [apply Hwok|done].
      * done.
  - apply step_done in Hstep as (_ & _ & Hstep). rewrite dstep_DSelect in Hstep.
    destruct (sh_done_closed (shared st)); [case_bool_decide|];
      subst; cbn [shared workers]; simpl_sh; done.
Qed.

(** C9.  A probe result whose [State] is false is never dispatched: along
    every schedule it is not among the tasks sent on the channel, and in
    every state reached it is neither in the channel nor in the hands of a
    worker. *)
Theorem unreachable_is_never_dispatched (env : Env)
    (probeStates : option (list BMCProbeResult)) (q : QueryParams)
    (sched : list Tid) (ps : BMCProbeResult) :
  State ps = false →
  (ps ∉ dispatched env sched (process0 probeStates q)) ∧
  (∀ st, run env sched (process0 probeStates q) = Some st →
     (ps ∉ sh_chan (shared st)) ∧
     (∀ w, w ∈ workers st → worker_task w ≠ Some ps)).
Proof.
  intros Hps. split.
  - intros Hin.
    assert (send_ok (process0 probeStates q)) as Hok by done.
    pose proof (dispatched_reachable_only env sched _ Hok) as Hall.
    rewrite Forall_forall in Hall. apply Hall in Hin. congruence.
  - intros st Hrun.
    assert (flight_ok st) as (_ & Hchan & Hws).
    { eapply (run_invariant env flight_ok); [apply step_flight_ok| |done].
      split; [done|]. split; constructor. }
    rewrite Forall_forall in Hchan. rewrite Forall_forall in Hws. split.
    + intros Hin%Hchan. congruence.
    + intros w Hw%Hws Htask. apply Hw in Htask. congruence.
Qed.

Lemma unreachable_is_never_dispatched_witness :
  let sched := [TMain; TMain; TMain; TMain; TMain; TMain] in
  let p0 := process0 (Some [H1_443; H1_22; H2_down]) q2 in
  (main <$> run env_ok sched p0) = Some (MRange []) ∧
  H2_down ∉ dispatched env_ok sched p0.
Proof.
  intros sched p0. split; [vm_compute; reflexivity|].
  apply (unreachable_is_never_dispatched env_ok _ q2 sched H2_down).
  reflexivity.
Defined.

Lemma slices_Index_found l v : slices_Index l v >= 0 ↔ v ∈ l.
Proof.
  induction l as [|x l IH]; cbn [slices_Index].
  - rewrite elem_of_nil. lia.
  - rewrite elem_of_cons. destruct (decide (x = v)) as [->|Hne].
    + split; [auto|lia].
    + case_bool_decide; split.
      * lia.
      * intros [->|Hin]; [done|]. apply IH in Hin. lia.
      * intros ?. right. apply IH. lia.
      * lia.
Qed.

(** The dispatcher drops a probe result when it is not reachable or when
    its host is in [found], and only then. *)
Lemma mstep_MRange_drop env ps rest s :
  mstep env (MRange (ps :: rest)) s =
    if bool_decide (State ps = false ∨ Host ps ∈ sh_found s)
    then (Returns (MRange rest, O, false), s)
    else (Returns (MSend ps rest, O, false), s).
Proof.
  rewrite mstep_MRange.
  pose proof (slices_Index_found (sh_found s) (Host ps)) as Hfound.
  destruct (State ps); cbn [negb orb]; repeat case_bool_decide; try done.
  - naive_solver.
  - naive_solver.
  - naive_solver.
Qed.

Lemma run_snoc env sched t st0 :
  run env (sched ++ [t]) st0 = run env sched st0 ≫= step env t.
Proof.
  revert st0. induction sched as [|t' sched IH]; intros st0; cbn [run app].
  - cbn [mbind option_bind]. by destruct (step env t st0).
  - destruct (step env t' st0) as [st1|]; cbn [mbind option_bind]; [|done].
    apply IH.
Qed.

Lemma dispatched_snoc env sched t st0 st st' :
  run env sched st0 = Some st → step env t st = Some st' →
  dispatched env (sched ++ [t]) st0 =
    dispatched env sched st0 ++ sent_by t st st'.
Proof.
  revert st0. induction sched as [|t' sched IH]; intros st0; cbn [run app].
  - intros [= ->] Hstep. cbn [dispatched]. rewrite Hstep.
    by rewrite app_nil_r.
  - cbn [dispatched]. destruct (step env t' st0) as [st1|]; [|done].
    cbn [mbind option_bind]. intros Hrun Hstep.
    by rewrite (IH _ Hrun Hstep), app_assoc.
Qed.

(** Induction on a run together with what it has dispatched. *)
Lemma run_history_invariant env (P : list BMCProbeResult → Process → Prop) st0 :
  P [] st0 →
  (∀ ds t st st', P ds st → step env t st = Some st' →
                  P (ds ++ sent_by t st st') st') →
  ∀ sched st, run env sched st0 = Some st → P (dispatched env sched st0) st.
Proof.
  intros H0 Hstep sched. induction sched as [|t sched IH] using rev_ind.
  - by intros st [= <-].
  - intros st'. rewrite run_snoc.
    destruct (run env sched st0) as [st|] eqn:Hrun; [|done].
    cbn [mbind option_bind]. intros Ht.
    rewrite (dispatched_snoc _ _ _ _ _ _ Hrun Ht). eauto.
Qed.

Lemma step_dispatch_inv env l ds t st st' :
  dispatch_inv l ds st → step env t st = Some st' →
  dispatch_inv l (ds ++ sent_by t st st') st'.
Proof.
  intros (Hchan & Hws & Hfound & Hpend) Hstep. unfold dispatch_inv.
  destruct t.
  - apply step_main in Hstep as (_ & Hne & Hstep). unfold sent_by.
    destruct (main st) as [[[|p l']|]|[|p rest']|p rest'| | | | |err] eqn:Hm.
    + rewrite mstep_MStart_none in Hstep by auto. subst.
      rewrite !app_nil_r. split_and!; try done.
    + rewrite mstep_MStart in Hstep. cbn zeta in Hstep.
      repeat case_bool_decide; subst; cbn [shared workers main]; simpl_sh.
      all: unfold started; destruct (util_MakeOutputDirectory env _) as [? []].
      all: simpl_sh; rewrite ?Hm, ?app_nil_r; split_and!; try done.
      all: intros w ps [Hw|Hw%elem_of_replicate_inv]%elem_of_app;
        [by apply Hws|by subst].
    + rewrite mstep_MStart_none in Hstep by auto. subst.
      rewrite !app_nil_r. split_and!; try done.
    + rewrite mstep_MRange_nil in Hstep. subst. rewrite !app_nil_r.
      split_and!; try done.
    + rewrite mstep_MRange_drop in Hstep. case_bool_decide as Hdrop; subst;
        rewrite !app_nil_r; (split_and!; try done).
      cbn [main pending]. intros ps Hps Hs.
      destruct (Hpend ps Hps Hs) as [[->|Hin]%elem_of_cons|]; auto.
      destruct Hdrop as [Hdrop|Hdrop]; [congruence|]. right. by apply Hfound.
    + rewrite mstep_MSend in Hstep.
      case_bool_decide; subst; cbn [shared workers main]; simpl_sh;
        rewrite ?app_nil_r; [|by split_and!].
      split_and!.
      * intros ps [Hin| ->%list_elem_of_singleton]%elem_of_app;
          apply elem_of_app; [left; by apply Hchan|right; by left].
      * intros w ps Hw Ht. apply elem_of_app. left. by eapply Hws.
      * intros h Hh. rewrite fmap_app. apply elem_of_app. left.
        by apply Hfound.
      * cbn [pending]. intros ps Hps Hs. rewrite fmap_app.
        destruct (Hpend ps Hps Hs) as [[->|Hin]%elem_of_cons|]; auto.
        -- right. apply elem_of_app. right. by left.
        -- right. apply elem_of_app. by left.
    + rewrite mstep_MGoDone in Hstep. subst. rewrite !app_nil_r.
      split_and!; try done.
    + rewrite mstep_MClose in Hstep. subst. rewrite !app_nil_r.
      split_and!; try done.
    + rewrite mstep_MWait in Hstep. case_bool_decide; subst;
        rewrite !app_nil_r; split_and!; try done.
    + rewrite mstep_MCloseDone in Hstep. subst. rewrite !app_nil_r.
      split_and!; try done.
    + by destruct (Hne err).
  - apply step_worker in Hstep as (_ & w & Hw & Hexit & Hstep).
    cbn [sent_by]. rewrite app_nil_r.
    assert (∀ ps, worker_task w = Some ps → ps ∈ ds) as Hwok.
    { intros ps. apply Hws. by eapply list_elem_of_lookup_2. }
    assert (∀ w', (∀ ps, worker_task w' = Some ps → ps ∈ ds) →
              ∀ w0 ps, w0 ∈ <[i:=w']> (workers st) →
                       worker_task w0 = Some ps → ps ∈ ds) as Hins.
    { intros w' Hw' w0 ps [j Hj]%list_elem_of_lookup_1.
      apply list_lookup_insert_Some in Hj as [(-> & -> & _)|[_ Hj]];
        [apply Hw'|]. apply Hws. by eapply list_elem_of_lookup_2. }
    destruct (decide (phase w = PRecv)) as [Hrecv|Hrecv].
    + destruct w; try done. rewrite wstep_WRecv in Hstep.
      destruct (sh_chan (shared st)) as [|ps rest] eqn:Hc.
      * destruct (sh_chan_closed (shared st)); [case_bool_decide|];
          subst; cbn [shared workers main]; simpl_sh; rewrite ?Hc.
        all: split_and!; try done.
        all: try (by intros ? ?%elem_of_nil).
        all: by apply (Hins _).
      * subst. cbn [shared workers main]. simpl_sh. split_and!; try done.
        -- intros ps' Hin. apply Hchan. by right.
        -- apply (Hins _). cbn [worker_task]. intros ? [= <-].
           apply Hchan. by left.
    + destruct (wstep env w (shared st)) as [r s'] eqn:Hr.
      destruct (wstep_frame env w _ _ _ Hr)
        as (Hch & _ & _ & _ & Hf & Hr'); [by intros ->|done|].
      assert (∀ h, h ∈ sh_found s' → h ∈ Host <$> ds) as Hfound'.
      { destruct Hf as [->|(ps & -> & ->)]; [done|].
        intros h [Hh| ->%list_elem_of_singleton]%elem_of_app; [by apply Hfound|].
        apply list_elem_of_fmap_2. by apply Hwok. }
      destruct r as [w'|msg]; subst; cbn [shared workers main]; rewrite Hch.
      * split_and!; try done. apply (Hins _).
        destruct Hr' as [[Htask | ->] _]; intros ps; [rewrite Htask|];
          [apply Hwok|done].
      * by split_and!.
  - apply step_done in Hstep as (_ & _ & Hstep). rewrite dstep_DSelect in Hstep.
    cbn [sent_by]. rewrite app_nil_r.
    destruct (sh_done_closed (shared st)); [case_bool_decide|];
      subst; cbn [shared workers main]; simpl_sh; by split_and!.
Qed.

Lemma step_sent_sublist env t st st' :
  step env t st = Some st' →
  sent_by t st st' ++ pending (main st') `sublist_of` pending (main st).
Proof.
  intros Hstep. destruct t.
  - apply step_main in Hstep as (_ & Hne & Hstep). unfold sent_by.
    destruct (main st) as [[[|p l']|]|[|p rest']|p rest'| | | | |err] eqn:Hm.
    + rewrite mstep_MStart_none in Hstep by auto. by subst.
    + rewrite mstep_MStart in Hstep. cbn zeta in Hstep.
      repeat case_bool_decide; subst; cbn [main pending app]; by rewrite ?Hm.
    + rewrite mstep_MStart_none in Hstep by auto. by subst.
    + rewrite mstep_MRange_nil in Hstep. by subst.
    + rewrite mstep_MRange in Hstep.
      destruct (negb (State p) || _); subst; cbn [main pending app]; [|done].
      by apply sublist_cons.
    + rewrite mstep_MSend in Hstep.
      case_bool_decide; subst; cbn [main pending app]; done.
    + rewrite mstep_MGoDone in Hstep. by subst.
    + rewrite mstep_MClose in Hstep. by subst.
    + rewrite mstep_MWait in Hstep. by case_bool_decide; subst.
    + rewrite mstep_MCloseDone in Hstep. by subst.
    + by destruct (Hne err).
  - apply step_worker in Hstep as (_ & w & _ & _ & Hstep). cbn [sent_by app].
    by destruct (wstep env w (shared st)) as [[w'|msg] s']; subst.
  - apply step_done in Hstep as (_ & _ & Hstep). cbn [sent_by app].
    by destruct (dstep DSelect (shared st)) as [[d'|msg] s']; subst.
Qed.

(** What is dispatched is taken, in order, from what the dispatcher has
    before it. *)
Lemma dispatched_sublist env sched st :
  dispatched env sched st `sublist_of` pending (main st).
Proof.
  revert st. induction sched as [|t sched IH]; intros st; cbn [dispatched].
  - apply sublist_nil_l.
  - destruct (step env t st) as [st'|] eqn:Hstep; [|apply sublist_nil_l].
    etrans; [|by apply (step_sent_sublist env t st st')].
    apply sublist_app; [done|apply IH].
Qed.

(** C5, as claimed, fails: with the probe set of the scenario of the
    specification, two workers, the dispatcher has sent two tasks for H1
    before any worker has moved. *)
Lemma duplicate_host_dispatched_twice :
  ¬ one_task_per_host env_ok (Some [H1_443; H1_22; H2_down]) q2.
Proof.
  intros Hclaim.
  eassert (Hrun : run env_ok [TMain; TMain; TMain; TMain; TMain; TMain]
                    (process0 (Some [H1_443; H1_22; H2_down]) q2) = Some _).
  { vm_compute. reflexivity. }
  apply Hclaim in Hrun. vm_compute in Hrun.
  apply NoDup_cons in Hrun as [Hnin _]. apply Hnin. by left.
Qed.

(** C5, amended.  The tasks dispatched are taken in order from the probe
    set, so a host that is there k times gets k tasks at most; a probe
    result is dropped exactly when it is not reachable or its host is in
    [found] at the moment the dispatcher looks at it; [found] only holds
    hosts for which a task was dispatched (a worker adds the host once it
    has recorded it); and once [CollectInfo] has returned, every reachable
    host of the set has had a task. *)
Theorem dispatch_drops_recorded_hosts (env : Env) (l : list BMCProbeResult)
    (q : QueryParams) (sched : list Tid) (st : Process) :
  run env sched (process0 (Some l) q) = Some st →
  let ds := dispatched env sched (process0 (Some l) q) in
  ds `sublist_of` l ∧
  (∀ ps rest, main st = MRange (ps :: rest) →
     mstep env (main st) (shared st) =
       if bool_decide (State ps = false ∨ Host ps ∈ sh_found (shared st))
       then (Returns (MRange rest, O, false), shared st)
       else (Returns (MSend ps rest, O, false), shared st)) ∧
  (∀ h, h ∈ sh_found (shared st) → h ∈ Host <$> ds) ∧
  (main st = MReturned None →
   ∀ ps, ps ∈ l → State ps = true → Host ps ∈ Host <$> ds).
Proof.
  intros Hrun ds.
  split; [exact (dispatched_sublist env sched (process0 (Some l) q))|].
  split; [intros ps rest ->; apply mstep_MRange_drop|].
  assert (dispatch_inv l ds st) as (_ & _ & Hfound & Hpend).
  { apply (run_history_invariant env (dispatch_inv l)
             (process0 (Some l) q)); [|apply step_dispatch_inv|done].
    split_and!; [by intros ? ?%elem_of_nil|by intros ? ? ?%elem_of_nil
                |by intros ? ?%elem_of_nil|by left]. }
  split; [done|]. intros Hm ps Hps Hs.
  destruct (Hpend ps Hps Hs) as [Hin|]; [|done].
  rewrite Hm in Hin. by apply elem_of_nil in Hin.
Qed.

Lemma dispatch_drops_recorded_hosts_witness :
  let sched := [TMain; TMain; TMain; TMain; TMain; TMain] in
  let l := [H1_443; H1_22; H2_down] in
  dispatched env_ok sched (process0 (Some l) q2) = [H1_443; H1_22] ∧
  dispatched env_ok sched (process0 (Some l) q2) `sublist_of` l.
Proof.
  intros sched l. split; [vm_compute; reflexivity|].
  eassert (Hrun : run env_ok sched (process0 (Some l) q2) = Some _).
  { vm_compute. reflexivity. }
  exact (proj1 (dispatch_drops_recorded_hosts env_ok l q2 sched _ Hrun)).
Defined.

(** ** More on the client factory *)

Lemma foldl_Using_elem reg ds acc d :
  d ∈ foldl (λ ds driver, ds ++ Registry_Using reg driver) acc ds ↔
  d ∈ acc ∨ (d ∈ reg ∧ drv_Protocol d ∈ ds).
Proof.
  revert acc. induction ds as [|p ds IH]; intros acc; cbn [foldl].
  - split; [by left|]. intros [?|[_ ?%elem_of_nil]]; done.
  - rewrite IH, elem_of_app. unfold Registry_Using.
    rewrite list_elem_of_filter, elem_of_cons. naive_solver.
Qed.

Lemma NewClient_Drivers env q c :
  NewClient env q = Ok c →
  c_Drivers c =
    foldl (λ ds driver, ds ++ Registry_Using (bmclib_registry env) driver)
      [] (q_Drivers q).
Proof.
  unfold NewClient. destruct (q_WithSecureTLS q).
  - case_bool_decide.
    + destruct (os_ReadFile env _); [|discriminate]. by intros [= <-].
    + by intros [= <-].
  - by intros [= <-].
Qed.

(** X1.  The drivers of the client [NewClient] returns are the registered
    drivers whose protocol is one of [q.Drivers], and no other: a driver of
    a protocol that was not asked for is dropped from the registry, and with
    no protocol asked for the client has no driver at all. *)
Theorem NewClient_keeps_requested_drivers (env : Env) (q : QueryParams)
    (c : bmclib_Client) :
  NewClient env q = Ok c →
  (∀ d, d ∈ c_Drivers c ↔
        d ∈ bmclib_registry env ∧ drv_Protocol d ∈ q_Drivers q) ∧
  (q_Drivers q = [] → c_Drivers c = []).
Proof.
  intros H. rewrite (NewClient_Drivers env q c H). split.
  - intros d. rewrite foldl_Using_elem. split; [|by right].
    intros [?%elem_of_nil|?]; done.
  - by intros ->.
Qed.

Lemma NewClient_keeps_requested_drivers_witness :
  ∃ c, NewClient env_ok q1 = Ok c ∧
       (mkDriver "gofish" "redfish" ∈ c_Drivers c) ∧
       ¬ (mkDriver "ipmitool" "ipmi" ∈ c_Drivers c).
Proof.
  eexists. split; [reflexivity|].
  destruct (NewClient_keeps_requested_drivers env_ok q1 _ eq_refl) as [H _].
  split.
  - apply H. split; vm_compute; set_solver.
  - intros [_ Hp]%H. vm_compute in Hp. set_solver.
Defined.

(** X2.  [NewClient] fails in one case only: secure TLS is requested, a
    bundle path is given and the file cannot be read; the error then is the
    read error behind the words [could not read cert pool file].  Without
    secure TLS the bundle path is not looked at and a client is always
    returned. *)
Theorem NewClient_fails_only_on_unreadable_bundle (env : Env)
    (q : QueryParams) (e : error) :
  NewClient env q = Err e ↔
  q_WithSecureTLS q = true ∧ q_CertPoolFile q ≠ "" ∧
  ∃ err, os_ReadFile env (q_CertPoolFile q) = Err err ∧
         e = "could not read cert pool file: " +:+ err.
Proof.
  unfold NewClient. destruct (q_WithSecureTLS q).
  - case_bool_decide as Hf.
    + destruct (os_ReadFile env _) as [data|err].
      * split; [discriminate|]. by intros (_ & _ & err & [=] & _).
      * split.
        -- intros [= <-]. eauto.
        -- by intros (_ & _ & err' & [= <-] & ->).
    + split; [discriminate|]. by intros (_ & ? & _).
  - split; [discriminate|]. by intros ([=] & _).
Qed.

(** ** More on the queries *)

(** X3.  [QueryInventory] closes the session it opened, and only that:
    when [Open] fails it returns the error behind [could not open client]
    having asked for nothing else, without a [Close]; when [Open] succeeds
    the inventory is requested and [Close] is the last call made, exactly
    once, whether the inventory was got, could not be encoded or could not
    be fetched.  Either way the open connections are those it found. *)
Theorem QueryInventory_closes_what_it_opened (env : Env)
    (client : bmclib_Client) (q : QueryParams) (w : World) :
  let url := c_url client in
  let run := QueryInventory env client q w in
  conns run.2 = conns w ∧
  match bmclib_Open env (PreferProvider client (q_Preferred q)) with
  | Some err =>
    run.1 = Returns (Err ("could not open client: " +:+ err)) ∧
    calls run.2 =
      calls w ++ [CFilterForCompatible url; COpen url (Some (q_Preferred q))]
  | None =>
    ∃ printed,
      calls run.2 =
        calls w ++ [CFilterForCompatible url; COpen url (Some (q_Preferred q));
                    CInventory url] ++ printed ++ [CClose url] ∧
      (printed = [] ∨
       ∃ b, q_Verbose q = true ∧ run.1 = Returns (Ok b) ∧ printed = [CPrintf b])
  end.
Proof.
  intros url run. split; [apply QueryInventory_conns|].
  subst run url. unfold QueryInventory. unfold_M. simpl.
  destruct (bmclib_Open env _); simpl.
  { by rewrite <- app_assoc. }
  destruct (bmclib_Inventory env _) as [inventory|]; simpl.
  - destruct (json_MarshalIndent_field _ _) as [b|] eqn:Hb; simpl.
    + destruct (q_Verbose q) eqn:Hv; simpl.
      * exists [CPrintf b]. rewrite <- !app_assoc. split; [done|].
        right. by exists b.
      * exists []. rewrite <- !app_assoc. split; [done|]. by left.
    + exists []. rewrite <- !app_assoc. split; [done|]. by left.
  - exists []. rewrite <- !app_assoc. split; [done|]. by left.
Qed.

Lemma connectGofish_nil env q w e :
  gofish_Connect env (makeGofishConfig q) = (None, e) →
  (connectGofish env q w).1 = Panics nil_dereference.
Proof. intros H. unfold connectGofish. unfold_M. by rewrite H. Qed.

(** X4.  When [gofish.Connect] gives back a nil client, which is what it
    does when it fails, [connectGofish] panics on the nil pointer before
    its caller sees the error: [QueryChassis], [QueryEthernetInterfaces]
    and [QuerySystems] panic instead of returning [could not connect to
    bmc], and a worker that makes the Chassis query then brings the whole
    process down: after its step no goroutine moves. *)
Theorem nil_gofish_client_panics (env : Env) (q : QueryParams)
    (client : bmclib_Client) (e : option error) :
  gofish_Connect env (makeGofishConfig q) = (None, e) →
  (∀ w, (QueryChassis env q w).1 = Panics nil_dereference ∧
        (QueryEthernetInterfaces env client q w).1 = Panics nil_dereference ∧
        (QuerySystems env q w).1 = Panics nil_dereference) ∧
  (∀ st i ps data rm,
     panicked st = None → sh_q (shared st) = q →
     workers st !! i = Some (WChassis ps client data rm) →
     ∃ st', step env (TWorker i) st = Some st' ∧
            panicked st' = Some nil_dereference ∧
            ∀ t, step env t st' = None).
Proof.
  intros H.
  assert (∀ w, (QueryChassis env q w).1 = Panics nil_dereference) as Hc.
  { intros w. pose proof (connectGofish_nil env q w e H) as Hn.
    unfold QueryChassis. unfold mbind, ST_bind.
    by destruct (connectGofish env q w) as [[[c' err]|msg] w1];
      simpl in Hn; simplify_eq. }
  split.
  - intros w. split; [apply Hc|]. split.
    + pose proof (connectGofish_nil env q w e H) as Hn.
      unfold QueryEthernetInterfaces. unfold mbind, ST_bind.
      by destruct (connectGofish env q w) as [[[c' err]|msg] w1];
        simpl in Hn; simplify_eq.
    + pose proof (connectGofish_nil env q w e H) as Hn.
      unfold QuerySystems. unfold mbind, ST_bind.
      by destruct (connectGofish env q w) as [[[c' err]|msg] w1];
        simpl in Hn; simplify_eq.
  - intros st i ps data rm Hp Hq Hw.
    specialize (Hc (sh_world (shared st))).
    unfold step. rewrite Hp, Hw. cbn [mbind option_bind worker_step].
    unfold_M. rewrite Hq.
    destruct (QueryChassis env q (sh_world (shared st))) as [r w1].
    simpl in Hc. subst r. eexists. split; [reflexivity|].
    split; [done|]. intros t. unfold step. done.
Qed.

Lemma nil_gofish_client_panics_witness :
  (QueryChassis env_gofish_down (set_host_port q1 "H1" 443) world0).1
    = Panics nil_dereference ∧
  ∃ st st',
    run env_gofish_down (replicate 3 TMain ++ replicate 5 (TWorker 0))
      (process0 (Some [H1_443]) q1) = Some st ∧
    step env_gofish_down (TWorker 0) st = Some st' ∧
    panicked st' = Some nil_dereference.
Proof.
  pose (q := set_host_port q1 "H1" 443).
  pose (client := mkClient "https://root:pw@H1" "root" "pw" (base_opts q)
                    [mkDriver "gofish" "redfish"] None).
  destruct (nil_gofish_client_panics env_gofish_down q client
              (Some "connection refused") eq_refl) as [Hq Hst].
  split; [exact (proj1 (Hq world0))|].
  eassert (Hrun : run env_gofish_down
                    (replicate 3 TMain ++ replicate 5 (TWorker 0))
                    (process0 (Some [H1_443]) q1) = Some _).
  { vm_compute. reflexivity. }
  match type of Hrun with _ = Some ?st =>
    destruct (Hst st 0%nat H1_443
                (<["Inventory" := ARaw (Some (JString "device"))]>
                   (init_data (shared st) H1_443))
                {[ "Inventory" := JString "device" ]} eq_refl eq_refl)
      as (st' & Hstep & Hpan & _)
  end.
  { vm_compute. reflexivity. }
  eexists _, st'. split; [exact Hrun|]. split; [exact Hstep|exact Hpan].
Defined.

Lemma connectGofish_panic env q w msg w' :
  connectGofish env q w = (Panics msg, w') → msg = nil_dereference.
Proof.
  unfold connectGofish. unfold_M.
  destruct (gofish_Connect env _) as [[c|] [err|]]; simpl; by intros [= <- _].
Qed.

Lemma gofish_query_panic env q connect_msg fetch_call fetch fetch_msg key
    w msg w' :
  gofish_query env q connect_msg fetch_call fetch fetch_msg key w
    = (Panics msg, w') →
  msg = nil_dereference.
Proof.
  unfold gofish_query. unfold mbind at 1, ST_bind at 1.
  destruct (connectGofish env q w) as [[[c [err|]]|msg'] w1] eqn:Hc.
  - unfold_M. done.
  - unfold_M. simpl. destruct (fetch c); simpl; [|done].
    destruct (json_MarshalIndent_field _ _); simpl; [|done].
    by destruct (q_Verbose q).
  - intros [= <- _]. by eapply connectGofish_panic.
Qed.

(** X5.  A turn of the loop never ends the goroutine: run alone from a
    received probe result, the worker is back at the receive after at most
    eleven steps, whatever failed on the way, unless it panicked, and the
    one panic a turn can raise is the nil dereference of [connectGofish]. *)
Theorem turn_ends_at_the_receive_or_panics (env : Env) (ps : BMCProbeResult)
    (s : Shared) :
  let run := collect_host env ps s in
  (length run.1.1 ≤ 11)%nat ∧
  (run.1.2 = Returns WRecv ∨ run.1.2 = Panics nil_dereference).
Proof.
  intros run.
  destruct (collect_host env ps s) as [[tr r] s'] eqn:Hrun.
  apply collect_host_run in Hrun. subst run. cbn [fst snd].
  destruct Hrun; (split; [cbn; lia|]); try (by left); right; f_equal.
  - match goal with H : QueryChassis _ _ _ = _ |- _ =>
      rewrite QueryChassis_shape in H; by eapply gofish_query_panic end.
  - match goal with H : QueryEthernetInterfaces _ _ _ _ = _ |- _ =>
      rewrite QueryEthernetInterfaces_shape in H;
      by eapply gofish_query_panic end.
  - match goal with H : QuerySystems _ _ _ = (Panics _, _) |- _ =>
      rewrite QuerySystems_shape in H; by eapply gofish_query_panic end.
Qed.

(** ** The record of a host, once more *)



(** What was written is the encoding of the [data] of the loop, filled from
    what the four queries gave; the queries that succeeded gave an object
    with their one key. *)
Lemma written_data env ps s name b :
  CWriteFile name b ∈ new_calls s (collect_host env ps s).2 →
  ∃ ri bc be rs,
    b = json_MarshalIndent_data
          (data4 (init_data (entered s ps) ps) ri bc be rs) ∧
    (∀ bi, ri = Ok bi → ∃ p, bi = JObj {[ "Inventory" := p ]}) ∧
    (∃ p, bc = JObj {[ "Chassis" := p ]}) ∧
    (∃ p, be = JObj {[ "Interfaces" := p ]}) ∧
    (∀ bs, rs = Ok bs → ∃ p, bs = JObj {[ "Systems" := p ]}).
Proof.
  destruct (collect_host env ps s) as [[tr r] s'] eqn:Hrun.
  apply collect_host_run in Hrun. cbn [snd]. intros Hin.
  destruct (written_is_marshalled _ _ _ _ _ _ _ _ Hrun Hin)
    as (data' & s6' & Hw & ->). clear Hin.
  destruct Hrun.
  all: try (exfalso; unfold to_inventory in Hw; set_unfold in Hw;
            destruct_or!; discriminate).
  assert (data' = data) as ->.
  { unfold to_inventory in Hw; set_unfold in Hw; destruct_or!;
      simplify_eq; done. }
  clear Hw. subst data b.
  exists ri, bc, be, rs. split; [reflexivity|].
  split_and!.
  - intros bi ->. query_shapes. eauto.
  - query_shapes. eauto.
  - query_shapes. eauto.
  - intros bs ->. query_shapes. eauto.
Qed.

Lemma rm3_Interface ri bc be :
  (∀ bi, ri = Ok bi → ∃ p, bi = JObj {[ "Inventory" := p ]}) →
  (∃ p, bc = JObj {[ "Chassis" := p ]}) →
  (∃ p, be = JObj {[ "Interfaces" := p ]}) →
  rm3 ri bc be !! "Interface" = None.
Proof.
  intros Hi [pc ->] [pe ->]. unfold rm3, rm2, rm1.
  cbn [json_Unmarshal].
  rewrite !lookup_union_r by (by apply lookup_singleton_ne).
  destruct ri as [bi|err]; cbn [bytes_of json_Unmarshal].
  - destruct (Hi bi eq_refl) as [p ->].
    rewrite lookup_union_r by (by apply lookup_singleton_ne).
    apply lookup_empty.
  - apply lookup_empty.
Qed.

(** X7.  In every record that is written the [Interface] field is null,
    whatever [QueryEthernetInterfaces] returned: the query wraps what it got
    under the key [Interfaces] and the loop reads the key [Interface] of
    the decoded message, which is never there; the record has no
    [Interfaces] key either. *)
Theorem Interface_field_is_always_null (env : Env) (ps : BMCProbeResult)
    (s : Shared) (name : string) (b : jval) :
  CWriteFile name b ∈ new_calls s (collect_host env ps s).2 →
  ∃ m, b = JObj m ∧
       m !! "Interface" = Some JNull ∧
       m !! "Interfaces" = None.
Proof.
  intros Hin.
  destruct (written_data env ps s name b Hin)
    as (ri & bc & be & rs & -> & Hi & Hc & He & Hs).
  eexists. split; [reflexivity|]. split.
  - erewrite marshal_lookup by apply data4_Interface.
    unfold rm_get. by rewrite rm3_Interface.
  - rewrite lookup_fmap. unfold data4, data3, data2, data1, init_data.
    by rewrite !lookup_insert_ne, lookup_empty by done.
Qed.

Lemma Interface_field_is_always_null_witness :
  ∃ name m,
    CWriteFile name (JObj m) ∈
      new_calls (shared0 q1) (collect_host env_ok H1_443 (shared0 q1)).2 ∧
    m !! "Interface" = Some JNull.
Proof.
  eassert (Hin : CWriteFile _ _ ∈
                 new_calls (shared0 q1)
                   (collect_host env_ok H1_443 (shared0 q1)).2).
  { eapply (list_elem_of_lookup_2 _ 10%nat). vm_compute. reflexivity. }
  destruct (Interface_field_is_always_null env_ok H1_443 (shared0 q1) _ _ Hin)
    as (m & Hb & Hnull & _).
  exists (file_name env_ok (entered (shared0 q1) H1_443)), m.
  split; [|exact Hnull]. rewrite <- Hb. exact Hin.
Defined.

Lemma data4_fixed d ri bc be rs key :
  key ∉ ["Inventory"; "Chassis"; "Interface"; "Systems"] →
  data4 d ri bc be rs !! key = d !! key.
Proof.
  intros Hk. unfold data4, data3, data2, data1.
  rewrite !lookup_insert_ne; [done|..]; intros <-; apply Hk; set_solver.
Qed.

(** X8.  A record that is written has the eleven keys [ID], [Type],
    [Name], [FQDN], [User], [Password], [RediscoverOnUpdate], [Inventory],
    [Chassis], [Interface], [Systems] and no other.  Its [ID] is the name
    cut from [node] at the start of the turn, before the counter is moved;
    [FQDN] is the host of the probe result; [User] and [Password] are the
    credentials of [q], the password in clear; [Type] and [Name] are empty
    and [RediscoverOnUpdate] is false. *)
Theorem record_fixed_fields (env : Env) (ps : BMCProbeResult)
    (s : Shared) (name : string) (b : jval) :
  CWriteFile name b ∈ new_calls s (collect_host env ps s).2 →
  ∃ m, b = JObj m ∧
       (∀ key, is_Some (m !! key) ↔ key ∈ record_keys) ∧
       m !! "ID" = Some (JString (node_ID (sh_node s))) ∧
       m !! "FQDN" = Some (JString (Host ps)) ∧
       m !! "User" = Some (JString (q_User (sh_q s))) ∧
       m !! "Password" = Some (JString (q_Pass (sh_q s))) ∧
       m !! "Type" = Some (JString "") ∧
       m !! "Name" = Some (JString "") ∧
       m !! "RediscoverOnUpdate" = Some (JBool false).
Proof.
  intros Hin.
  destruct (written_data env ps s name b Hin)
    as (ri & bc & be & rs & -> & _).
  eexists. split; [reflexivity|]. split.
  - intros key. rewrite lookup_fmap, fmap_is_Some.
    unfold data4, data3, data2, data1, init_data, record_keys.
    rewrite !lookup_insert_is_Some', lookup_empty, is_Some_alt.
    set_unfold. naive_solver.
  - split_and!; rewrite lookup_fmap, data4_fixed by set_solver.
    all: unfold init_data.
    all: rewrite ?lookup_insert_ne by done.
    all: by rewrite lookup_insert_eq.
Qed.

Lemma record_fixed_fields_witness :
  ∃ name m,
    CWriteFile name (JObj m) ∈
      new_calls (shared0 q1) (collect_host env_ok H1_443 (shared0 q1)).2 ∧
    m !! "FQDN" = Some (JString "H1") ∧
    m !! "Password" = Some (JString "pw").
Proof.
  eassert (Hin : CWriteFile _ _ ∈
                 new_calls (shared0 q1)
                   (collect_host env_ok H1_443 (shared0 q1)).2).
  { eapply (list_elem_of_lookup_2 _ 10%nat). vm_compute. reflexivity. }
  destruct (record_fixed_fields env_ok H1_443 (shared0 q1) _ _ Hin)
    as (m & Hb & _ & _ & Hf & _ & Hp & _).
  exists (file_name env_ok (entered (shared0 q1) H1_443)), m.
  split; [|split; [exact Hf|exact Hp]]. rewrite <- Hb. exact Hin.
Defined.

(** ** The identifiers *)

Lemma string_app_cons a s t : String a s +:+ t = String a (s +:+ t).
Proof. reflexivity. Qed.

Lemma string_app_assoc a b c : (a +:+ b) +:+ c = a +:+ b +:+ c.
Proof.
  induction a as [|x a IH]; [done|]. rewrite !string_app_cons. by rewrite IH.
Qed.

Lemma string_length_app a b :
  String.length (a +:+ b) = (String.length a + String.length b)%nat.
Proof.
  induction a as [|x a IH]; [done|]. rewrite string_app_cons.
  cbn [String.length]. by rewrite IH.
Qed.

Lemma substring_app_l a b :
  String.substring 0 (String.length a) (a +:+ b) = a.
Proof.
  induction a as [|x a IH].
  - by destruct b.
  - rewrite string_app_cons. cbn [String.length String.substring].
    by rewrite IH.
Qed.

Lemma pretty_digit (d : Z) : 0 ≤ d < 10 → String.length (pretty d) = 1%nat.
Proof.
  intros Hd.
  assert (d = 0 ∨ d = 1 ∨ d = 2 ∨ d = 3 ∨ d = 4 ∨ d = 5 ∨ d = 6 ∨ d = 7 ∨
          d = 8 ∨ d = 9) as Hcases by lia.
  destruct_or!; subst d; reflexivity.
Qed.

(** The identifier is the xname of the node up to its BMC number, when
    the node number has one digit. *)
Lemma node_ID_cut (n : xnames_Node) :
  0 ≤ Node n < 10 →
  node_ID n =
    "x" +:+ pretty (Cabinet n) +:+ "c" +:+ pretty (Chassis n) +:+
    "s" +:+ pretty (ComputeModule n) +:+ "b" +:+ pretty (NodeBMC n).
Proof.
  intros Hn. unfold node_ID, slice_to, Node_String.
  set (pre := "x" +:+ pretty (Cabinet n) +:+ "c" +:+ pretty (Chassis n) +:+
              "s" +:+ pretty (ComputeModule n) +:+ "b" +:+ pretty (NodeBMC n)).
  assert ("x" +:+ pretty (Cabinet n) +:+ "c" +:+ pretty (Chassis n) +:+
          "s" +:+ pretty (ComputeModule n) +:+ "b" +:+ pretty (NodeBMC n) +:+
          "n" +:+ pretty (Node n) = pre +:+ "n" +:+ pretty (Node n)) as ->.
  { unfold pre. by rewrite !string_app_assoc. }
  rewrite string_length_app.
  replace (String.length ("n" +:+ pretty (Node n))) with 2%nat.
  - replace (String.length pre + 2 - 2)%nat with (String.length pre) by lia.
    apply substring_app_l.
  - rewrite string_app_cons. cbn [String.length].
    change ("" +:+ pretty (Node n)) with (pretty (Node n)).
    by rewrite pretty_digit.
Qed.

(** X9.  The identifier [node.String()[:len(node.String())-2]] is the
    xname of the node up to its BMC number, [x<cabinet>c<chassis>s<slot>b<bmc>]:
    the two characters that are cut are the [n] and the node number, as
    long as that number has one digit (it is 0 in [CollectInfo]).  In
    [CollectInfo], where the BMC number starts at -1 and the identifier is
    cut before the number is moved, the first identifier is
    [x1000c1s7b-1]. *)
Theorem node_ID_is_the_bmc_xname (n : xnames_Node) :
  0 ≤ Node n < 10 →
  node_ID n =
    "x" +:+ pretty (Cabinet n) +:+ "c" +:+ pretty (Chassis n) +:+
    "s" +:+ pretty (ComputeModule n) +:+ "b" +:+ pretty (NodeBMC n).
Proof. apply node_ID_cut. Qed.

Lemma node_ID_is_the_bmc_xname_witness : node_ID node0 = "x1000c1s7b-1".
Proof.
  rewrite (node_ID_is_the_bmc_xname node0); [reflexivity|].
  cbn [Node node0]. lia.
Defined.

(** ** The identifiers of the records of a run *)

Lemma written_by_app cs cs' :
  written_by (cs ++ cs') = written_by cs ++ written_by cs'.
Proof. apply omap_app. Qed.

Lemma written_by_lib lib cs :
  (∀ name b, lib (CWriteFile name b) = false) →
  Forall lib cs → written_by cs = [].
Proof.
  intros Hlib. induction 1 as [|c cs Hc _ IH]; [done|].
  unfold written_by. cbn [omap list_omap]. fold (written_by cs). rewrite IH.
  destruct c; try done. by rewrite Hlib in Hc.
Qed.

Lemma query_writes_nothing key lib Q w r w' :
  (∀ name b, lib (CWriteFile name b) = false) →
  query_ok key lib Q → Q w = (r, w') →
  written_by (calls w') = written_by (calls w).
Proof.
  intros Hlib HQ Hrun.
  destruct (query_ok_run _ _ _ _ _ _ HQ Hrun) as (cs & -> & Hall & _).
  rewrite written_by_app, (written_by_lib lib cs Hlib Hall).
  by rewrite app_nil_r.
Qed.

Lemma written_by_logged w c :
  written_by (calls (logged w c)) =
    written_by (calls w) ++
    match c with CWriteFile _ b => [b] | _ => [] end.
Proof.
  unfold logged. cbn [calls]. rewrite written_by_app. by destruct c.
Qed.

Lemma idseq_S k :
  idseq (S k) = idseq k ++ [Some (node_ID (nth_node (Z.of_nat k - 1)))].
Proof. unfold idseq. by rewrite seq_S, fmap_app. Qed.

Lemma record_ID_marshal data s :
  data !! "ID" = Some (AString s) →
  record_ID (json_MarshalIndent_data data) = Some s.
Proof.
  intros H. unfold record_ID, json_MarshalIndent_data.
  by rewrite lookup_fmap, H.
Qed.

Lemma init_data_ID s ps :
  init_data s ps !! "ID" = Some (AString (node_ID (sh_node s))).
Proof.
  unfold init_data. rewrite !lookup_insert_ne by done. apply lookup_insert_eq.
Qed.

Lemma QueryInventory_writes env client q w r w' :
  QueryInventory env client q w = (r, w') →
  written_by (calls w') = written_by (calls w).
Proof.
  by apply (query_writes_nothing "Inventory" bmclib_call), QueryInventory_ok.
Qed.

Lemma QueryChassis_writes env q w r w' :
  QueryChassis env q w = (r, w') →
  written_by (calls w') = written_by (calls w).
Proof.
  by apply (query_writes_nothing "Chassis" gofish_call), QueryChassis_ok.
Qed.

Lemma QueryEthernetInterfaces_writes env client q w r w' :
  QueryEthernetInterfaces env client q w = (r, w') →
  written_by (calls w') = written_by (calls w).
Proof.
  by apply (query_writes_nothing "Interfaces" gofish_call),
    QueryEthernetInterfaces_ok.
Qed.

Lemma QuerySystems_writes env q w r w' :
  QuerySystems env q w = (r, w') →
  written_by (calls w') = written_by (calls w).
Proof.
  by apply (query_writes_nothing "Systems" gofish_call), QuerySystems_ok.
Qed.

Ltac ids_world :=
  simpl_sh;
  repeat first
    [ rewrite written_by_logged
    | match goal with
      | H : QueryInventory _ _ _ _ = _ |- _ =>
        rewrite (QueryInventory_writes _ _ _ _ _ _ H)
      | H : QueryChassis _ _ _ = _ |- _ =>
        rewrite (QueryChassis_writes _ _ _ _ _ H)
      | H : QueryEthernetInterfaces _ _ _ _ = _ |- _ =>
        rewrite (QueryEthernetInterfaces_writes _ _ _ _ _ _ H)
      | H : QuerySystems _ _ _ = _ |- _ =>
        rewrite (QuerySystems_writes _ _ _ _ _ H)
      end ];
  rewrite ?app_nil_r.

Ltac ids_done :=
  cbn [id_ok] in *; (rewrite ?lookup_insert_ne by (done));
  repeat match goal with H : _ ∧ _ |- _ => destruct H end;
  split_and!; first [done | lia].

(** A step of a worker keeps the identifiers in order, whether it returns
    or panics. *)
Lemma wstep_ids env w s r s' :
  wstep env w s = (r, s') → w ≠ WExited →
  worker_ids_ok s w →
  worker_ids_ok s' match r with Returns w' => w' | Panics _ => w end.
Proof.
  intros Hstep Hexit (Hnode & Hids & Hok). unfold worker_ids_ok.
  destruct w; try done; cbn [id_ok] in Hok.
  - rewrite wstep_WRecv in Hstep.
    destruct (sh_chan s); [destruct (sh_chan_closed s); [case_bool_decide|]|];
      simplify_eq; simpl_sh; ids_done.
  - rewrite wstep_WSetHost in Hstep. simplify_eq. simpl_sh. ids_done.
  - rewrite wstep_WNewClient in Hstep.
    destruct (NewClient env _); simplify_eq; ids_world; ids_done.
  - rewrite wstep_WData in Hstep. simplify_eq. cbn [id_ok].
    rewrite init_data_ID. split_and!; try done. by rewrite Hnode at 1.
  - rewrite wstep_WInventory in Hstep.
    destruct (QueryInventory env _ _ _) as [[ri|msg] w'] eqn:HQ;
      cbn zeta in Hstep; simplify_eq; [destruct ri|]; ids_world;
      ids_done.
  - rewrite wstep_WChassis in Hstep.
    destruct (QueryChassis env _ _) as [[[b|err]|msg] w'] eqn:HQ;
      cbn zeta in Hstep; simplify_eq; ids_world;
      ids_done.
  - rewrite wstep_WInterfaces in Hstep.
    destruct (QueryEthernetInterfaces env _ _ _) as [[[b|err]|msg] w'] eqn:HQ;
      cbn zeta in Hstep; simplify_eq; ids_world;
      ids_done.
  - rewrite wstep_WSystems in Hstep.
    destruct (QuerySystems env _ _) as [[rs|msg] w'] eqn:HQ;
      cbn zeta in Hstep; simplify_eq; [destruct rs|]; ids_world;
      ids_done.
  - rewrite wstep_WIncr in Hstep. simplify_eq. simpl_sh. cbn [id_ok].
    destruct Hok as [Hn Hid]. rewrite Hnode. cbn [bump nth_node NodeBMC
      Cabinet Chassis ComputeModule Node].
    replace (NodeBMC (sh_node s) + 1 - 1) with (NodeBMC (sh_node s)) by lia.
    split_and!; try done. lia.
  - rewrite wstep_WWrite in Hstep. cbn zeta in Hstep.
    destruct Hok as [Hn Hid].
    assert (written_by (calls (sh_world s')) =
            written_by (calls (sh_world s)) ++ [json_MarshalIndent_data data])
      as Hw.
    { destruct (os_WriteFile env _ _); simplify_eq; ids_world; done. }
    assert (sh_node s' = sh_node s) as Hn'
      by (destruct (os_WriteFile env _ _); by simplify_eq).
    assert (r = Returns (WForward ps (json_MarshalIndent_data data))) as ->
      by (destruct (os_WriteFile env _ _); by simplify_eq).
    rewrite Hw, Hn', fmap_app, length_app, Nat.add_1_r, idseq_S, Hids.
    cbn [id_ok length fmap list_fmap]. split_and!; try done; [|lia].
    f_equal. rewrite (record_ID_marshal _ _ Hid). do 4 f_equal. lia.
  - rewrite wstep_WForward in Hstep. cbn zeta in Hstep.
    destruct (smd_AddRedfishEndpoint env _ _); simplify_eq; ids_world; ids_done.
  - rewrite wstep_WFound in Hstep. simplify_eq. simpl_sh. ids_done.
Qed.

Lemma started_ids env q :
  sh_node (started env (shared0 q)) = node0 ∧
  written_by (calls (sh_world (started env (shared0 q)))) = [].
Proof.
  unfold started. by destruct (util_MakeOutputDirectory env _) as [? []].
Qed.

Lemma step_id_inv env q t st st' :
  q_Threads q = 1 →
  step env t st = Some st' → id_inv q st → id_inv q st'.
Proof.
  intros Hq Hstep Hinv. unfold id_inv in *. destruct t.
  - apply step_main in Hstep as (Hpan & Hne & Hstep).
    destruct st as [s m ws d pa].
    cbn [main shared workers doneg panicked] in *. subst pa.
    destruct m as [[[|p l']|]|[|p rest']|p rest'| | | | |err].
    2: { destruct Hinv as [(-> & _ & Hs0)|(w & _ & _ & Hm)];
           [|by destruct (Hm _ eq_refl)].
         destruct (Hs0 _ eq_refl) as [-> ->]. rewrite mstep_MStart in Hstep.
         cbn zeta in Hstep. cbn [sh_wg sh_q shared0] in Hstep.
         rewrite Hq in Hstep.
         rewrite bool_decide_false in Hstep by lia.
         rewrite bool_decide_false in Hstep by lia.
         subst st'. cbn [main shared workers]. right. exists WRecv.
         split; [done|]. split; [|done].
         destruct (started_ids env q) as [Hn Hw].
         unfold worker_ids_ok. simpl_sh. rewrite Hn, Hw. by cbn. }
    all: first [ rewrite mstep_MStart_none in Hstep by auto
               | rewrite mstep_MRange_nil in Hstep
               | rewrite mstep_MRange in Hstep
               | rewrite mstep_MSend in Hstep
               | rewrite mstep_MGoDone in Hstep
               | rewrite mstep_MClose in Hstep
               | rewrite mstep_MWait in Hstep
               | rewrite mstep_MCloseDone in Hstep
               | by destruct (Hne err) ].
    all: repeat match type of Hstep with
         | context [bool_decide ?P] => destruct (bool_decide P)
         | context [negb ?a || ?b] => destruct (negb a || b)
         end.
    all: subst st'; cbn [main shared workers]; rewrite app_nil_r.
    all: unfold worker_ids_ok in *; simpl_sh.
    all: destruct Hinv as [(Hws & (Hn & Hids & Hid) & Hs0)
                          |(w & Hws & (Hn & Hids & Hid) & Hm)];
      [left; split_and!; done|right; exists w; split_and!; try done].
    all: by destruct (Hm _ eq_refl).
  - apply step_worker in Hstep as (Hpan & w & Hw & Hexit & Hstep).
    destruct Hinv as [(Hws & _)|(w0 & Hws & Hok & Hm)];
      [by rewrite Hws in Hw|].
    rewrite Hws in Hw. destruct i as [|i]; [|done].
    cbn in Hw. simplify_eq.
    destruct (wstep env w (shared st)) as [r s'] eqn:Hr.
    pose proof (wstep_ids env w _ _ _ Hr Hexit Hok) as Hok'.
    right. destruct r as [w'|msg]; subst st'; cbn [main shared workers].
    + exists w'. rewrite Hws. done.
    + exists w. done.
  - apply step_done in Hstep as (Hpan & Hdg & Hstep).
    rewrite dstep_DSelect in Hstep.
    destruct (sh_done_closed (shared st)); [case_bool_decide|];
      subst st'; cbn [main shared workers].
    all: unfold worker_ids_ok in *; simpl_sh.
    all: destruct Hinv as [(Hws & (Hn & Hids & Hid) & Hs0)
                          |(w & Hws & (Hn & Hids & Hid) & Hm)];
      [left|right; exists w; done].
    all: split_and!; try done.
    all: intros l Hl; destruct (Hs0 _ Hl) as [_ Hd]; congruence.
Qed.

Lemma reachable_id_inv env probeStates q st :
  q_Threads q = 1 → reachable env probeStates q st → id_inv q st.
Proof.
  intros Hq [sched Hrun].
  eapply (run_invariant env (id_inv q)); [| |exact Hrun].
  - intros t st1 st2. by apply step_id_inv.
  - left. unfold worker_ids_ok. cbn. split_and!; done.
Qed.

Lemma node_ID_nth j : node_ID (nth_node j) = "x1000c1s7b" +:+ pretty j.
Proof. rewrite node_ID_cut; [reflexivity|]. cbn. lia. Qed.

Lemma idseq_NoDup k : NoDup (idseq k).
Proof.
  unfold idseq. apply NoDup_fmap_2; [|apply NoDup_seq].
  intros j1 j2. rewrite !node_ID_nth. intros [= H].
  apply (inj _) in H. apply (inj _) in H. lia.
Qed.

(** X10.  With one worker ([q.Threads = 1]) the records of a run carry
    pairwise distinct identifiers: whatever the schedule, the records
    written so far have the identifiers [x1000c1s7b-1], [x1000c1s7b0],
    [x1000c1s7b1], ... in the order they were written, the worker cutting
    the identifier from [node] at the start of a turn and moving the
    counter once before it writes. *)
Theorem single_worker_ids_are_distinct (env : Env)
    (probeStates : option (list BMCProbeResult)) (q : QueryParams)
    (st : Process) :
  q_Threads q = 1 →
  reachable env probeStates q st →
  record_ID <$> written st =
    (λ j : nat, Some ("x1000c1s7b" +:+ pretty (Z.of_nat j - 1)))
      <$> seq 0 (length (written st)) ∧
  NoDup (record_ID <$> written st).
Proof.
  intros Hq Hr. apply (reachable_id_inv env probeStates q st Hq) in Hr.
  assert (record_ID <$> written st = idseq (length (written st))) as Hids.
  { by destruct Hr as [(_ & (_ & H & _) & _)|(w & _ & (_ & H & _) & _)]. }
  split.
  - rewrite Hids. unfold idseq. apply list_fmap_ext.
    intros i j _. by rewrite node_ID_nth.
  - rewrite Hids. apply idseq_NoDup.
Qed.

Lemma single_worker_ids_are_distinct_witness :
  ∃ st, run env_ok sched_two_hosts (process0 (Some [H1_443; H2_443]) q1)
          = Some st ∧
        main st = MReturned None ∧
        record_ID <$> written st = [Some "x1000c1s7b-1"; Some "x1000c1s7b0"].
Proof.
  eassert (Hrun : run env_ok sched_two_hosts
                    (process0 (Some [H1_443; H2_443]) q1) = Some _).
  { vm_compute. reflexivity. }
  eexists. split; [exact Hrun|]. split; [reflexivity|].
  destruct (single_worker_ids_are_distinct env_ok _ q1 _ eq_refl
              (ex_intro _ _ Hrun)) as [H _].
  etrans; [exact H|]. vm_compute. reflexivity.
Defined.

(** ** The join *)

Lemma running_app ws ws' : running (ws ++ ws') = (running ws + running ws')%nat.
Proof. unfold running. by rewrite filter_app, length_app. Qed.

Lemma running_cons w ws :
  running (w :: ws) = ((if is_running w then 1 else 0) + running ws)%nat.
Proof.
  unfold running. destruct (is_running w) eqn:Hw.
  - rewrite filter_cons_True by (rewrite Hw; exact I). done.
  - rewrite filter_cons_False by (rewrite Hw; exact id). done.
Qed.

Lemma running_replicate n : running (replicate n WRecv) = n.
Proof.
  induction n as [|n IH]; [done|]. cbn [replicate].
  rewrite running_cons, IH. done.
Qed.

Lemma running_insert ws i w w' :
  ws !! i = Some w →
  (running (<[i := w']> ws) + (if is_running w then 1 else 0) =
   running ws + (if is_running w' then 1 else 0))%nat.
Proof.
  revert i. induction ws as [|x ws IH]; intros [|i]; try done.
  - intros [= ->]. change (<[0%nat:=w']> (w :: ws)) with (w' :: ws).
    rewrite !running_cons. lia.
  - intros Hi. change (ws !! i = Some w) in Hi.
    change (<[S i:=w']> (x :: ws)) with (x :: <[i:=w']> ws).
    rewrite !running_cons. specialize (IH i Hi). lia.
Qed.

Lemma running_0 ws : running ws = O → Forall (λ w, w = WExited) ws.
Proof.
  induction ws as [|w ws IH]; [constructor|]. rewrite running_cons.
  destruct w; cbn [is_running]; try lia. intros H. constructor; [done|].
  apply IH. lia.
Qed.

Lemma running_lookup ws i w :
  ws !! i = Some w → w ≠ WExited → (1 ≤ running ws)%nat.
Proof.
  intros Hi Hw. pose proof (running_insert ws i w WExited Hi) as H.
  destruct w; cbn [is_running] in H; try done; lia.
Qed.

Lemma elem_of_insert_inv {A} (l : list A) i x y :
  x ∈ <[i := y]> l → x = y ∨ x ∈ l.
Proof.
  intros [j Hj]%list_elem_of_lookup_1.
  apply list_lookup_insert_Some in Hj as [(_ & -> & _)|[_ Hj]]; [by left|].
  right. by eapply list_elem_of_lookup_2.
Qed.

Lemma started_sync env s :
  sh_chan (started env s) = sh_chan s ∧
  sh_chan_closed (started env s) = sh_chan_closed s ∧
  sh_wg (started env s) = sh_wg s ∧
  sh_done_closed (started env s) = sh_done_closed s.
Proof.
  unfold started. by destruct (util_MakeOutputDirectory env _) as [? []].
Qed.

Ltac join_split :=
  split_and!; try done; try (by intros ?%elem_of_nil);
  try (by match goal with K : _ ∧ _ |- _ => destruct K end).

Lemma join_inv_init probeStates q : join_inv q (process0 probeStates q).
Proof. unfold join_inv. cbn. join_split. Qed.

Ltac join_fields :=
  cbn [main shared workers doneg panicked spawned joined closing] in *;
  simpl_sh.

Lemma step_join_inv env q t st st' :
  step env t st = Some st' → join_inv q st → join_inv q st'.
Proof.
  intros Hstep (K1 & K2 & K3 & K4 & K5 & K6 & K7 & K8). unfold join_inv.
  destruct t.
  - apply step_main in Hstep as (Hpan & Hne & Hstep).
    destruct st as [s m ws d pa]. join_fields. subst pa.
    destruct m as [[[|p l']|]|[|p rest']|p rest'| | | | |err]; join_fields.
    + destruct K1 as [-> Hs0]. destruct (Hs0 _ eq_refl eq_refl) as [-> ->].
      rewrite mstep_MStart_none in Hstep by auto. subst st'. join_fields.
      join_split.
    + destruct K1 as [-> Hs0]. destruct (Hs0 _ eq_refl eq_refl) as [-> ->].
      rewrite mstep_MStart in Hstep. cbn zeta in Hstep.
      destruct (started_sync env (shared0 q)) as (Hc & Hcc & Hwg & Hdc).
      cbn [sh_wg sh_q sh_chan sh_chan_closed sh_done_closed shared0]
        in Hstep, Hc, Hcc, Hwg, Hdc.
      repeat case_bool_decide; subst st'; join_fields;
        rewrite ?Hc, ?Hcc, ?Hwg, ?Hdc.
      * join_split.
      * join_split.
      * cbn [app]. rewrite length_replicate, running_replicate.
        join_split; try lia.
        by intros ?%elem_of_replicate_inv.
    + destruct K1 as [-> Hs0]. destruct (Hs0 _ eq_refl eq_refl) as [-> ->].
      rewrite mstep_MStart_none in Hstep by auto. subst st'. join_fields.
      join_split.
    + rewrite mstep_MRange_nil in Hstep. subst st'. join_fields.
      rewrite app_nil_r. join_split.
      all: intros Hd; by apply K3 in Hd.
    + rewrite mstep_MRange in Hstep.
      destruct (negb (State p) || _); subst st'; join_fields;
        rewrite app_nil_r; join_split.
      all: intros Hd; by apply K3 in Hd.
    + rewrite mstep_MSend in Hstep.
      case_bool_decide; subst st'; join_fields;
        rewrite app_nil_r; join_split.
      all: try (intros Hd; by apply K3 in Hd).
      intros Hex. destruct (K5 Hex) as [Hcl _]. by apply K6 in Hcl.
    + rewrite mstep_MGoDone in Hstep. subst st'. join_fields.
      rewrite app_nil_r. join_split.
      all: intros Hd; by apply K3 in Hd.
    + rewrite mstep_MClose in Hstep. subst st'. join_fields.
      rewrite app_nil_r. join_split.
      all: try (intros Hd; by apply K3 in Hd).
      intros Hex. destruct (K5 Hex) as [Hcl _]. by apply K6 in Hcl.
    + rewrite mstep_MWait in Hstep.
      case_bool_decide as Hz; subst st'; join_fields;
        rewrite app_nil_r; join_split.
      all: try (intros Hd; by apply K3 in Hd).
      intros _. destruct (sh_done_closed s) eqn:Hd; [by specialize (K3 eq_refl)|].
      specialize (K2 eq_refl eq_refl). lia.
    + rewrite mstep_MCloseDone in Hstep. subst st'. join_fields.
      rewrite app_nil_r. join_split.
      intros _ _. destruct (sh_done_closed s) eqn:Hd; [by specialize (K3 eq_refl)|].
      specialize (K2 eq_refl eq_refl). specialize (K4 eq_refl). lia.
    + by destruct (Hne err).
  - apply step_worker in Hstep as (Hpan & w & Hw & Hexit & Hstep).
    destruct st as [s m ws d pa]. join_fields. subst pa.
    assert (joined m = false) as Hj.
    { destruct (joined m) eqn:Hj; [|done].
      pose proof (running_lookup _ _ _ Hw Hexit). specialize (K4 eq_refl). lia. }
    assert (spawned m = true) as Hsp.
    { destruct (spawned m); [done|]. destruct K1 as [K1 _].
      by rewrite K1 in Hw. }
    assert (sh_done_closed s = false) as Hdc.
    { destruct (sh_done_closed s) eqn:Hd; [|done].
      specialize (K3 eq_refl). by rewrite K3 in Hj. }
    rewrite Hsp in K1. specialize (K2 Hdc Hsp). clear K3 K7.
    destruct (decide (phase w = PRecv)) as [Hrecv|Hrecv].
    + destruct w; try done. rewrite wstep_WRecv in Hstep.
      pose proof (running_lookup _ _ _ Hw Hexit) as Hrun.
      destruct (sh_chan s) as [|ps rest] eqn:Hc.
      * destruct (sh_chan_closed s) eqn:Hcc; [case_bool_decide|];
          subst st'; join_fields;
          rewrite ?Hsp, ?Hj, ?Hc, ?Hcc, ?Hdc, ?length_insert.
        -- lia.
        -- pose proof (running_insert _ _ _ WExited Hw) as Hi.
           cbn [is_running] in Hi. join_split. intros _ _. lia.
        -- pose proof (running_insert _ _ _ WRecv Hw) as Hi.
           cbn [is_running] in Hi. join_split.
           ++ intros _ _. lia.
           ++ intros [?|Hex]%elem_of_insert_inv; [done|].
              by destruct (K5 Hex).
      * subst st'. join_fields.
        rewrite ?Hsp, ?Hj, ?Hdc, ?length_insert.
        pose proof (running_insert _ _ _ (WSetHost ps) Hw) as Hi.
        cbn [is_running] in Hi. join_split.
        -- intros _ _. lia.
        -- intros [?|Hex]%elem_of_insert_inv; [done|].
           by destruct (K5 Hex).
    + destruct (wstep env w s) as [r s'] eqn:Hr.
      destruct (wstep_frame env w _ _ _ Hr)
        as (Hch & Hcc & Hwg & Hd & _ & Hr'); [by intros ->|done|].
      destruct r as [w'|msg]; subst st'; join_fields;
        rewrite ?Hch, ?Hcc, ?Hwg, ?Hd, ?Hsp, ?Hj, ?Hdc, ?length_insert.
      * destruct Hr' as [_ Hw'].
        pose proof (running_insert _ _ _ w' Hw) as Hi.
        assert (is_running w = true) as Hrw by (by destruct w).
        assert (is_running w' = true) as Hrw' by (by destruct w').
        rewrite Hrw, Hrw' in Hi. join_split.
        -- intros _ _. lia.
        -- intros [?|Hex]%elem_of_insert_inv; [done|]. by apply K5.
      * join_split.
  - apply step_done in Hstep as (Hpan & Hdg & Hstep).
    destruct st as [s m ws d pa]. join_fields. subst pa d.
    rewrite dstep_DSelect in Hstep.
    destruct (sh_done_closed s) eqn:Hdc; [case_bool_decide|];
      subst st'; join_fields; rewrite ?Hdc.
    + join_split.
      destruct (spawned m); [done|]. destruct K1 as [K1 K1']. split; [done|].
      intros l ->. by specialize (K3 eq_refl).
    + specialize (K7 eq_refl eq_refl). lia.
    + join_split.
      destruct (spawned m); [done|]. destruct K1 as [K1 K1']. split; [done|].
      intros l -> _. by destruct (K1' _ eq_refl eq_refl).
Qed.

Lemma reachable_join_inv env probeStates q st :
  reachable env probeStates q st → join_inv q st.
Proof.
  intros [sched Hrun].
  eapply (run_invariant env (join_inv q)); [|apply join_inv_init|exact Hrun].
  intros t st1 st2. apply step_join_inv.
Qed.

(** X11.  While [done] is open, the counter of the wait group is the number
    of workers that have not returned: [wg.Add(q.Threads)] sets it before
    the workers start, each worker takes one off when it finds the channel
    closed and empty, just before it returns, and nothing else touches it.
    In particular no worker ever drives it below zero. *)
Theorem wait_group_counts_running_workers (env : Env)
    (probeStates : option (list BMCProbeResult)) (q : QueryParams)
    (st : Process) :
  reachable env probeStates q st →
  spawned (main st) = true →
  sh_done_closed (shared st) = false →
  sh_wg (shared st) = Z.of_nat (running (workers st)).
Proof.
  intros Hr Hsp Hd. apply reachable_join_inv in Hr.
  destruct Hr as (_ & K2 & _). by apply K2.
Qed.

Lemma wait_group_counts_running_workers_witness :
  ∃ st, run env_ok (replicate 6 TMain) (process0 (Some [H1_443]) q1) = Some st ∧
        main st = MWait ∧
        sh_wg (shared st) = 1.
Proof.
  eassert (Hrun : run env_ok (replicate 6 TMain)
                    (process0 (Some [H1_443]) q1) = Some _).
  { vm_compute. reflexivity. }
  eexists. split; [exact Hrun|]. split; [reflexivity|].
  exact (wait_group_counts_running_workers env_ok _ q1 _
           (ex_intro _ _ Hrun) eq_refl eq_refl).
Defined.

(** X12.  [CollectInfo] returns nil only after the join: by then the
    channel is closed, there are [q.Threads] workers and every one of them
    has returned; and when there is a worker at all the channel has been
    drained. *)
Theorem CollectInfo_returns_after_its_workers (env : Env)
    (probeStates : option (list BMCProbeResult)) (q : QueryParams)
    (st : Process) :
  reachable env probeStates q st →
  main st = MReturned None →
  length (workers st) = Z.to_nat (q_Threads q) ∧
  Forall (λ w, w = WExited) (workers st) ∧
  sh_chan_closed (shared st) = true ∧
  (0 < q_Threads q → sh_chan (shared st) = []).
Proof.
  intros Hr Hm. apply reachable_join_inv in Hr.
  destruct Hr as (K1 & _ & _ & K4 & K5 & _ & _ & K8).
  rewrite Hm in K1, K4, K8. cbn [spawned joined closing] in K1, K4, K8.
  destruct K1 as [Hlen Hpos]. specialize (K4 eq_refl).
  pose proof (running_0 _ K4) as Hall.
  split; [done|]. split; [done|]. split; [by apply K8|].
  intros Hth. apply K5.
  destruct (workers st) as [|w ws]; [cbn in Hlen; lia|].
  apply Forall_cons in Hall as [-> _]. by left.
Qed.

Lemma CollectInfo_returns_after_its_workers_witness :
  ∃ st, run env_ok sched_done_last (process0 (Some [H1_443]) q1) = Some st ∧
        main st = MReturned None ∧
        workers st = [WExited] ∧
        sh_chan (shared st) = [].
Proof.
  eassert (Hrun : run env_ok sched_done_last
                    (process0 (Some [H1_443]) q1) = Some _).
  { vm_compute. reflexivity. }
  eexists. split; [exact Hrun|]. split; [reflexivity|].
  split; [reflexivity|].
  destruct (CollectInfo_returns_after_its_workers env_ok _ q1 _
              (ex_intro _ _ Hrun) eq_refl) as (_ & _ & _ & Hch).
  apply Hch. reflexivity.
Defined.

(** X13.  The goroutine started at line 285 is a second signal on the wait
    group.  Scheduled before [close(done)] it finds nothing to receive,
    sleeps and ends.  Scheduled after [close(done)], its receive on the
    closed channel succeeds and it calls [wg.Done()] on a counter that is
    zero by then: the process panics with a negative counter. *)
Theorem done_goroutine_after_close_panics (env : Env)
    (probeStates : option (list BMCProbeResult)) (q : QueryParams)
    (st : Process) :
  reachable env probeStates q st →
  doneg st = DSelect →
  panicked st = None →
  if sh_done_closed (shared st)
  then ∃ st', step env TDone st = Some st' ∧
              panicked st' = Some "sync: negative WaitGroup counter"
  else step env TDone st =
         Some (mkProcess (shared st) (main st) (workers st) DExited None).
Proof.
  intros Hr Hd Hp. apply reachable_join_inv in Hr.
  destruct Hr as (_ & _ & _ & _ & _ & _ & K7 & _).
  unfold step. rewrite Hp, Hd. cbn [done_step mbind option_bind].
  unfold_M. unfold wg_Done, wg_Add.
  destruct (sh_done_closed (shared st)) eqn:Hdc; [|done].
  rewrite (K7 eq_refl Hp). rewrite bool_decide_true by lia.
  eexists. split; [reflexivity|]. done.
Qed.

Lemma done_goroutine_after_close_panics_witness :
  ∃ st st', run env_ok sched_done_last (process0 (Some [H1_443]) q1) = Some st ∧
            main st = MReturned None ∧
            step env_ok TDone st = Some st' ∧
            panicked st' = Some "sync: negative WaitGroup counter".
Proof.
  eassert (Hrun : run env_ok sched_done_last
                    (process0 (Some [H1_443]) q1) = Some _).
  { vm_compute. reflexivity. }
  destruct (done_goroutine_after_close_panics env_ok _ q1 _
              (ex_intro _ _ Hrun) eq_refl eq_refl) as (st' & Hstep & Hpan).
  eexists _, st'. split; [exact Hrun|]. split; [reflexivity|].
  split; [exact Hstep|exact Hpan].
Defined.

(** ** [CollectInfo] at the edges of its input *)

Lemma step_no_worker env i st : workers st = [] → step env (TWorker i) st = None.
Proof.
  intros H. unfold step. destruct (panicked st); [done|]. by rewrite H.
Qed.

Lemma step_not_started env st : doneg st = DNone → step env TDone st = None.
Proof.
  intros H. unfold step. destruct (panicked st); [done|]. by rewrite H.
Qed.

Lemma step_returned env t st err :
  main st = MReturned err → workers st = [] → doneg st = DNone →
  step env t st = None.
Proof.
  intros Hm Hw Hd. destruct t.
  - unfold step. destruct (panicked st); [done|]. by rewrite Hm.
  - by apply step_no_worker.
  - by apply step_not_started.
Qed.

Lemma step_panicked env t st msg : panicked st = Some msg → step env t st = None.
Proof. intros H. unfold step. by rewrite H. Qed.

(** X14.  Given no probe states, a nil pointer or an empty slice,
    [CollectInfo] returns the error [no probe states found] at once: it
    starts no goroutine, does not make the output directory, logs nothing
    and leaves [*q] as it was. *)
Theorem CollectInfo_without_probe_states (env : Env)
    (probeStates : option (list BMCProbeResult)) (q : QueryParams) :
  probeStates = None ∨ probeStates = Some [] →
  step env TMain (process0 probeStates q) = Some (no_probe_states q) ∧
  ∀ st, reachable env probeStates q st →
    st = process0 probeStates q ∨ st = no_probe_states q.
Proof.
  intros Hnone.
  assert (step env TMain (process0 probeStates q) = Some (no_probe_states q))
    as Hfirst by (by destruct Hnone as [-> | ->]).
  split; [done|]. intros st [sched Hrun].
  eapply (run_invariant env
            (λ st, st = process0 probeStates q ∨ st = no_probe_states q));
    [|by left|exact Hrun].
  intros t st1 st2 Hstep [-> | ->].
  - destruct t.
    + rewrite Hfirst in Hstep. right. congruence.
    + by rewrite step_no_worker in Hstep.
    + by rewrite step_not_started in Hstep.
  - by rewrite (step_returned env t _ (Some "no probe states found")) in Hstep.
Qed.

Lemma CollectInfo_without_probe_states_witness :
  run env_ok [TMain] (process0 (Some []) q1) = Some (no_probe_states q1) ∧
  run env_ok [TMain; TMain] (process0 None q1) = None.
Proof.
  destruct (CollectInfo_without_probe_states env_ok (Some []) q1
              (or_intror eq_refl)) as [H1 _].
  destruct (CollectInfo_without_probe_states env_ok None q1
              (or_introl eq_refl)) as [H2 _].
  split.
  - cbn [run]. rewrite H1. reflexivity.
  - cbn [run]. rewrite H2. reflexivity.
Defined.

(** X15.  With a negative [q.Threads] and at least one probe state,
    [CollectInfo] panics before it starts any worker: making the channels
    with the negative capacity [q.Threads+1] panics, and for
    [q.Threads = -1], where that capacity is zero, [wg.Add(-1)] on the
    fresh wait group does.  Nothing else ever happens in such a run. *)
Theorem CollectInfo_negative_threads_panics (env : Env) (p : BMCProbeResult)
    (l : list BMCProbeResult) (q : QueryParams) :
  q_Threads q < 0 →
  ∃ st1,
    step env TMain (process0 (Some (p :: l)) q) = Some st1 ∧
    panicked st1 =
      Some (if bool_decide (q_Threads q = -1)
            then "sync: negative WaitGroup counter"
            else "makechan: size out of range") ∧
    workers st1 = [] ∧
    ∀ st, reachable env (Some (p :: l)) q st →
      st = process0 (Some (p :: l)) q ∨ st = st1.
Proof.
  intros Hneg.
  assert (∃ st1, step env TMain (process0 (Some (p :: l)) q) = Some st1 ∧
                 panicked st1 =
                   Some (if bool_decide (q_Threads q = -1)
                         then "sync: negative WaitGroup counter"
                         else "makechan: size out of range") ∧
                 workers st1 = []) as (st1 & Hfirst & Hpan & Hws).
  { destruct (step env TMain (process0 (Some (p :: l)) q)) as [st1|] eqn:Hs;
      [|done].
    exists st1. split; [done|].
    apply step_main in Hs as (_ & _ & Hs).
    cbn [main shared workers doneg process0] in Hs.
    rewrite mstep_MStart in Hs. cbn zeta in Hs.
    cbn [sh_wg sh_q shared0] in Hs.
    repeat case_bool_decide; subst st1; cbn [panicked workers]; done || lia. }
  exists st1. split; [done|]. split; [done|]. split; [done|].
  intros st [sched Hrun].
  eapply (run_invariant env
            (λ st, st = process0 (Some (p :: l)) q ∨ st = st1));
    [|by left|exact Hrun].
  intros t st2 st3 Hstep [-> | ->].
  - destruct t.
    + rewrite Hfirst in Hstep. right. congruence.
    + by rewrite step_no_worker in Hstep.
    + by rewrite step_not_started in Hstep.
  - by erewrite step_panicked in Hstep.
Qed.

Lemma CollectInfo_negative_threads_panics_witness :
  ∃ st1, step env_ok TMain (process0 (Some [H1_443]) (sample_q (-1) false ""))
           = Some st1 ∧
         panicked st1 = Some "sync: negative WaitGroup counter".
Proof.
  destruct (CollectInfo_negative_threads_panics env_ok H1_443 []
              (sample_q (-1) false "") ltac:(reflexivity))
    as (st1 & H1 & H2 & _).
  exists st1. split; [exact H1|exact H2].
Defined.

Lemma step_idle env q t st st' :
  q_Threads q = 0 → step env t st = Some st' → idle q st → idle q st'.
Proof.
  intros Hq Hstep (Hws & Hf & Hc & Hl & Hs0). unfold idle. destruct t.
  - apply step_main in Hstep as (Hpan & Hne & Hstep).
    destruct st as [s m ws d pa].
    cbn [main shared workers doneg panicked] in *. subst pa ws.
    destruct m as [[[|p l']|]|[|p rest']|p rest'| | | | |err].
    + rewrite mstep_MStart_none in Hstep by auto. subst st'.
      cbn [main shared workers]. by split_and!.
    + destruct (Hs0 _ eq_refl) as [-> ->]. rewrite mstep_MStart in Hstep.
      cbn zeta in Hstep. cbn [sh_wg sh_q shared0] in Hstep. rewrite Hq in Hstep.
      rewrite bool_decide_false in Hstep by lia.
      rewrite bool_decide_false in Hstep by lia.
      subst st'. cbn [main shared workers]. simpl_sh.
      unfold started.
      destruct (util_MakeOutputDirectory env _) as [out [err|]]; simpl_sh;
        cbn [shared0 sh_found sh_world calls conns logged world0 app replicate
             Z.to_nat];
        split_and!; try done.
      repeat constructor. by exists err.
    + rewrite mstep_MStart_none in Hstep by auto. subst st'.
      cbn [main shared workers]. by split_and!.
    + rewrite mstep_MRange_nil in Hstep. subst st'.
      cbn [main shared workers]. by split_and!.
    + rewrite mstep_MRange in Hstep.
      destruct (negb (State p) || _); subst st';
        cbn [main shared workers]; by split_and!.
    + rewrite mstep_MSend in Hstep.
      case_bool_decide; subst st'; cbn [main shared workers]; simpl_sh;
        by split_and!.
    + rewrite mstep_MGoDone in Hstep. subst st'.
      cbn [main shared workers]. by split_and!.
    + rewrite mstep_MClose in Hstep. subst st'.
      cbn [main shared workers]. simpl_sh. by split_and!.
    + rewrite mstep_MWait in Hstep.
      case_bool_decide; subst st'; cbn [main shared workers]; by split_and!.
    + rewrite mstep_MCloseDone in Hstep. subst st'.
      cbn [main shared workers]. simpl_sh. by split_and!.
    + by destruct (Hne err).
  - by rewrite step_no_worker in Hstep.
  - apply step_done in Hstep as (Hpan & Hdg & Hstep).
    rewrite dstep_DSelect in Hstep.
    destruct (sh_done_closed (shared st)); [case_bool_decide|];
      subst st'; cbn [main shared workers]; simpl_sh; split_and!; try done.
    all: intros l' Hl'; destruct (Hs0 _ Hl') as [_ Hd]; congruence.
Qed.

(** X16.  With [q.Threads = 0] no worker is started, so nothing is ever
    received from the channel: in every state of the run no BMC has been
    asked anything, no record has been written or forwarded, no host is in
    [found], and the only line that can have been logged is the one about
    the output directory. *)
Theorem CollectInfo_without_workers_collects_nothing (env : Env)
    (probeStates : option (list BMCProbeResult)) (q : QueryParams)
    (st : Process) :
  q_Threads q = 0 →
  reachable env probeStates q st →
  workers st = [] ∧
  sh_found (shared st) = [] ∧
  conns (sh_world (shared st)) = [] ∧
  Forall output_directory_log (calls (sh_world (shared st))).
Proof.
  intros Hq [sched Hrun].
  assert (idle q st) as (H1 & H2 & H3 & H4 & _); [|done].
  eapply (run_invariant env (idle q)); [|..|exact Hrun].
  - intros t st1 st2. by apply step_idle.
  - unfold idle. cbn. split_and!; done.
Qed.

Lemma CollectInfo_without_workers_collects_nothing_witness :
  ∃ st, run env_ok (replicate 8 TMain) (process0 (Some [H1_443]) q0) = Some st ∧
        main st = MReturned None ∧
        sh_chan (shared st) = [H1_443] ∧
        workers st = [].
Proof.
  eassert (Hrun : run env_ok (replicate 8 TMain)
                    (process0 (Some [H1_443]) q0) = Some _).
  { vm_compute. reflexivity. }
  eexists. split; [exact Hrun|]. split; [reflexivity|]. split; [reflexivity|].
  destruct (CollectInfo_without_workers_collects_nothing env_ok _ q0 _
              eq_refl (ex_intro _ _ Hrun)) as (H & _).
  exact H.
Defined.

(** ** The queries [CollectInfo] does not make *)

Ltac unfold_MM :=
  unfold Printf, call_more, from_M, defer_more in *; unfold_M.

(** [makeRequest] closes the session it opened whatever [fn] does short of
    touching the connections, be it a panic. *)
Lemma makeRequest_conns env client fn timeout w :
  (∀ w', m_conns (fn w').2 = m_conns w') →
  m_conns (makeRequest env client fn timeout w).2 = m_conns w.
Proof.
  intros Hfn. unfold makeRequest. unfold_MM. simpl.
  destruct (bmclib_Open env _); simpl; [done|].
  match goal with |- context [fn ?w1] =>
    specialize (Hfn w1); destruct (fn w1) as [[[v|err]|msg] w2]
  end; simpl in *; rewrite ?Hfn; simpl; by rewrite decide_True.
Qed.

Lemma makeRequest_returns env client fn timeout w :
  (∀ w', ∃ r, (fn w').1 = Returns r) →
  ∃ r, (makeRequest env client fn timeout w).1 = Returns r.
Proof.
  intros Hfn. unfold makeRequest. unfold_MM. simpl.
  destruct (bmclib_Open env _); simpl; [eauto|].
  match goal with |- context [fn ?w1] =>
    destruct (Hfn w1) as [r Hr]; destruct (fn w1) as [[[v|err]|msg] w2]
  end; simpl in *; simplify_eq; eauto.
Qed.

(** X17.  The queries made over bmclib that [CollectInfo] leaves aside,
    [QueryMetadata], [QueryPowerState], [QueryUsers] and [QueryBios], give
    back the connections as they found them, on every path: the deferred
    [Close] follows every successful [Open].  So does [makeRequest] for any
    request function that leaves the connections alone, even one that
    panics. *)
Theorem bmclib_queries_close_their_session (env : Env) (more : Env_more)
    (client : bmclib_Client) (q : QueryParams) (w : World_more) :
  m_conns (QueryMetadata env more client q w).2 = m_conns w ∧
  m_conns (QueryPowerState env more client q w).2 = m_conns w ∧
  m_conns (QueryUsers env more client q w).2 = m_conns w ∧
  m_conns (QueryBios env more client q w).2 = m_conns w ∧
  ∀ fn timeout,
    (∀ w', m_conns (fn w').2 = m_conns w') →
    m_conns (makeRequest env client fn timeout w).2 = m_conns w.
Proof.
  split_and!.
  - unfold QueryMetadata. unfold_MM. simpl.
    destruct (bmclib_Open env _); simpl; [done|].
    destruct (json_MarshalIndent _); simpl;
      [destruct (q_Verbose q); simpl|]; by rewrite decide_True.
  - unfold QueryPowerState. unfold_MM. simpl.
    destruct (bmclib_Open env _); simpl; [done|].
    destruct (bmclib_GetPowerState more _); simpl;
      [destruct (q_Verbose q); simpl|]; by rewrite decide_True.
  - unfold QueryUsers. unfold_MM. simpl.
    destruct (bmclib_Open env _); simpl; [done|].
    destruct (bmclib_ReadUsers more _) as [users|]; simpl;
      [destruct (json_MarshalIndent_field _ _); simpl;
       [destruct (q_Verbose q); simpl|]|]; by rewrite decide_True.
  - unfold QueryBios. unfold mbind at 1, ST_bind at 1.
    match goal with |- context [makeRequest env client ?fn ?t w] =>
      pose proof (makeRequest_conns env client fn t w) as Hc;
      destruct (makeRequest env client fn t w) as [[r|msg] w1]
    end; simpl in Hc.
    + unfold_MM. rewrite <- Hc by done. by destruct (q_Verbose q).
    + by rewrite <- Hc.
  - intros fn timeout. apply makeRequest_conns.
Qed.

(** X18.  What the bmclib queries report.  [QueryMetadata] fails only when
    [Open] fails or the metadata cannot be encoded: its test after
    [GetMetadata] looks at the error of [Open] again, so [could not get
    metadata] is never returned; on success it returns the metadata as it
    is encoded, under no key.  [QueryPowerState] reports a failure of
    [GetPowerState] under the words [could not get inventory], never fails
    on the encoding, and on success returns the state under the key
    [PowerState]. *)
Theorem bmclib_query_results (env : Env) (more : Env_more)
    (client : bmclib_Client) (q : QueryParams) (w : World_more) :
  (QueryMetadata env more client q w).1 =
    Returns
      match bmclib_Open env client with
      | Some err => Err ("could not connect to bmc: " +:+ err)
      | None =>
        match bmclib_GetMetadata more client with
        | GoJSON j => Ok j
        | GoUnencodable why => Err ("could not marshal JSON: " +:+ why)
        end
      end ∧
  (∀ err, (QueryMetadata env more client q w).1 ≠
            Returns (Err ("could not get metadata: " +:+ err))) ∧
  (QueryPowerState env more client q w).1 =
    Returns
      match bmclib_Open env (PreferProvider client (q_Preferred q)) with
      | Some err => Err ("could not open client: " +:+ err)
      | None =>
        match bmclib_GetPowerState more
                (PreferProvider client (q_Preferred q)) with
        | Ok state => Ok (JObj {[ "PowerState" := JString state ]})
        | Err err => Err ("could not get inventory: " +:+ err)
        end
      end.
Proof.
  assert ((QueryMetadata env more client q w).1 =
    Returns
      match bmclib_Open env client with
      | Some err => Err ("could not connect to bmc: " +:+ err)
      | None =>
        match bmclib_GetMetadata more client with
        | GoJSON j => Ok j
        | GoUnencodable why => Err ("could not marshal JSON: " +:+ why)
        end
      end) as Hmeta.
  { unfold QueryMetadata. unfold_MM. simpl.
    destruct (bmclib_Open env _); simpl; [done|].
    destruct (bmclib_GetMetadata more client); simpl; [|done].
    by destruct (q_Verbose q). }
  split_and!.
  - exact Hmeta.
  - intros err. rewrite Hmeta.
    destruct (bmclib_Open env client); [|destruct (bmclib_GetMetadata _ _)];
      intros [= H]; try done.
    all: apply (f_equal (String.get 10)) in H; discriminate H.
  - clear Hmeta. unfold QueryPowerState. unfold_MM. simpl.
    destruct (bmclib_Open env _); simpl; [done|].
    destruct (bmclib_GetPowerState more _); simpl; [|done].
    by destruct (q_Verbose q).
Qed.

(** X19.  [QueryBios] returns what [makeRequest] gave it and, when
    verbose, prints the bytes whatever the outcome: after a failed request
    it prints the nil slice, an empty line.  What it returns on success is
    the BIOS configuration as it is encoded, under no key. *)
Theorem QueryBios_prints_whatever_it_got (env : Env) (more : Env_more)
    (client : bmclib_Client) (q : QueryParams) (w : World_more) :
  ∃ r w1,
    makeRequest env client (client_GetBiosConfiguration more client)
      (q_Timeout q) w = (Returns r, w1) ∧
    QueryBios env more client q w =
      (Returns r,
       if q_Verbose q
       then mkWorldMore (m_conns w1)
              (m_calls w1 ++ [CPrint "%v\n" (bytes_of r)])
       else w1) ∧
    (∀ b, r = Ok b →
          bmclib_GetBiosConfiguration more client = Ok (GoJSON b)) ∧
    (∀ e, r = Err e → bytes_of r = None).
Proof.
  destruct (makeRequest env client (client_GetBiosConfiguration more client)
              (q_Timeout q) w) as [rr w1] eqn:Hreq.
  assert (∃ r, rr = Returns r) as [r ->].
  { destruct (makeRequest_returns env client
                (client_GetBiosConfiguration more client) (q_Timeout q) w)
      as [r Hr].
    - intros w'. by eexists.
    - rewrite Hreq in Hr. by exists r. }
  exists r, w1. split; [done|]. split; [|split].
  - unfold QueryBios. unfold mbind at 1, ST_bind at 1. rewrite Hreq.
    unfold_MM. by destruct (q_Verbose q).
  - intros b ->. revert Hreq. unfold makeRequest, client_GetBiosConfiguration.
    unfold_MM. simpl. destruct (bmclib_Open env _); simpl; [done|].
    destruct (bmclib_GetBiosConfiguration more client) as [[j|why]|err];
      simpl; intros [= ? ?]; by subst.
  - by intros e ->.
Qed.

Lemma from_M_connectGofish_connected env q w c :
  gofish_Connect env (makeGofishConfig q) = (Some c, None) →
  from_M (connectGofish env q) w =
    (Returns (mkAPIClient (api_config c) true true, None),
     mkWorldMore (GofishSession (Endpoint (makeGofishConfig q)) :: m_conns w)
       (m_calls w ++ [CBase (CConnect (Endpoint (makeGofishConfig q)))])).
Proof.
  intros H. unfold from_M.
  by rewrite (connectGofish_connected env q _ c H).
Qed.

(** X20.  [QueryStorage] asks for the storage systems first and for the
    storage services only when it got the systems: a failure of the first
    request is returned, under the words [could not query storage
    systems], without the second being made.  When both are got and can be
    encoded, what is returned is one object with the key [Storage], which
    holds an object with the keys [Systems] and [Services]. *)
Theorem QueryStorage_asks_systems_then_services (env : Env) (more : Env_more)
    (q : QueryParams) (w : World_more) (c : gofish_APIClient) :
  gofish_Connect env (makeGofishConfig q) = (Some c, None) →
  let c' := mkAPIClient (api_config c) true true in
  let ep := Endpoint (makeGofishConfig q) in
  let run := QueryStorage env more q w in
  match gofish_StorageSystems more c' with
  | Err err =>
    run.1 = Returns (Err ("could not query storage systems ("
                          +:+ colon (q_Host q) (q_Port q) +:+ "): " +:+ err)) ∧
    m_calls run.2 =
      m_calls w ++ [CBase (CConnect ep); CStorageSystems (Endpoint (api_config c))]
  | Ok systems =>
    (∃ rest, m_calls run.2 =
       m_calls w ++ [CBase (CConnect ep); CStorageSystems (Endpoint (api_config c));
                     CStorageServices (Endpoint (api_config c))] ++ rest) ∧
    match gofish_StorageServices more c' with
    | Err err =>
      run.1 = Returns (Err ("could not query storage services ("
                            +:+ colon (q_Host q) (q_Port q) +:+ "): " +:+ err))
    | Ok services =>
      ∀ sy sv, systems = GoJSON sy → services = GoJSON sv →
        run.1 = Returns (Ok (JObj {[ "Storage" :=
                   JObj (<["Systems" := sy]> {[ "Services" := sv ]}) ]}))
    end
  end.
Proof.
  intros H c' ep run.
  pose proof (eq_refl : run = QueryStorage env more q w) as Hrun.
  clearbody run. subst c' ep.
  unfold QueryStorage in Hrun. unfold mbind at 1, ST_bind at 1 in Hrun.
  rewrite (from_M_connectGofish_connected env q w c H) in Hrun.
  cbn beta iota in Hrun. unfold_MM. cbn [api_config] in *. revert Hrun.
  destruct (gofish_StorageSystems more _) as [systems|err]; simpl.
  2: { intros ->. simpl. by rewrite <- app_assoc. }
  destruct (gofish_StorageServices more _) as [services|err]; simpl.
  2: { intros ->. simpl. split; [|done]. exists []. by rewrite <- !app_assoc. }
  destruct (json_MarshalIndent_Storage systems services) as [b|err] eqn:Hb;
    simpl.
  - destruct (q_Verbose q); simpl; intros ->; simpl.
    + split; [eexists [_]; by rewrite <- !app_assoc|].
      intros sy sv -> ->. simpl in Hb. by simplify_eq.
    + split; [exists []; by rewrite <- !app_assoc|].
      intros sy sv -> ->. simpl in Hb. by simplify_eq.
  - intros ->. simpl. split; [exists []; by rewrite <- !app_assoc|].
    by intros sy sv -> ->.
Qed.

Lemma QueryStorage_asks_systems_then_services_witness :
  (QueryStorage env_ok more_ok q_verbose world_more0).1 =
    Returns (Ok (JObj {[ "Storage" :=
       JObj (<["Systems" := JString "volumes"]>
               {[ "Services" := JString "services" ]}) ]})).
Proof.
  pose proof (QueryStorage_asks_systems_then_services env_ok more_ok q_verbose
                world_more0 _ eq_refl) as H.
  cbn zeta in H. cbn [gofish_StorageSystems gofish_StorageServices more_ok
                      sample_more] in H.
  destruct H as [_ H]. exact (H _ _ eq_refl eq_refl).
Defined.

(** X21.  [QueryStorage] and [QueryRegisteries] return with the gofish
    connection they opened still held, whatever the requests gave: like the
    gofish queries of [CollectInfo] they never log out. *)
Theorem storage_and_registries_keep_the_connection (env : Env)
    (more : Env_more) (q : QueryParams) (w : World_more)
    (c : gofish_APIClient) :
  gofish_Connect env (makeGofishConfig q) = (Some c, None) →
  let held := GofishSession (Endpoint (makeGofishConfig q)) :: m_conns w in
  m_conns (QueryStorage env more q w).2 = held ∧
  m_conns (QueryRegisteries env more q w).2 = held.
Proof.
  intros H held. subst held. split.
  - unfold QueryStorage. unfold mbind at 1, ST_bind at 1.
    rewrite (from_M_connectGofish_connected env q w c H).
    cbn beta iota. unfold_MM. cbn [api_config].
    destruct (gofish_StorageSystems more _); simpl; [|done].
    destruct (gofish_StorageServices more _); simpl; [|done].
    destruct (json_MarshalIndent_Storage _ _); simpl; [|done].
    by destruct (q_Verbose q).
  - unfold QueryRegisteries. unfold mbind at 1, ST_bind at 1.
    rewrite (from_M_connectGofish_connected env q w c H).
    cbn beta iota. unfold_MM. cbn [api_config].
    destruct (gofish_Registries more _); simpl; [|done].
    destruct (json_MarshalIndent_field _ _); simpl; [|done].
    by destruct (q_Verbose q).
Qed.

Lemma storage_and_registries_keep_the_connection_witness :
  m_conns (QueryRegisteries env_ok more_ok q_verbose world_more0).2 =
    [GofishSession "https://root:pw@H1:443"].
Proof.
  exact (proj2 (storage_and_registries_keep_the_connection env_ok more_ok
                  q_verbose world_more0 _ eq_refl)).
Defined.
